(** * network-dashboard scanner: the scan-and-fingerprint engine

    A shallow embedding of the Go scanner together with the properties of
    the engine that the specification states.

    Sources.
    - scanner/main.go: the guard around runScan, the /trigger and /status
      handlers, the wait for the API at start-up, the choice of the scan
      and the submission of results (the first of the two versions of the
      file, the one that submits results through a callback).
    - scanner/scanner/fingerprint.go: the native fingerprinter; the second
      part of that file is the TCP connect scanner (tcp.go in the
      repository's layout) with expandCIDR, ScanPort, ScanPorts and
      ScanAllPorts.
    - scanner/scanner/zgrab.go: the delegated fingerprinter with its
      helpers extractTitle, parseEHLOCapabilities and extractRedisVersion.
    - scanner/scanner/zmap.go: the delegated scanner and GetModuleForPort.

    The first part of the file holds the embedding; the properties follow:
    those that the specification states, then further properties of the
    code.

    Conventions.
    - A Go [string] is an immutable byte sequence: it is a Rocq [string]
      whose characters are the bytes, viewed as [list ascii] where the
      code slices or iterates.
    - Go [int] values (ports, counts, lengths) are [Z].
    - A [net.IP] is a byte slice: [list Z] with every element in
      [0, 256), the wrap-around of [ip[j]++] written out.
    - A function of type (T, error) returns a pair of a value and an
      [error], or a [result] where the code returns nil with an error.
    - Whatever the code obtains from the outside world (sockets, external
      processes, the clock, the context) is read from an explicit
      environment; goroutines and locks are a step relation over the
      atomic sections.
    - A loop whose end is not evident from its form takes [fuel]; running
      out of fuel is a result of its own, never a value. *)

From Stdlib Require Import ZArith String Ascii List Lia Bool.
From stdpp Require Import gmap strings list fin_maps pretty.

Open Scope Z_scope.

(** ** Go's [strings] package, as far as the scanner uses it *)

Module Strings.

Definition bytes (s : string) : list ascii := list_ascii_of_string s.
Definition of_bytes (l : list ascii) : string := string_of_list_ascii l.

Definition code (c : ascii) : N := N_of_ascii c.

(** len(s): the number of bytes. *)
Definition len (s : string) : Z := Z.of_nat (String.length s).

(** The [asciiSpace] table of package strings: \t \n \v \f \r and space. *)
Definition asciiSpace (c : ascii) : bool :=
  let n := code c in ((9 <=? n) && (n <=? 13) || (n =? 32))%N.

(** [unicode.IsSpace] on a two-byte rune: U+0085 (C2 85) and U+00A0 (C2 A0). *)
Definition space2 (c1 c2 : ascii) : bool :=
  ((code c1 =? 194) && ((code c2 =? 133) || (code c2 =? 160)))%N.

(** [unicode.IsSpace] on a three-byte rune: U+1680, U+2000..U+200A, U+2028,
    U+2029, U+202F, U+205F and U+3000 in their UTF-8 encodings. *)
Definition space3 (c1 c2 c3 : ascii) : bool :=
  let a := code c1 in let b := code c2 in let c := code c3 in
  ((a =? 225) && (b =? 154) && (c =? 128)
   || (a =? 226) && (b =? 128)
        && ((128 <=? c) && (c <=? 138) || (c =? 168) || (c =? 169) || (c =? 175))
   || (a =? 226) && (b =? 129) && (c =? 159)
   || (a =? 227) && (b =? 128) && (c =? 128))%N.

(** Dropping the space runes at the front of a byte sequence.  [s2] and [s3]
    recognise the encodings of the two- and three-byte space runes in the
    order in which the bytes are met. *)
Fixpoint trimRunes (s2 : ascii -> ascii -> bool)
    (s3 : ascii -> ascii -> ascii -> bool) (l : list ascii) : list ascii :=
  match l with
  | [] => []
  | c1 :: l1 =>
      if asciiSpace c1 then trimRunes s2 s3 l1
      else match l1 with
           | [] => l
           | c2 :: l2 =>
               if s2 c1 c2 then trimRunes s2 s3 l2
               else match l2 with
                    | [] => l
                    | c3 :: l3 =>
                        if s3 c1 c2 c3 then trimRunes s2 s3 l3 else l
                    end
           end
  end.

(** strings.TrimLeftFunc(s, unicode.IsSpace): runes are decoded forwards. *)
Definition trimLeft (l : list ascii) : list ascii := trimRunes space2 space3 l.

(** strings.TrimRightFunc(s, unicode.IsSpace): the last rune is decoded
    backwards, so the same encodings are met last byte first. *)
Definition trimRight (l : list ascii) : list ascii :=
  rev (trimRunes (fun c2 c1 => space2 c1 c2)
                 (fun c3 c2 c1 => space3 c1 c2 c3) (rev l)).

(** strings.TrimSpace: the ASCII fast path and the Unicode fall-back of the
    library together remove every leading and then every trailing rune
    for which unicode.IsSpace holds. *)
Definition trimSpaceBytes (l : list ascii) : list ascii := trimRight (trimLeft l).
Definition TrimSpace (s : string) : string := of_bytes (trimSpaceBytes (bytes s)).

(** strings.HasPrefix *)
Definition HasPrefix (s p : string) : bool := String.prefix p s.

(** strings.Contains *)
Fixpoint containsBytes (l sub : list ascii) : bool :=
  match l with
  | [] => match sub with [] => true | _ => false end
  | _ :: l' => String.prefix (of_bytes sub) (of_bytes l) || containsBytes l' sub
  end.
Definition Contains (s sub : string) : bool := containsBytes (bytes s) (bytes sub).

(** strings.ToLower, exact on ASCII text: the bytes of the upper-case
    ASCII letters are replaced.  On a text with bytes above 0x7F Go also
    maps the letters outside ASCII, which is left out here; the
    properties that depend on the result are stated for ASCII text. *)
Definition lowerByte (c : ascii) : ascii :=
  let n := code c in
  if ((65 <=? n) && (n <=? 90))%N then ascii_of_N (n + 32) else c.
Definition ToLower (s : string) : string := of_bytes (map lowerByte (bytes s)).

(** A text of ASCII bytes only.  On such a text strings.ToLower changes
    the bytes of the upper-case letters and nothing else. *)
Definition isASCII (s : string) : Prop :=
  Forall (fun c => (code c < 128)%N) (bytes s).

End Strings.

(** ** Go's [net] package: addresses, masks and networks

    expandCIDR relies on net.ParseCIDR, IP.Mask, IPNet.Contains and
    IP.String of the Go standard library (net/ip.go, net/netip); they are
    transcribed here with their length conversions between the 4-byte and
    the 16-byte form of an address. *)

Module Net.

(** A [net.IP] and a [net.IPMask] are byte slices; [nil] is the empty list. *)
Definition IP := list Z.
Definition IPMask := list Z.

Definition IPv4len : nat := 4.
Definition IPv6len : nat := 16.

Definition v4InV6Prefix : list Z := [0; 0; 0; 0; 0; 0; 0; 0; 0; 0; 255; 255].

(** The [n] low bytes of [v], least significant first and most significant
    first. *)
Fixpoint bytesLE (n : nat) (v : Z) : list Z :=
  match n with
  | O => []
  | S k => (v mod 256) :: bytesLE k (v / 256)
  end.
Definition bytesBE (n : nat) (v : Z) : list Z := rev (bytesLE n v).

(** A [netip.Addr] without zone, as netip.ParseAddr returns it for the
    address part of a CIDR text: a 32-bit IPv4 address or a 128-bit IPv6
    address (an IPv4-mapped text such as ::ffff:10.0.0.1 is of the second
    kind). *)
Inductive Addr : Type :=
| Addr4 (v : Z)
| Addr6 (v : Z).

Definition BitLen (a : Addr) : Z :=
  match a with Addr4 _ => 32 | Addr6 _ => 128 end.

Definition As16 (a : Addr) : IP :=
  match a with
  | Addr4 v => v4InV6Prefix ++ bytesBE 4 v
  | Addr6 v => bytesBE 16 v
  end.

(** The loop of net.CIDRMask: [l] bytes, [n] leading one bits still to
    write. *)
Fixpoint maskBytes (l : nat) (n : Z) : IPMask :=
  match l with
  | O => []
  | S k =>
      if 8 <=? n then 255 :: maskBytes k (n - 8)
      else Z.lxor 255 (Z.shiftr 255 n) :: maskBytes k 0
  end.

Definition CIDRMask (ones bits : Z) : IPMask :=
  if negb (bits =? 32) && negb (bits =? 128) then []
  else if (ones <? 0) || (bits <? ones) then []
  else maskBytes (Z.to_nat (bits / 8)) ones.

Definition allFF (b : list Z) : bool := forallb (Z.eqb 255) b.
Definition isZeros (b : list Z) : bool := forallb (Z.eqb 0) b.

(** IP.To4: the 4-byte form of an IPv4 or IPv4-mapped address, else nil. *)
Definition To4 (ip : IP) : IP :=
  if (length ip =? IPv4len)%nat then ip
  else if (length ip =? IPv6len)%nat
          && isZeros (firstn 10 ip)
          && (nth 10 ip 0 =? 255) && (nth 11 ip 0 =? 255)
       then skipn 12 ip
       else [].

Definition hasV4Prefix (ip : IP) : bool :=
  bool_decide (firstn 12 ip = v4InV6Prefix).

(** IP.Mask *)
Definition Mask (ip : IP) (mask : IPMask) : IP :=
  let mask :=
    if (length mask =? IPv6len)%nat && (length ip =? IPv4len)%nat
       && allFF (firstn 12 mask)
    then skipn 12 mask else mask in
  let ip :=
    if (length mask =? IPv4len)%nat && (length ip =? IPv6len)%nat
       && hasV4Prefix ip
    then skipn 12 ip else ip in
  if negb (length ip =? length mask)%nat then []
  else zip_with Z.land ip mask.

Record IPNet : Type := { ipnet_IP : IP; ipnet_Mask : IPMask }.

(** The switch on len(n.Mask) in networkNumberAndMask. *)
Definition maskFor (ip : IP) (mask : IPMask) : IP * IPMask :=
  if (length mask =? IPv4len)%nat then
    if negb (length ip =? IPv4len)%nat then ([], []) else (ip, mask)
  else if (length mask =? IPv6len)%nat then
    if (length ip =? IPv4len)%nat then (ip, skipn 12 mask) else (ip, mask)
  else ([], []).

Definition networkNumberAndMask (n : IPNet) : IP * IPMask :=
  match To4 (ipnet_IP n) with
  | [] =>
      if negb (length (ipnet_IP n) =? IPv6len)%nat then ([], [])
      else maskFor (ipnet_IP n) (ipnet_Mask n)
  | ip4 => maskFor ip4 (ipnet_Mask n)
  end.

(** The comparison loop of IPNet.Contains over equally long slices. *)
Fixpoint sameMasked (nn ip : IP) (m : IPMask) : bool :=
  match nn, ip, m with
  | a :: nn', b :: ip', c :: m' =>
      if negb (Z.land a c =? Z.land b c) then false else sameMasked nn' ip' m'
  | _, _, _ => true
  end.

(** IPNet.Contains *)
Definition Contains (n : IPNet) (ip : IP) : bool :=
  let '(nn, m) := networkNumberAndMask n in
  let ip := match To4 ip with [] => ip | x => x end in
  if negb (length ip =? length nn)%nat then false
  else sameMasked nn ip m.

(** net.ParseCIDR on a text "addr/n" whose address part netip.ParseAddr
    decodes to [a] and whose prefix part reads as the decimal [n]; [None] is
    the ParseError. *)
Definition ParseCIDR (a : Addr) (n : Z) : option (IP * IPNet) :=
  if (n <? 0) || (BitLen a <? n) then None
  else
    let m := CIDRMask n (BitLen a) in
    let addr16 := As16 a in
    Some (addr16, {| ipnet_IP := Mask addr16 m; ipnet_Mask := m |}).

(** *** IP.String *)

Definition dotted (p4 : IP) : string :=
  String.concat "." (map (fun b : Z => pretty b) p4).

Definition hexDigit (d : Z) : ascii :=
  if d <? 10 then ascii_of_N (Z.to_N (48 + d)) else ascii_of_N (Z.to_N (87 + d)).

(** appendHex: lower-case hexadecimal without leading zeros. *)
Definition appendHex (x : Z) : string :=
  if 4096 <=? x then
    string_of_list_ascii
      [hexDigit (x / 4096); hexDigit (x / 256 mod 16); hexDigit (x / 16 mod 16); hexDigit (x mod 16)]
  else if 256 <=? x then
    string_of_list_ascii [hexDigit (x / 256); hexDigit (x / 16 mod 16); hexDigit (x mod 16)]
  else if 16 <=? x then
    string_of_list_ascii [hexDigit (x / 16); hexDigit (x mod 16)]
  else string_of_list_ascii [hexDigit x].

Fixpoint groups16 (ip : IP) : list Z :=
  match ip with
  | hi :: lo :: rest => (hi * 256 + lo) :: groups16 rest
  | _ => []
  end.

(** The number of zero groups at the front of [g]. *)
Fixpoint zeroRun (g : list Z) : Z :=
  match g with
  | x :: g' => if x =? 0 then 1 + zeroRun g' else 0
  | [] => 0
  end.

(** The first longest run of at least two zero groups, as (start, end);
    (255, 255) when there is none. *)
Fixpoint longestZeros (i : Z) (g : list Z) (best : Z * Z) : Z * Z :=
  match g with
  | [] => best
  | _ :: g' =>
      let l := zeroRun g in
      let best' :=
        if (2 <=? l) && (snd best - fst best <? l) then (i, i + l) else best in
      longestZeros (i + 1) g' best'
  end.

Fixpoint appendGroups (zs ze i : Z) (g : list Z) : string :=
  match g with
  | [] => ""
  | x :: g' =>
      if i =? zs then "::" +:+ appendGroups zs ze (i + 1) g'
      else if (zs <? i) && (i <? ze) then appendGroups zs ze (i + 1) g'
      else (if (0 <? i) && negb (i =? ze) then ":" else "")
             +:+ appendHex x +:+ appendGroups zs ze (i + 1) g'
  end.

Definition appendTo6 (ip : IP) : string :=
  let g := groups16 ip in
  let '(zs, ze) := longestZeros 0 g (255, 255) in
  appendGroups zs ze 0 g.

(** hexString: two lower-case hexadecimal digits for every byte. *)
Definition hexString (b : list Z) : string :=
  string_of_list_ascii (flat_map (fun x => [hexDigit (x / 16); hexDigit (x mod 16)]) b).

Definition IP_String (ip : IP) : string :=
  if (length ip =? 0)%nat then "<nil>"
  else if negb (length ip =? IPv4len)%nat && negb (length ip =? IPv6len)%nat
  then "?" +:+ hexString ip
  else match To4 ip with
       | [] => appendTo6 ip
       | p4 => dotted p4
       end.

End Net.

(** ** The address expander (tcp.go) *)

Module Expander.
Import Net.

(** What a Go function of type (T, error) returns. *)
Inductive result (A : Type) : Type :=
| Ok (a : A)
| Err (msg : string).
Arguments Ok {A} a.
Arguments Err {A} msg.

(** [inc]: the loop runs from the last byte towards the first, adding one
    with wrap-around and stopping at the first byte that does not wrap to
    zero.  [incFromLast] sees the slice last byte first. *)
Fixpoint incFromLast (r : list Z) : list Z :=
  match r with
  | [] => []
  | b :: r' =>
      let b' := (b + 1) mod 256 in
      if 0 <? b' then b' :: r' else b' :: incFromLast r'
  end.

Definition inc (ip : IP) : IP := rev (incFromLast (rev ip)).

(** for ip := ip.Mask(ipnet.Mask); ipnet.Contains(ip); inc(ip) { append }.
    The loop is bounded by [fuel]; [None] means that it has not left the
    loop within [fuel] tests of its condition. *)
Fixpoint expandLoop (fuel : nat) (ipnet : IPNet) (ip : IP) (ips : list string)
  : option (list string) :=
  match fuel with
  | O => None
  | S fuel' =>
      if Contains ipnet ip
      then expandLoop fuel' ipnet (inc ip) (ips ++ [IP_String ip])
      else Some ips
  end.

(** ips[1 : len(ips)-1] *)
Definition dropEnds {A} (l : list A) : list A :=
  firstn (length l - 2) (skipn 1 l).

Definition expandCIDR (fuel : nat) (a : Addr) (n : Z)
  : option (result (list string)) :=
  match ParseCIDR a n with
  | None => Some (Err "invalid CIDR address")
  | Some (ip, ipnet) =>
      match expandLoop fuel ipnet (Mask ip (ipnet_Mask ipnet)) [] with
      | None => None
      | Some ips =>
          Some (Ok (if 2 <? Z.of_nat (length ips) then dropEnds ips else ips))
      end
  end.

(** The IPv4 address a.b.c.d. *)
Definition ipv4 (a b c d : Z) : Addr := Addr4 (((a * 256 + b) * 256 + c) * 256 + d).

End Expander.

(** ** Addresses as numbers

    The vocabulary in which the properties of the address expander are
    stated: the number a byte slice denotes, the base of a masked range and
    the targets of a run of consecutive addresses. *)

Module Ranges.
Import Net Expander.

(** The bytes of a slice are in range. *)
Definition wf (l : list Z) : Prop := Forall (fun b => 0 <= b < 256) l.

(** The number a slice denotes, read least significant byte first. *)
Fixpoint valLE (l : list Z) : Z :=
  match l with
  | [] => 0
  | b :: r => b + 256 * valLE r
  end.

(** The number a slice denotes in network order. *)
Definition val (ip : list Z) : Z := valLE (rev ip).

(** The mask byte with [n] leading ones that CIDRMask writes, n < 8. *)
Definition lastMaskByte (n : Z) : Z := Z.lxor 255 (Z.shiftr 255 n).

(** The masked byte keeps the high [n] bits: checked on all bytes. *)
Definition byteMaskCheck : bool :=
  forallb (fun a =>
    forallb (fun n => Z.land a (lastMaskByte n) =? a / 2 ^ (8 - n) * 2 ^ (8 - n))
            (seqZ 0 8))
    (seqZ 0 256).

(** Whether the 128-bit number is an IPv4-mapped address ::ffff:a.b.c.d. *)
Definition mapped (x : Z) : bool := x / 2 ^ 32 =? 65535.

(** The first address of the masked range of [v]/[n] in a family of [bits]
    bits. *)
Definition base (bits n v : Z) : Z :=
  v mod 2 ^ bits / 2 ^ (bits - n) * 2 ^ (bits - n).

(** The network of an IPv4 CIDR text. *)
Definition net4 (v n : Z) : IPNet :=
  {| ipnet_IP := bytesBE 4 (base 32 n v); ipnet_Mask := maskBytes 4 n |}.

(** The network of an IPv6 CIDR text. *)
Definition net6 (v n : Z) : IPNet :=
  {| ipnet_IP := bytesBE 16 (base 128 n v); ipnet_Mask := maskBytes 16 n |}.

(** The targets of the addresses [B], [B + 1], ..., [B + k - 1]. *)
Definition targets (L : nat) (B k : Z) : list string :=
  map (fun x => IP_String (bytesBE L x)) (seqZ B k).

(** The first IPv4-mapped address, ::ffff:0.0.0.0. *)
Definition v4MappedBase : Z := 65535 * 2 ^ 32.

(** The number of addresses the loop collects for an IPv6 network: the
    whole range, unless the range starts below the IPv4-mapped block and
    reaches into it; then the loop stops at ::ffff:0.0.0.0. *)
Definition count6 (v n : Z) : Z :=
  let B := base 128 n v in
  let N := 2 ^ (128 - n) in
  if mapped B then N
  else if B <? v4MappedBase then Z.min (B + N) v4MappedBase - B
  else N.

(** What expandCIDR keeps of the [k] addresses from [B]: all but the first
    and the last when there are more than two. *)
Definition trimmed (L : nat) (B k : Z) : list string :=
  if 2 <? k then targets L (B + 1) (k - 2) else targets L B k.

(** The length in bytes and the number of the address of a CIDR text. *)
Definition addrLen (a : Addr) : nat :=
  match a with Addr4 _ => 4%nat | Addr6 _ => 16%nat end.
Definition addrVal (a : Addr) : Z :=
  match a with Addr4 v => v | Addr6 v => v end.

(** The first address and the number of addresses of the masked range. *)
Definition rangeBase (a : Addr) (n : Z) : Z := base (BitLen a) n (addrVal a).
Definition rangeSize (a : Addr) (n : Z) : Z := 2 ^ (BitLen a - n).

End Ranges.

(** ** Banner sanitisation (fingerprint.go, [sanitizeBanner]) *)

Module Banner.
Import Strings.

(** One step of [for _, r := range s]: a rune in [32, 127) is written as it
    is, '\n', '\r' and '\t' become a space, every other rune is skipped.
    Bytes below 0x80 are always runes of their own, and every byte of a
    multi-byte or invalid sequence decodes to a rune outside both tests,
    so the loop acts byte by byte. *)
Definition keepRune (c : ascii) : list ascii :=
  let r := code c in
  if ((32 <=? r) && (r <? 127))%N then [c]
  else if ((r =? 10) || (r =? 13) || (r =? 9))%N then [" "%char]
  else [].

Definition writeRunes (l : list ascii) : list ascii := flat_map keepRune l.

Definition ellipsis : list ascii := bytes "...".

(** if len(out) > 512 { out = out[:512] + "..." } *)
Definition truncate (out : list ascii) : list ascii :=
  if 512 <? Z.of_nat (length out) then firstn 512 out ++ ellipsis else out.

Definition sanitizeBytes (l : list ascii) : list ascii :=
  trimSpaceBytes (truncate (writeRunes (trimSpaceBytes l))).

Definition sanitizeBanner (s : string) : string :=
  of_bytes (sanitizeBytes (bytes s)).

(** A banner that starts with a skipped byte followed by a blank, and is
    longer than 512 bytes after the loop. *)
Definition shiftedBanner : string :=
  of_bytes (ascii_of_N 1 :: " "%char :: repeat "a"%char 600).

(** A printable ASCII byte, as the loop of sanitizeBanner keeps it. *)
Definition printable (c : ascii) : bool := ((32 <=? code c) && (code c <? 127))%N.

Definition clean (l : list ascii) : Prop := Forall (fun c => printable c = true) l.

(** The list does not start with a blank. *)
Definition noBlankAhead (l : list ascii) : Prop :=
  match l with
  | [] => True
  | c :: _ => asciiSpace c = false
  end.

(** Printable bytes with no blank at either end. *)
Definition stripped (l : list ascii) : Prop :=
  clean l /\ noBlankAhead l /\ noBlankAhead (rev l).

(** Dropping the blanks at the front. *)
Fixpoint dropBlanks (l : list ascii) : list ascii :=
  match l with
  | [] => []
  | c :: l' => if asciiSpace c then dropBlanks l' else l
  end.

(** A banner as sanitizeBanner leaves it: printable bytes, no blank at
    either end, at most 512 bytes and the ellipsis. *)
Definition tidy (s : string) : Prop := stripped (bytes s) /\ len s <= 515.

End Banner.

(** ** Discovered endpoints (zmap.go) *)

(** ZmapResult: one responding address for one port. *)
Record ZmapResult : Type := { IP : string; Port : Z }.

#[global] Instance ZmapResult_eq_dec : EqDecision ZmapResult.
Proof. solve_decision. Defined.

(** A Go error value; [None] is nil. *)
Definition error : Type := option string.

(** The map[string][]int a scan returns: open ports by address. *)
Abbreviation HostPorts := (gmap string (list Z)).

(** results[r.IP] = append(results[r.IP], r.Port) *)
Definition addResult (results : HostPorts) (r : ZmapResult) : HostPorts :=
  <[IP r := default [] (results !! IP r) ++ [Port r]]> results.

(** for _, r := range portResults { ... } *)
Definition addResults (results : HostPorts) (portResults : list ZmapResult)
  : HostPorts :=
  fold_left addResult portResults results.

(** for ip, ports := range batch { results[ip] = append(results[ip], ports...) }:
    every key of [batch] is visited once, so the order of the iteration
    does not matter. *)
Definition mergeInto (results batch : HostPorts) : HostPorts :=
  union_with (fun have new => Some (have ++ new)) results batch.

(** A context that is never found done. *)
Definition neverDone {A} (h : list A) : bool := false.

(** ** The concurrency guard (main.go) *)

Module Guard.

(** A time.Time; the zero Time is 0. *)
Definition Time : Type := Z.
Definition IsZero (t : Time) : bool := t =? 0.

(** The package variables isScanning and lastScanTime; scanMutex makes each
    of the functions below one atomic step. *)
Record State : Type := { isScanning : bool; lastScanTime : Time }.

Definition initial : State := {| isScanning := false; lastScanTime := 0 |}.

(** The first critical section of runScan.  The boolean tells whether the
    call goes on to scan; otherwise it logs "Scan already in progress,
    skipping..." and returns. *)
Definition runScan_enter (g : State) : State * bool :=
  if isScanning g then (g, false)
  else ({| isScanning := true; lastScanTime := lastScanTime g |}, true).

(** The deferred function of runScan, with [now] the value of time.Now(). *)
Definition runScan_exit (now : Time) (g : State) : State :=
  {| isScanning := false; lastScanTime := now |}.

Inductive TriggerStatus : Type :=
| method_not_allowed
| already_running
| started.

(** The /trigger handler: the answer, and whether it ran [go runScan()]. *)
Definition trigger (method : string) (g : State) : TriggerStatus * bool :=
  if negb (String.eqb method "POST") then (method_not_allowed, false)
  else if isScanning g then (already_running, false)
  else (started, true).

(** The /status handler: is_scanning, and last_scan_time unless it is zero. *)
Definition status (g : State) : bool * option Time :=
  (isScanning g, if IsZero (lastScanTime g) then None else Some (lastScanTime g)).

(** The process: the guard, the calls of runScan that have been made but
    have not reached the first critical section yet, and the calls that
    are scanning (past the first critical section, deferred function not
    yet run). *)
Record Proc : Type := { guard : State; called : nat; scanning : nat }.

Definition boot : Proc := {| guard := initial; called := 0; scanning := 0 |}.

Inductive Event : Type :=
| Call                      (* main's first scan, or a tick of the cron schedule *)
| Trigger (method : string) (* a request to /trigger *)
| Status                    (* a request to /status *)
| Enter                     (* a call reaches the first critical section *)
| Exit (now : Time).        (* a scanning call returns *)

Inductive step : Proc -> Event -> Proc -> Prop :=
| step_call p :
    step p Call {| guard := guard p; called := S (called p); scanning := scanning p |}
| step_trigger p method :
    step p (Trigger method)
         {| guard := guard p;
            called := if snd (trigger method (guard p)) then S (called p) else called p;
            scanning := scanning p |}
| step_status p : step p Status p
| step_enter p n :
    called p = S n ->
    step p Enter
         {| guard := fst (runScan_enter (guard p));
            called := n;
            scanning := if snd (runScan_enter (guard p))
                        then S (scanning p) else scanning p |}
| step_exit p now n :
    scanning p = S n ->
    step p (Exit now)
         {| guard := runScan_exit now (guard p); called := called p; scanning := n |}.

Inductive reachable : Proc -> Prop :=
| reach_boot : reachable boot
| reach_step p e p' : reachable p -> step p e p' -> reachable p'.

(** A state with a scan in progress: main has called runScan and the
    call has passed the first critical section. *)
Definition scanningProc : Proc :=
  {| guard := {| isScanning := true; lastScanTime := 0 |};
     called := 0; scanning := 1 |}.

End Guard.

(** ** The delegated probe backend (zmap.go) *)

Module Zmap.

Record ZmapScanner : Type := {
  Networks : list string;
  Rate : Z;
  Timeout : Z;           (* seconds *)
  Interface : string
}.

Definition NewZmapScanner (networks : list string) (rate timeoutSecs : Z)
  : ZmapScanner :=
  let rate := if rate <=? 0 then 10000 else rate in
  let timeoutSecs := if timeoutSecs <=? 0 then 5 else timeoutSecs in
  {| Networks := networks; Rate := rate; Timeout := timeoutSecs; Interface := "" |}.

(** What csv.Reader.Read returns before io.EOF: a record, or an error for a
    malformed row. *)
Inductive CsvRead : Type :=
| Row (record : list string)
| BadRow.

(** Everything one call of scanNetworkPort obtains from the operating
    system and the zmap process, in the order in which the call asks. *)
Record Run : Type := {
  whitelistCreate : error;      (* os.CreateTemp, allow-list *)
  whitelistWrite : error;       (* WriteString(network + "\n") *)
  blacklistCreate : error;      (* os.CreateTemp, deny-list *)
  stdoutPipe : error;
  stderrPipe : error;
  cmdStart : error;             (* cmd.Start *)
  header : option CsvRead;      (* the first Read; None at io.EOF *)
  rows : list CsvRead;          (* the later Reads, up to io.EOF *)
  stderrStr : string;           (* io.ReadAll(stderr) *)
  cmdWait : error;              (* cmd.Wait: an error when zmap exits non-zero *)
  ctxErr : error                (* ctx.Err() after Wait *)
}.

(** The body of the read loop for one Read. *)
Definition readRow (port : Z) (results : list ZmapResult) (r : CsvRead)
  : list ZmapResult :=
  match r with
  | BadRow => results
  | Row record =>
      match record with
      | field :: _ =>
          if negb (String.eqb field "")
          then results ++ [{| IP := Strings.TrimSpace field; Port := port |}]
          else results
      | [] => results
      end
  end.

Definition readRows (port : Z) (rs : list CsvRead) : list ZmapResult :=
  fold_left (readRow port) rs [].

Definition wrap (msg : string) (e : string) : string := msg +:+ ": " +:+ e.

(** scanNetworkPort: the addresses returned, and the error. *)
Definition scanNetworkPort (z : ZmapScanner) (run : Run) (network : string)
    (port : Z) : list ZmapResult * error :=
  match whitelistCreate run with
  | Some e => ([], Some (wrap "failed to create whitelist file" e))
  | None =>
  match whitelistWrite run with
  | Some e => ([], Some (wrap "failed to write whitelist" e))
  | None =>
  match blacklistCreate run with
  | Some e => ([], Some (wrap "failed to create blacklist file" e))
  | None =>
  match stdoutPipe run with
  | Some e => ([], Some (wrap "failed to get stdout pipe" e))
  | None =>
  match stderrPipe run with
  | Some e => ([], Some (wrap "failed to get stderr pipe" e))
  | None =>
  match cmdStart run with
  | Some e => ([], Some (wrap "failed to start zmap" e))
  | None =>
      let results := readRows port (rows run) in
      match cmdWait run with
      | Some _ =>
          match ctxErr run with
          | Some e => (results, Some e)
          | None =>
              if (Z.of_nat (length results) =? 0)
                 && negb (String.eqb (stderrStr run) "")
              then ([], Some (wrap "zmap failed" (stderrStr run)))
              else (results, None)
          end
      | None => (results, None)
      end
  end end end end end end.

(** The process was started: none of the steps before the read loop failed. *)
Definition started (run : Run) : Prop :=
  whitelistCreate run = None /\ whitelistWrite run = None
  /\ blacklistCreate run = None /\ stdoutPipe run = None
  /\ stderrPipe run = None /\ cmdStart run = None.

(** A run that the context's deadline ends after one address was read. *)
Definition cancelledRun : Run :=
  {| whitelistCreate := None; whitelistWrite := None; blacklistCreate := None;
     stdoutPipe := None; stderrPipe := None; cmdStart := None;
     header := Some (Row ["saddr"]);
     rows := [Row ["10.0.0.5"]];
     stderrStr := "";
     cmdWait := Some "signal: killed";
     ctxErr := Some "context deadline exceeded" |}.

(** A scanner for one network, built with the default rate and timeout. *)
Definition someZmap : ZmapScanner := NewZmapScanner ["10.0.0.0/24"] 0 0.

(** *** ScanPort, ScanPorts and ScanAllPorts of the delegated backend *)

Section Scan.

Variable z : ZmapScanner.

(** What the zmap process started for a (network, port) pair does. *)
Variable runOf : string -> Z -> Run.

(** Whether the context is done when the given (network, port) pairs
    have been scanned. *)
Variable ctxDoneAfter : list (string * Z) -> bool.

Definition ctxError : error := Some "context deadline exceeded".

Record Progress : Type := {
  hostPorts : HostPorts;
  probed : list (string * Z)
}.

Definition start (probed : list (string * Z)) : Progress :=
  {| hostPorts := ∅; probed := probed |}.

(** ScanPort: a network whose scan fails is logged and skipped. *)
Fixpoint scanPortLoop (port : Z) (networks : list string)
    (allResults : list ZmapResult) : list ZmapResult :=
  match networks with
  | [] => allResults
  | network :: rest =>
      match scanNetworkPort z (runOf network port) network port with
      | (_, Some _) => scanPortLoop port rest allResults
      | (results, None) => scanPortLoop port rest (allResults ++ results)
      end
  end.

Definition ScanPort (port : Z) : list ZmapResult * error :=
  (scanPortLoop port (Networks z) [], None).

Fixpoint scanPortsLoop (ports : list Z) (st : Progress) : Progress * error :=
  match ports with
  | [] => (st, None)
  | port :: rest =>
      if ctxDoneAfter (probed st) then (st, ctxError)
      else
        let '(portResults, err) := ScanPort port in
        let probed' := probed st ++ map (fun network => (network, port)) (Networks z) in
        match err with
        | Some _ =>
            scanPortsLoop rest {| hostPorts := hostPorts st; probed := probed' |}
        | None =>
            scanPortsLoop rest
              {| hostPorts := addResults (hostPorts st) portResults;
                 probed := probed' |}
        end
  end.

Definition ScanPorts (ports : list Z) : Progress * error :=
  scanPortsLoop ports (start []).

Definition totalPorts : Z := 65535.
Definition batchSize : Z := 1000.

(** The body of the port loop of scanNetworkAllPorts for one port: [inr]
    when the function returns from inside the loop. *)
Definition scanOnePort (network : string) (port : Z) (st : Progress)
  : Progress + Progress * error :=
  if ctxDoneAfter (probed st) then inr (st, ctxError)
  else
    let probed' := probed st ++ [(network, port)] in
    match scanNetworkPort z (runOf network port) network port with
    | (_, Some _) => inl {| hostPorts := hostPorts st; probed := probed' |}
    | (portResults, None) =>
        inl {| hostPorts := addResults (hostPorts st) portResults;
               probed := probed' |}
    end.

(** for port := batchStart; port <= batchEnd; port++ { ... }, as a loop over
    the ports of the batch. *)
Fixpoint batchLoop (network : string) (ports : list Z) (st : Progress)
  : Progress + Progress * error :=
  match ports with
  | [] => inl st
  | port :: rest =>
      match scanOnePort network port st with
      | inl st' => batchLoop network rest st'
      | inr ret => inr ret
      end
  end.

Definition portRange (batchStart batchEnd : Z) : list Z :=
  seqZ batchStart (batchEnd - batchStart + 1).

Fixpoint allPortsLoop (fuel : nat) (network : string) (batchStart : Z)
    (st : Progress) : option (Progress * error) :=
  match fuel with
  | O => None
  | S fuel' =>
      if batchStart <=? totalPorts then
        let batchEnd := batchStart + batchSize - 1 in
        let batchEnd := if totalPorts <? batchEnd then totalPorts else batchEnd in
        match batchLoop network (portRange batchStart batchEnd) st with
        | inl st' => allPortsLoop fuel' network (batchStart + batchSize) st'
        | inr ret => Some ret
        end
      else Some (st, None)
  end.

(** scanNetworkAllPorts.  Every round adds batchSize to batchStart, so
    totalPorts tests of the condition are more than the loop makes;
    [None] would be a loop that has not ended. *)
Definition scanNetworkAllPorts (network : string) (probedBefore : list (string * Z))
  : option (Progress * error) :=
  allPortsLoop (Z.to_nat totalPorts) network 1 (start probedBefore).

(** ScanAllPorts: a network whose scan returns an error is logged and
    skipped. *)
Fixpoint allNetworksLoop (networks : list string) (st : Progress)
  : option Progress :=
  match networks with
  | [] => Some st
  | network :: rest =>
      match scanNetworkAllPorts network (probed st) with
      | None => None
      | Some (networkResults, Some _) =>
          allNetworksLoop rest
            {| hostPorts := hostPorts st; probed := probed networkResults |}
      | Some (networkResults, None) =>
          allNetworksLoop rest
            {| hostPorts := mergeInto (hostPorts st) (hostPorts networkResults);
               probed := probed networkResults |}
      end
  end.

Definition ScanAllPorts : option (Progress * error) :=
  match allNetworksLoop (Networks z) (start []) with
  | Some st => Some (st, None)
  | None => None
  end.

(** Scanning the ports of a list one by one, with the loop body of
    scanNetworkAllPorts and no batches. *)
Definition scanPortsOneByOne (network : string) (ports : list Z)
    (probedBefore : list (string * Z)) : Progress * error :=
  match batchLoop network ports (start probedBefore) with
  | inl st => (st, None)
  | inr ret => ret
  end.

(** What a network contributes to the result of ScanPort. *)
Definition networkResults (port : Z) (network : string) : list ZmapResult :=
  match scanNetworkPort z (runOf network port) network port with
  | (results, None) => results
  | (_, Some _) => []
  end.

(** The (network, port) pairs that ScanPort probes for a port. *)
Definition pairsOf (port : Z) : list (string * Z) :=
  map (fun network => (network, port)) (Networks z).

(** The number of ports the loop of ScanPorts gets through before it finds
    the context done. *)
Fixpoint handled (ports : list Z) (probed : list (string * Z)) : nat :=
  match ports with
  | [] => 0
  | port :: rest =>
      if ctxDoneAfter probed then 0%nat
      else S (handled rest (probed ++ pairsOf port))
  end.

End Scan.

(** GetModuleForPort *)
Definition GetModuleForPort (port : Z) : string :=
  if port =? 22 then "ssh"
  else if (port =? 80) || (port =? 8080) || (port =? 8000) || (port =? 8888) then "http"
  else if (port =? 443) || (port =? 8443) then "tls"
  else if port =? 21 then "ftp"
  else if (port =? 25) || (port =? 465) || (port =? 587) then "smtp"
  else if port =? 110 then "pop3"
  else if port =? 143 then "imap"
  else if port =? 3306 then "mysql"
  else if port =? 5432 then "postgres"
  else if port =? 6379 then "redis"
  else if port =? 27017 then "mongodb"
  else "banner".

End Zmap.

(** ** The native probe backend (tcp.go) *)

Module Probe.
Import Expander.

(** A configured network: a text that decodes as address/prefix, or one
    that net.ParseCIDR rejects as it stands. *)
Inductive Network : Type :=
| CIDR (a : Net.Addr) (n : Z)
| Unparsable (text : string).

Record TCPScanner : Type := {
  Networks : list Network;
  Rate : Z;               (* concurrent connections *)
  Timeout : Z             (* seconds *)
}.

Definition NewTCPScanner (networks : list Network) (rate timeoutSecs : Z)
  : TCPScanner :=
  let rate := if rate <=? 0 then 100 else rate in
  let timeoutSecs := if timeoutSecs <=? 0 then 5 else timeoutSecs in
  {| Networks := networks; Rate := rate; Timeout := timeoutSecs |}.

Definition expand (fuel : nat) (net : Network) : option (result (list string)) :=
  match net with
  | CIDR a n => expandCIDR fuel a n
  | Unparsable _ => Some (Err "invalid CIDR address")
  end.

(** The first loop of ScanPort: the addresses of all networks; a network
    that does not parse is logged and skipped.  [None] when an expansion
    does not end within [fuel]. *)
Fixpoint collectIPs (fuel : nat) (networks : list Network) (allIPs : list string)
  : option (list string) :=
  match networks with
  | [] => Some allIPs
  | network :: rest =>
      match expand fuel network with
      | None => None
      | Some (Err _) => collectIPs fuel rest allIPs
      | Some (Ok ips) => collectIPs fuel rest (allIPs ++ ips)
      end
  end.

(** What a network contributes to the targets of ScanPort. *)
Definition targetsOf (fuel : nat) (net : Network) : list string :=
  match expand fuel net with
  | Some (Ok ips) => ips
  | _ => []
  end.

(** *** ScanPort: the goroutines and the admission gate *)

(** A goroutine started by ScanPort for one target: it is dialing, or
    DialTimeout has returned (with success or not) and the deferred
    release has not run yet. *)
Inductive Phase : Type :=
| Dialing
| Dialed (ok : bool).

Record Worker : Type := { target : string; phase : Phase }.

(** One call of ScanPort after the targets have been collected.
    - [todo]: the targets the dispatch loop has not reached;
    - [sending]: the target for which the loop has passed the check of the
      context and stands at [sem <- struct{}{}];
    - [sem]: the number of tokens in the channel [sem];
    - [workers]: the goroutines that have not run their deferred release;
    - [results]: the slice guarded by [mu];
    - [ctxDone]: whether the context has been cancelled;
    - [returned]: what ScanPort has returned, once it has. *)
Record PortScan : Type := {
  todo : list string;
  sending : option string;
  sem : nat;
  workers : list Worker;
  results : list ZmapResult;
  ctxDone : bool;
  returned : option (list ZmapResult * error)
}.

Definition ctxError : error := Some "context deadline exceeded".

(** How ScanPort begins: it returns an error when there is nothing to
    scan, make(chan struct{}, t.Rate) panics on a negative size, and
    otherwise the dispatch loop starts with an empty gate. *)
Inductive Begin : Type :=
| NothingToScan (e : error)
| MakeChanPanics
| Dispatching (s : PortScan).

Definition begin (t : TCPScanner) (allIPs : list string) : Begin :=
  if (Z.of_nat (length allIPs) =? 0) then NothingToScan (Some "no valid IPs to scan")
  else if Rate t <? 0 then MakeChanPanics
  else Dispatching {| todo := allIPs; sending := None; sem := 0; workers := [];
                      results := []; ctxDone := false; returned := None |}.

Definition countDialing (ws : list Worker) : nat :=
  length (List.filter (fun w => match phase w with Dialing => true | Dialed _ => false end) ws).

Inductive step (t : TCPScanner) (port : Z) : PortScan -> PortScan -> Prop :=
(* the deadline of the context passes *)
| step_cancel s :
    step t port s
      {| todo := todo s; sending := sending s; sem := sem s; workers := workers s;
         results := results s; ctxDone := true; returned := returned s |}
(* case <-ctx.Done(): return results, ctx.Err() *)
| step_return_cancelled s ip rest :
    returned s = None -> sending s = None -> todo s = ip :: rest ->
    ctxDone s = true ->
    step t port s
      {| todo := todo s; sending := None; sem := sem s; workers := workers s;
         results := results s; ctxDone := ctxDone s;
         returned := Some (results s, ctxError) |}
(* default: the loop goes on to wg.Add(1) and the send *)
| step_check s ip rest :
    returned s = None -> sending s = None -> todo s = ip :: rest ->
    ctxDone s = false ->
    step t port s
      {| todo := rest; sending := Some ip; sem := sem s; workers := workers s;
         results := results s; ctxDone := ctxDone s; returned := returned s |}
(* sem <- struct{}{}; go func(targetIP) {...}(ip): the send goes through
   only while the channel holds fewer than t.Rate tokens *)
| step_dispatch s ip :
    sending s = Some ip -> Z.of_nat (sem s) < Rate t ->
    step t port s
      {| todo := todo s; sending := None; sem := S (sem s);
         workers := workers s ++ [{| target := ip; phase := Dialing |}];
         results := results s; ctxDone := ctxDone s; returned := returned s |}
(* net.DialTimeout returns; on success the result is appended under mu *)
| step_dial s ws1 w ws2 ok :
    workers s = ws1 ++ w :: ws2 -> phase w = Dialing ->
    step t port s
      {| todo := todo s; sending := sending s; sem := sem s;
         workers := ws1 ++ {| target := target w; phase := Dialed ok |} :: ws2;
         results := if ok then results s ++ [{| IP := target w; Port := port |}]
                    else results s;
         ctxDone := ctxDone s; returned := returned s |}
(* the deferred func() { <-sem }() and wg.Done() *)
| step_release s ws1 w ws2 ok n :
    workers s = ws1 ++ w :: ws2 -> phase w = Dialed ok -> sem s = S n ->
    step t port s
      {| todo := todo s; sending := sending s; sem := n; workers := ws1 ++ ws2;
         results := results s; ctxDone := ctxDone s; returned := returned s |}
(* wg.Wait(); return results, nil *)
| step_return s :
    returned s = None -> sending s = None -> todo s = [] -> workers s = [] ->
    step t port s
      {| todo := todo s; sending := None; sem := sem s; workers := workers s;
         results := results s; ctxDone := ctxDone s;
         returned := Some (results s, None) |}.

Inductive reaches (t : TCPScanner) (port : Z) : PortScan -> PortScan -> Prop :=
| reaches_refl s : reaches t port s s
| reaches_step s1 s2 s3 :
    reaches t port s1 s2 -> step t port s2 s3 -> reaches t port s1 s3.

(** Every goroutine that has not released yet holds one token, and the
    channel never holds more than its capacity. *)
Definition gateInvariant (t : TCPScanner) (s : PortScan) : Prop :=
  sem s = length (workers s) /\ Z.of_nat (sem s) <= Rate t.

(** A scanner with two tokens, and the state of a scan of one target in
    which the target's goroutine has been started. *)
Definition twoAtATime : TCPScanner := NewTCPScanner [] 2 1.

Definition oneTarget : PortScan :=
  {| todo := ["10.0.0.1"]; sending := None; sem := 0; workers := [];
     results := []; ctxDone := false; returned := None |}.

Definition oneSending : PortScan :=
  {| todo := []; sending := Some "10.0.0.1"; sem := 0; workers := [];
     results := []; ctxDone := false; returned := None |}.

Definition oneDialing : PortScan :=
  {| todo := []; sending := None; sem := 1;
     workers := [{| target := "10.0.0.1"; phase := Dialing |}];
     results := []; ctxDone := false; returned := None |}.

(** The same scan after the dial has succeeded, after the goroutine has
    released its token, and after ScanPort has returned. *)
Definition oneDialed : PortScan :=
  {| todo := []; sending := None; sem := 1;
     workers := [{| target := "10.0.0.1"; phase := Dialed true |}];
     results := [{| IP := "10.0.0.1"; Port := 80 |}];
     ctxDone := false; returned := None |}.

Definition oneReleased : PortScan :=
  {| todo := []; sending := None; sem := 0; workers := [];
     results := [{| IP := "10.0.0.1"; Port := 80 |}];
     ctxDone := false; returned := None |}.

Definition oneReturned : PortScan :=
  {| todo := []; sending := None; sem := 0; workers := [];
     results := [{| IP := "10.0.0.1"; Port := 80 |}];
     ctxDone := false;
     returned := Some ([{| IP := "10.0.0.1"; Port := 80 |}], None) |}.

(** The targets of the goroutines that are still dialing. *)
Definition dialingTargets (ws : list Worker) : list string :=
  flat_map (fun w => match phase w with Dialing => [target w] | Dialed _ => [] end) ws.

(** The target at the send, if the dispatch loop stands there. *)
Definition atSend (s : PortScan) : list string :=
  match sending s with Some ip => [ip] | None => [] end.

(** What ScanPort has reported, may still report or has returned lies
    within the targets that the dispatch loop has passed, each with the
    port of the scan. *)
Definition accounted (port : Z) (allIPs : list string) (s : PortScan) : Prop :=
  exists passed,
    allIPs = passed ++ atSend s ++ todo s
    /\ Forall (fun r => Port r = port) (results s)
    /\ map IP (results s) ++ dialingTargets (workers s) ⊆+ passed
    /\ (forall r e, returned s = Some (r, e) ->
          Forall (fun x => Port x = port) r /\ map IP r ⊆+ passed).

(** Once ScanPort has returned without error, nothing is left to do. *)
Definition settled (s : PortScan) : Prop :=
  forall r, returned s = Some (r, None) ->
    todo s = [] /\ sending s = None /\ workers s = [] /\ r = results s.

(** *** ScanPorts and ScanAllPorts *)

Section Scan.

(** What ScanPort returns for a port in this run. *)
Variable ScanPort : Z -> list ZmapResult * error.

(** Whether the context is done when the ports of the given list have been
    scanned. *)
Variable ctxDoneAfter : list Z -> bool.

(** The state of a scan: the map of results, the ports handed to ScanPort
    so far (in order), and the calls of the callback so far. *)
Record Progress : Type := {
  hostPorts : HostPorts;
  probed : list Z;
  calls : list (Z * list ZmapResult)
}.

Definition start (probed : list Z) : Progress :=
  {| hostPorts := ∅; probed := probed; calls := [] |}.

(** ScanPortsWithCallback; [callback] tells whether a callback was given.
    The loop over [ports], from the state [st]. *)
Fixpoint scanPortsLoop (callback : bool) (ports : list Z) (st : Progress)
  : Progress * error :=
  match ports with
  | [] => (st, None)
  | port :: rest =>
      if ctxDoneAfter (probed st) then (st, ctxError)
      else
        let '(portResults, err) := ScanPort port in
        let probed' := probed st ++ [port] in
        match err with
        | Some _ =>
            scanPortsLoop callback rest
              {| hostPorts := hostPorts st; probed := probed'; calls := calls st |}
        | None =>
            scanPortsLoop callback rest
              {| hostPorts := addResults (hostPorts st) portResults;
                 probed := probed';
                 calls := if callback && (0 <? Z.of_nat (length portResults))
                          then calls st ++ [(port, portResults)] else calls st |}
        end
  end.

Definition ScanPortsWithCallback (callback : bool) (ports : list Z)
    (probedBefore : list Z) : Progress * error :=
  scanPortsLoop callback ports (start probedBefore).

Definition ScanPorts (ports : list Z) (probedBefore : list Z) : Progress * error :=
  ScanPortsWithCallback false ports probedBefore.

Definition totalPorts : Z := 65535.
Definition batchSize : Z := 1000.

(** for port := batchStart; port <= batchEnd; port++ { append } *)
Definition portRange (batchStart batchEnd : Z) : list Z :=
  seqZ batchStart (batchEnd - batchStart + 1).

(** The batch loop of ScanAllPorts from [batchStart]; [fuel] bounds the
    number of tests of its condition, [None] when they do not suffice. *)
Fixpoint allPortsLoop (fuel : nat) (batchStart : Z) (st : Progress)
  : option Progress :=
  match fuel with
  | O => None
  | S fuel' =>
      if batchStart <=? totalPorts then
        let batchEnd := batchStart + batchSize - 1 in
        let batchEnd := if totalPorts <? batchEnd then totalPorts else batchEnd in
        let batchPorts := portRange batchStart batchEnd in
        let '(batch, err) := ScanPorts batchPorts (probed st) in
        match err with
        | Some _ =>
            allPortsLoop fuel' (batchStart + batchSize)
              {| hostPorts := hostPorts st; probed := probed batch; calls := calls st |}
        | None =>
            allPortsLoop fuel' (batchStart + batchSize)
              {| hostPorts := mergeInto (hostPorts st) (hostPorts batch);
                 probed := probed batch; calls := calls st |}
        end
      else Some st
  end.

(** ScanAllPorts.  Every round adds batchSize to batchStart, so totalPorts
    tests of the condition are more than the loop makes. *)
Definition ScanAllPorts : option (Progress * error) :=
  match allPortsLoop (Z.to_nat totalPorts) 1 (start []) with
  | Some st => Some (st, None)
  | None => None
  end.

(** The map a scan of [ports] builds from nothing. *)
Definition found (ports : list Z) : HostPorts :=
  hostPorts (fst (ScanPorts ports [])).

(** The number of ports the loop of ScanPortsWithCallback gets through
    before it finds the context done. *)
Fixpoint handled (ports : list Z) (probed : list Z) : nat :=
  match ports with
  | [] => 0
  | port :: rest =>
      if ctxDoneAfter probed then 0%nat else S (handled rest (probed ++ [port]))
  end.

(** The call of the callback that a port gives rise to, if any. *)
Definition callOf (port : Z) : list (Z * list ZmapResult) :=
  match ScanPort port with
  | (portResults, None) =>
      if 0 <? Z.of_nat (length portResults) then [(port, portResults)] else []
  | (_, Some _) => []
  end.

(** The ports that the results of one port list for [ip], and the ports
    that a scan of [ports] lists for it, in the order of the scan. *)
Definition portsAt (ip : string) (portResults : list ZmapResult) : list Z :=
  map Port (filter (fun r => IP r = ip) portResults).

Definition openPorts (ports : list Z) (ip : string) : list Z :=
  flat_map (fun port =>
              match ScanPort port with
              | (portResults, None) => portsAt ip portResults
              | (_, Some _) => []
              end) ports.

End Scan.

(** A port on which nothing answers. *)
Definition silentPort (port : Z) : list ZmapResult * error := ([], None).

End Probe.

(** ** The native fingerprint strategy (fingerprint.go) *)

Module Fingerprint.
Import Strings Banner.

(** An interface{} value stored in fingerprint_data. *)
#[warnings="-register-all"] Inductive JVal : Type :=
| JString (s : string)
| JInt (n : Z)
| JBool (b : bool)
| JStrings (l : list string)
| JObject (m : gmap string JVal).

(** ServiceInfo.  A nil Fingerprint map is [None]. *)
Record ServiceInfo : Type := {
  ServiceName : string;
  ServiceVersion : string;
  Banner : string;
  Fingerprint : option (gmap string JVal)
}.

(** var info ServiceInfo *)
Definition zeroInfo : ServiceInfo :=
  {| ServiceName := ""; ServiceVersion := ""; Banner := ""; Fingerprint := None |}.

Definition withName (name : string) (info : ServiceInfo) : ServiceInfo :=
  {| ServiceName := name; ServiceVersion := ServiceVersion info;
     Banner := Banner info; Fingerprint := Fingerprint info |}.
Definition withVersion (v : string) (info : ServiceInfo) : ServiceInfo :=
  {| ServiceName := ServiceName info; ServiceVersion := v;
     Banner := Banner info; Fingerprint := Fingerprint info |}.
Definition withBanner (b : string) (info : ServiceInfo) : ServiceInfo :=
  {| ServiceName := ServiceName info; ServiceVersion := ServiceVersion info;
     Banner := b; Fingerprint := Fingerprint info |}.
Definition withFingerprint (fp : option (gmap string JVal)) (info : ServiceInfo)
  : ServiceInfo :=
  {| ServiceName := ServiceName info; ServiceVersion := ServiceVersion info;
     Banner := Banner info; Fingerprint := fp |}.

(** info.Fingerprint[key] = v, on a map that has been made. *)
Definition setFingerprint (key : string) (v : JVal) (info : ServiceInfo)
  : ServiceInfo :=
  withFingerprint (Some (<[key := v]> (default ∅ (Fingerprint info)))) info.

(** *** Connections *)

(** How a read ends when the peer has nothing more to send: the peer has
    closed the connection (io.EOF), or the deadline passes. *)
Inductive ReadEnd : Type :=
| EOF
| DeadlineExceeded.

(** An established connection, seen from the prober: the chunks of bytes
    that successive reads will find, and how reading ends after them. *)
Record Conn : Type := { incoming : list string; ending : ReadEnd }.

(** n, _ := conn.Read(buf) with len(buf) = [size]: the bytes read and the
    connection afterwards. *)
Definition connRead (size : Z) (c : Conn) : string * Conn :=
  match incoming c with
  | [] => ("", c)
  | chunk :: rest =>
      if len chunk <=? size then (chunk, {| incoming := rest; ending := ending c |})
      else
        let n := Z.to_nat size in
        (of_bytes (firstn n (bytes chunk)),
         {| incoming := of_bytes (skipn n (bytes chunk)) :: rest;
            ending := ending c |})
  end.

(** The bytes before and after the first occurrence of [c]. *)
Fixpoint cutByte (c : ascii) (l : list ascii) : option (list ascii * list ascii) :=
  match l with
  | [] => None
  | x :: l' =>
      if Ascii.eqb x c then Some ([], l')
      else match cutByte c l' with
           | Some (a, b) => Some (x :: a, b)
           | None => None
           end
  end.

Definition newline : ascii := ascii_of_N 10.

(** bufio.NewReader(conn).ReadString('\n'): the bytes up to and including
    the first newline, or everything the peer sends together with the
    error that ends the reading. *)
Definition readLine (c : Conn) : string * option ReadEnd :=
  let all := bytes (String.concat "" (incoming c)) in
  match cutByte newline all with
  | Some (line, _) => (of_bytes (line ++ [newline]), None)
  | None => (of_bytes all, Some (ending c))
  end.

(** *** The world outside the prober *)

Record World : Type := {
  (* net.DialTimeout("tcp", address, timeout), or tls.DialWithDialer when
     the first argument is true; None is a dial error *)
  dial : bool -> string -> Z -> option Conn;
  (* regexp.MustCompile(pattern).FindStringSubmatch(s); [] is nil *)
  FindStringSubmatch : string -> string -> list string
}.

Record Fingerprinter : Type := { Timeout : Z; MaxBanner : Z }.

Definition NewFingerprinter : Fingerprinter :=
  {| Timeout := 5; MaxBanner := 1024 |}.

(** fmt.Sprintf("%s:%d", ip, port) *)
Definition address (ip : string) (port : Z) : string :=
  ip +:+ ":" +:+ pretty port.

(** More of package strings. *)

(** strings.SplitN(s, sep, n) for a one-byte separator and n > 0. *)
Fixpoint splitN (sep : ascii) (n : nat) (l : list ascii) : list (list ascii) :=
  match n with
  | O => []
  | S O => [l]
  | S n' =>
      match cutByte sep l with
      | Some (a, b) => a :: splitN sep n' b
      | None => [l]
      end
  end.

Definition SplitN (s : string) (sep : ascii) (n : nat) : list string :=
  map of_bytes (splitN sep n (bytes s)).

(** strings.Split(s, sep) for a one-byte separator. *)
Definition Split (s : string) (sep : ascii) : list string :=
  SplitN s sep (S (String.length s)).

(** strings.TrimPrefix *)
Definition TrimPrefix (s p : string) : string :=
  if HasPrefix s p
  then String.substring (String.length p) (String.length s - String.length p) s
  else s.

(** strings.Index; -1 when [sub] does not occur. *)
Fixpoint indexFrom (i : Z) (l : list ascii) (sub : string) : Z :=
  if String.prefix sub (of_bytes l) then i
  else match l with
       | [] => -1
       | _ :: l' => indexFrom (i + 1) l' sub
       end.
Definition Index (s sub : string) : Z := indexFrom 0 (bytes s) sub.

(** s[i:j] and s[i:] *)
Definition slice (s : string) (i j : Z) : string :=
  String.substring (Z.to_nat i) (Z.to_nat (j - i)) s.
Definition sliceFrom (s : string) (i : Z) : string :=
  String.substring (Z.to_nat i) (String.length s - Z.to_nat i) s.

(** *** Protocol probes *)

Section Probes.

Variable w : World.
Variable f : Fingerprinter.

(** if matches := re.FindStringSubmatch(s); len(matches) > 1 { ... matches[1] } *)
Definition submatch (pattern s : string) : option string :=
  match FindStringSubmatch w pattern s with
  | _ :: m1 :: _ => Some m1
  | _ => None
  end.

(** extractVersion *)
Definition extractVersion (banner : string) : string :=
  match submatch "(\d+\.\d+(?:\.\d+)?(?:[.-]\w+)?)" banner with
  | Some v => v
  | None =>
      match submatch "v(\d+\.\d+(?:\.\d+)?)" banner with
      | Some v => v
      | None => ""
      end
  end.

(** A probe that reads once into a buffer of MaxBanner bytes and keeps the
    sanitized bytes as the banner. *)
Definition readBanner (c : Conn) (info : ServiceInfo) : ServiceInfo :=
  let '(data, _) := connRead (MaxBanner f) c in
  if 0 <? len data then withBanner (sanitizeBanner data) info else info.

Definition probeGeneric (ip : string) (port : Z) : ServiceInfo :=
  let info := zeroInfo in
  match dial w false (address ip port) (Timeout f) with
  | None => info
  | Some conn => readBanner conn info
  end.

Definition probeSSH (ip : string) (port : Z) : ServiceInfo :=
  let info := withName "ssh" zeroInfo in
  match dial w false (address ip port) (Timeout f) with
  | None => info
  | Some conn =>
      match readLine conn with
      | (_, Some DeadlineExceeded) => info
      | (banner, _) =>
          let info := withBanner (sanitizeBanner banner) info in
          if HasPrefix banner "SSH-" then
            match SplitN banner "-"%char 3 with
            | _ :: _ :: p2 :: _ => withVersion (TrimSpace p2) info
            | _ => info
            end
          else info
      end
  end.

Definition probeHTTP (ip : string) (port : Z) (useTLS : bool) : ServiceInfo :=
  let info := withName (if useTLS then "https" else "http") zeroInfo in
  match dial w useTLS (address ip port) (Timeout f) with
  | None => info
  | Some conn =>
      let '(response, _) := connRead (MaxBanner f) conn in
      if 0 <? len response then
        let info := withBanner (sanitizeBanner response) info in
        let info :=
          match submatch "(?i)Server:\s*([^\r\n]+)" response with
          | Some m => withVersion (TrimSpace m) info
          | None => info
          end in
        let info := withFingerprint (Some ∅) info in
        let info :=
          match submatch "HTTP/[\d.]+\s+(\d+)" response with
          | Some m => setFingerprint "status_code" (JString m) info
          | None => info
          end in
        match submatch "(?i)<title>([^<]+)</title>" response with
        | Some m => setFingerprint "title" (JString (TrimSpace m)) info
        | None => info
        end
      else info
  end.

(** probeFTP and probeSMTP: a line is read, and a version is looked for in
    a greeting that starts with 220. *)
Definition probeGreeting (name : string) (ip : string) (port : Z) : ServiceInfo :=
  let info := withName name zeroInfo in
  match dial w false (address ip port) (Timeout f) with
  | None => info
  | Some conn =>
      let '(banner, _) := readLine conn in
      let info := withBanner (sanitizeBanner banner) info in
      if HasPrefix banner "220" then withVersion (extractVersion banner) info
      else info
  end.

Definition probeFTP (ip : string) (port : Z) : ServiceInfo :=
  probeGreeting "ftp" ip port.

Definition probeSMTP (ip : string) (port : Z) : ServiceInfo :=
  probeGreeting "smtp" ip port.

Definition probeTelnet (ip : string) (port : Z) : ServiceInfo :=
  let info := withName "telnet" zeroInfo in
  match dial w false (address ip port) (Timeout f) with
  | None => info
  | Some conn => readBanner conn info
  end.

(** probePOP3 and probeIMAP: a line is read and kept as the banner. *)
Definition probeLine (name : string) (ip : string) (port : Z) : ServiceInfo :=
  let info := withName name zeroInfo in
  match dial w false (address ip port) (Timeout f) with
  | None => info
  | Some conn =>
      let '(banner, _) := readLine conn in
      withBanner (sanitizeBanner banner) info
  end.

Definition probePOP3 (ip : string) (port : Z) : ServiceInfo :=
  probeLine "pop3" ip port.

Definition probeIMAP (ip : string) (port : Z) : ServiceInfo :=
  probeLine "imap" ip port.

(** for end < n && buf[end] != 0 { end++ }, from the sixth byte on. *)
Fixpoint untilNul (l : list ascii) : list ascii :=
  match l with
  | [] => []
  | x :: l' => if (code x =? 0)%N then [] else x :: untilNul l'
  end.

Definition probeMySQL (ip : string) (port : Z) : ServiceInfo :=
  let info := withName "mysql" zeroInfo in
  match dial w false (address ip port) (Timeout f) with
  | None => info
  | Some conn =>
      let '(data, _) := connRead (MaxBanner f) conn in
      if (0 <? len data) && (5 <? len data) then
        let version := of_bytes (untilNul (skipn 5 (bytes data))) in
        if 0 <? len version
        then withBanner ("MySQL " +:+ version) (withVersion version info)
        else info
      else info
  end.

Definition probePostgreSQL (ip : string) (port : Z) : ServiceInfo :=
  let info := withName "postgresql" zeroInfo in
  match dial w false (address ip port) (Timeout f) with
  | None => info
  | Some conn =>
      let '(data, _) := connRead 1 conn in
      if 0 <? len data then
        if String.eqb data "N" then withBanner "PostgreSQL (SSL not supported)" info
        else if String.eqb data "S" then withBanner "PostgreSQL (SSL supported)" info
        else info
      else info
  end.

Definition probeRedis (ip : string) (port : Z) : ServiceInfo :=
  let info := withName "redis" zeroInfo in
  match dial w false (address ip port) (Timeout f) with
  | None => info
  | Some conn =>
      let '(response, conn) := connRead (MaxBanner f) conn in
      if 0 <? len response then
        let info :=
          if Contains response "PONG" then withBanner "Redis server" info
          else if Contains response "NOAUTH"
          then withBanner "Redis server (authentication required)" info
          else info in
        let '(infoResp, _) := connRead (MaxBanner f) conn in
        if 0 <? len infoResp then
          match submatch "redis_version:(\S+)" infoResp with
          | Some m => withVersion m info
          | None => info
          end
        else info
      else info
  end.

Definition probeMongoDB (ip : string) (port : Z) : ServiceInfo :=
  let info := withName "mongodb" zeroInfo in
  match dial w false (address ip port) (Timeout f) with
  | None => info
  | Some conn =>
      let '(data, _) := connRead (MaxBanner f) conn in
      if 0 <? len data then withBanner (sanitizeBanner data) info
      else withBanner "MongoDB" info
  end.

End Probes.

(** guessServiceFromBanner *)
Definition guessServiceFromBanner (banner : string) (port : Z) : string :=
  let lower := ToLower banner in
  if Contains lower "ssh" then "ssh"
  else if Contains lower "ftp" then "ftp"
  else if Contains lower "smtp" || Contains lower "mail" then "smtp"
  else if Contains lower "http" then "http"
  else if Contains lower "mysql" then "mysql"
  else if Contains lower "postgresql" || Contains lower "postgres" then "postgresql"
  else if Contains lower "redis" then "redis"
  else if Contains lower "mongodb" || Contains lower "mongo" then "mongodb"
  else if Contains lower "imap" then "imap"
  else if Contains lower "pop" then "pop3"
  else if Contains lower "telnet" then "telnet"
  else "".

(** The table of getDefaultServiceName. *)
Definition services : gmap Z string :=
  list_to_map
    [(21, "ftp"); (22, "ssh"); (23, "telnet"); (25, "smtp"); (53, "dns");
     (80, "http"); (110, "pop3"); (143, "imap"); (443, "https"); (445, "smb");
     (465, "smtps"); (587, "submission"); (993, "imaps"); (995, "pop3s");
     (1433, "mssql"); (1521, "oracle"); (3306, "mysql"); (3389, "rdp");
     (5432, "postgresql"); (5900, "vnc"); (6379, "redis"); (8080, "http-proxy");
     (8443, "https-alt"); (27017, "mongodb")].

Definition getDefaultServiceName (port : Z) : string :=
  match services !! port with
  | Some name => name
  | None => "unknown"
  end.

(** The switch of fingerprintPort. *)
Definition probeFor (w : World) (f : Fingerprinter) (ip : string) (port : Z)
  : ServiceInfo :=
  if port =? 21 then probeFTP w f ip port
  else if port =? 22 then probeSSH w f ip port
  else if port =? 23 then probeTelnet w f ip port
  else if (port =? 25) || (port =? 465) || (port =? 587) then probeSMTP w f ip port
  else if (port =? 80) || (port =? 8080) || (port =? 8000) || (port =? 8888)
  then probeHTTP w f ip port false
  else if (port =? 443) || (port =? 8443) then probeHTTP w f ip port true
  else if port =? 110 then probePOP3 w f ip port
  else if port =? 143 then probeIMAP w f ip port
  else if port =? 3306 then probeMySQL w f ip port
  else if port =? 5432 then probePostgreSQL w f ip port
  else if port =? 6379 then probeRedis w f ip port
  else if port =? 27017 then probeMongoDB w f ip port
  else probeGeneric w f ip port.

(** Fingerprinter.fingerprintPort *)
Definition fingerprintPort (w : World) (f : Fingerprinter) (ip : string) (port : Z)
  : ServiceInfo :=
  let info := probeFor w f ip port in
  let info :=
    if String.eqb (ServiceName info) "" && negb (String.eqb (Banner info) "")
    then withName (guessServiceFromBanner (Banner info) port) info else info in
  if String.eqb (ServiceName info) ""
  then withName (getDefaultServiceName port) info else info.

(** The loop of FingerprintHost over [ports]; [ctxDoneAfter] tells whether
    the context is done when the ports of the given list have been
    fingerprinted.  [fingerprint] is the fingerprintPort of the strategy. *)
Fixpoint hostLoop (fingerprint : Z -> ServiceInfo) (ctxDoneAfter : list Z -> bool)
    (ports : list Z) (seen : list Z) (results : gmap Z ServiceInfo)
  : gmap Z ServiceInfo :=
  match ports with
  | [] => results
  | port :: rest =>
      if ctxDoneAfter seen then results
      else hostLoop fingerprint ctxDoneAfter rest (seen ++ [port])
             (<[port := fingerprint port]> results)
  end.

(** Fingerprinter.FingerprintHost *)
Definition FingerprintHost (w : World) (f : Fingerprinter)
    (ctxDoneAfter : list Z -> bool) (ip : string) (ports : list Z)
  : gmap Z ServiceInfo :=
  hostLoop (fingerprintPort w f ip) ctxDoneAfter ports [] ∅.

(** results[port] = fingerprint(port) for the ports of a list, in order. *)
Definition record (fingerprint : Z -> ServiceInfo) (ports : list Z)
    (results : gmap Z ServiceInfo) : gmap Z ServiceInfo :=
  fold_left (fun m port => <[port := fingerprint port]> m) ports results.


(** The service name a probe sets before it dials: the name that the
    switch of fingerprintPort associates with the port, empty for the
    generic probe. *)
Definition presetName (port : Z) : string :=
  if port =? 21 then "ftp"
  else if port =? 22 then "ssh"
  else if port =? 23 then "telnet"
  else if (port =? 25) || (port =? 465) || (port =? 587) then "smtp"
  else if (port =? 80) || (port =? 8080) || (port =? 8000) || (port =? 8888) then "http"
  else if (port =? 443) || (port =? 8443) then "https"
  else if port =? 110 then "pop3"
  else if port =? 143 then "imap"
  else if port =? 3306 then "mysql"
  else if port =? 5432 then "postgresql"
  else if port =? 6379 then "redis"
  else if port =? 27017 then "mongodb"
  else "".

(** The ports whose probe presets a name that differs from the entry of
    the default table (or for which the table has no entry). *)
Definition renamedPorts : list Z := [465; 587; 8000; 8080; 8443; 8888].

(** A world in which nothing can be reached. *)
Definition unreachable : World :=
  {| dial := fun _ _ _ => None; FindStringSubmatch := fun _ _ => [] |}.

(** A world with one listener, at 10.0.0.1:22, that greets with an SSH
    identification line and closes. *)
Definition crlf : string := String (ascii_of_N 13) (String (ascii_of_N 10) "").

Definition sshListener : World :=
  {| dial := fun useTLS addr _ =>
       if negb useTLS && String.eqb addr "10.0.0.1:22"
       then Some {| incoming := ["SSH-2.0-OpenSSH_9.0" +:+ crlf]; ending := EOF |}
       else None;
     FindStringSubmatch := fun _ _ => [] |}.

(** A world with one listener, at 10.0.0.1:3306, that sends a MySQL
    handshake packet: four bytes of header, the protocol version 10, the
    server version and a NUL byte, and more. *)
Definition nul : ascii := ascii_of_N 0.

Definition mysqlGreeting : string :=
  of_bytes (map ascii_of_N [74; 0; 0; 0; 10]%N) +:+ "8.0.36" +:+ String nul "rest".

Definition mysqlListener : World :=
  {| dial := fun useTLS addr _ =>
       if negb useTLS && String.eqb addr "10.0.0.1:3306"
       then Some {| incoming := [mysqlGreeting]; ending := EOF |}
       else None;
     FindStringSubmatch := fun _ _ => [] |}.

End Fingerprint.

(** ** The delegated fingerprint strategy (zgrab.go) *)

Module Zgrab.
Import Strings Banner Fingerprint.

(** *** The decoded output of zgrab2 *)

Record ZgrabModule : Type := {
  Status : string;
  Protocol : string;
  Timestamp : string;
  Result : string;             (* json.RawMessage *)
  Error : string
}.

(** ZgrabResult.  Every module named in [Data] is present as an object. *)
Record ZgrabResult : Type := {
  zr_IP : string;
  zr_Domain : string;
  Data : gmap string ZgrabModule
}.

Record DistinguishedName : Type := {
  CommonName : list string;
  Organization : list string;
  OrganizationalUnit : list string;
  Country : list string
}.

Record SubjectAltNames : Type := { DNSNames : list string; IPAddrs : list string }.

Record ParsedCert : Type := {
  Subject : option DistinguishedName;
  Issuer : option DistinguishedName;
  SerialNumber : string;
  ValidityNotBefore : string;
  ValidityNotAfter : string;
  SignatureAlgorithm : string;
  SubjectAltName : option SubjectAltNames
}.

Record Certificate : Type := { Raw : string; Parsed : option ParsedCert }.

Record ServerCertificates : Type := {
  Certificate_ : option Certificate;
  Chain : option (list Certificate)     (* None is a nil slice *)
}.

Record ServerHello : Type := { Version : Z; CipherSuite : Z }.

Record HandshakeLog : Type := {
  ServerCertificates_ : option ServerCertificates;
  ServerHello_ : option ServerHello
}.

Record TLSLog : Type := { HandshakeLog_ : option HandshakeLog }.

Record HTTPResponse : Type := {
  StatusCode : Z;
  StatusLine : string;
  Headers : option (gmap string string);
  Body : string
}.

Record HTTPResult : Type := { Response : option HTTPResponse }.

Record SMTPResult : Type := {
  smtp_Banner : string;
  smtp_EHLO : string;
  smtp_HELO : string;
  smtp_StartTLS : string;
  smtp_TLS : option TLSLog
}.

Record FTPResult : Type := {
  ftp_Banner : string;
  ftp_AuthTLS : string;
  ftp_TLS : option TLSLog
}.

Record SSHServerID : Type := {
  ssh_Raw : string;
  ssh_Version : string;
  ssh_SoftwareVersion : string;
  ssh_Comment : string
}.

Record SSHResult : Type := {
  ServerID : option SSHServerID;
  AlgorithmSelection : option (gmap string JVal)
}.

Record MySQLResult : Type := {
  ProtocolVersion : Z;
  ServerVersion : string;
  ConnectionID : Z;
  AuthPluginName : string;
  mysql_TLS : option TLSLog
}.

Record PostgresResult : Type := {
  SupportedVersions : string;
  ProtocolError : string;
  StartupError : string;
  IsSSL : bool;
  pg_TLS : option TLSLog
}.

Record RedisResult : Type := {
  Ping : string;
  Info : string;
  AuthRequired : bool
}.

(** IMAPResult and POP3Result have the same fields. *)
Record MailboxResult : Type := {
  mb_Banner : string;
  mb_StartTLS : string;
  mb_TLS : option TLSLog
}.

Record TelnetResult : Type := { telnet_Banner : string }.

(** What cmd.Run() of zgrab2 gives: an error (with the bytes on stderr), or
    the bytes on stdout of a run that exited with status 0. *)
Inductive Exec : Type :=
| ExecError (err stderr : string)
| ExecOutput (stdout : string).

(** The world outside the delegated strategy: the world of the native
    prober, the zgrab2 process, and encoding/json ([None] is a decoding
    error). *)
Record Tools : Type := {
  world : World;
  (* exec.CommandContext(ctx, "zgrab2", args...) with ip + "\n" on stdin,
     under a timeout in seconds *)
  zgrab2 : string -> list string -> Z -> Exec;
  jsonZgrabResult : string -> option ZgrabResult;
  jsonHTTP : string -> option HTTPResult;
  jsonSMTP : string -> option SMTPResult;
  jsonFTP : string -> option FTPResult;
  jsonSSH : string -> option SSHResult;
  jsonMySQL : string -> option MySQLResult;
  jsonPostgres : string -> option PostgresResult;
  jsonRedis : string -> option RedisResult;
  jsonIMAP : string -> option MailboxResult;
  jsonPOP3 : string -> option MailboxResult;
  jsonTelnet : string -> option TelnetResult;
  jsonObject : string -> option (gmap string JVal)
}.

Record ZgrabFingerprinter : Type := {
  zTimeout : Z;
  zMaxBanner : Z;
  Fallback : Fingerprinter
}.

Definition NewZgrabFingerprinter : ZgrabFingerprinter :=
  {| zTimeout := 10; zMaxBanner := 4096; Fallback := NewFingerprinter |}.

(** getZgrabModule *)
Definition getZgrabModule (port : Z) : string :=
  if port =? 21 then "ftp"
  else if port =? 22 then "ssh"
  else if port =? 23 then "telnet"
  else if (port =? 25) || (port =? 465) || (port =? 587) then "smtp"
  else if (port =? 80) || (port =? 8080) || (port =? 8000) || (port =? 8888) then "http"
  else if (port =? 110) || (port =? 995) then "pop3"
  else if (port =? 143) || (port =? 993) then "imap"
  else if (port =? 443) || (port =? 8443) then "http"
  else if port =? 3306 then "mysql"
  else if port =? 5432 then "postgres"
  else if port =? 6379 then "redis"
  else if port =? 27017 then "mongodb"
  else "banner".

(** The arguments of the zgrab2 command. *)
Definition zgrabArgs (module : string) (port : Z) : list string :=
  let args := [module; "-p"; pretty port] in
  if String.eqb module "http" then
    (if (port =? 443) || (port =? 8443) then args ++ ["--use-https"] else args)
      ++ ["--max-redirects"; "3"]
  else if String.eqb module "smtp" then
    (args ++ ["--send-ehlo"; "--ehlo-domain"; "scanner.local"])
      ++ (if port =? 465 then ["--smtps"] else ["--starttls"])
  else if String.eqb module "ftp" then args ++ ["--authtls"]
  else if String.eqb module "imap" then
    args ++ (if port =? 993 then ["--imaps"] else ["--starttls"])
  else if String.eqb module "pop3" then
    args ++ (if port =? 995 then ["--pop3s"] else ["--starttls"])
  else if String.eqb module "banner" then
    args ++ ["--probe"; "\x00"; "--max-read-size"; "4096"]
  else args.

(** runZgrab: the decoded result, or the error. *)
Definition runZgrab (t : Tools) (z : ZgrabFingerprinter) (ip : string)
    (args : list string) : ZgrabResult + string :=
  match zgrab2 t ip args (zTimeout z) with
  | ExecError err stderr =>
      inr ("zgrab2 error: " +:+ err +:+ ", stderr: " +:+ stderr)
  | ExecOutput stdout =>
      match jsonZgrabResult t stdout with
      | None => inr "failed to parse zgrab2 output"
      | Some result => inl result
      end
  end.

(** extractTitle *)
Definition extractTitle (html : string) : string :=
  let lower := ToLower html in
  let start := Index lower "<title>" in
  if start =? -1 then ""
  else
    let start := start + 7 in
    let end_ := Index (sliceFrom lower start) "</title>" in
    if end_ =? -1 then ""
    else TrimSpace (slice html start (start + end_)).

Definition byteAt (s : string) (i : nat) : N :=
  match String.get i s with
  | Some c => code c
  | None => 0%N
  end.

(** parseEHLOCapabilities *)
Definition ehloCapability (line : string) : list string :=
  let line := TrimSpace line in
  if (4 <? len line) && ((byteAt line 3 =? 45)%N || (byteAt line 3 =? 32)%N) then
    let cap := TrimSpace (sliceFrom line 4) in
    if negb (String.eqb cap "") && negb (HasPrefix (ToLower cap) "250")
    then [cap] else []
  else [].

Definition parseEHLOCapabilities (ehlo : string) : list string :=
  flat_map ehloCapability (Split ehlo newline).

(** extractRedisVersion *)
Fixpoint firstRedisVersion (lines : list string) : string :=
  match lines with
  | [] => ""
  | line :: rest =>
      if HasPrefix line "redis_version:" then TrimPrefix line "redis_version:"
      else firstRedisVersion rest
  end.

Definition extractRedisVersion (info : string) : string :=
  firstRedisVersion (Split info newline).

Definition setIf (cond : bool) (key : string) (v : JVal) (m : gmap string JVal)
  : gmap string JVal :=
  if cond then <[key := v]> m else m.

(** The certInfo map of extractTLSInfo. *)
Definition certInfo (p : ParsedCert) : gmap string JVal :=
  let m : gmap string JVal := ∅ in
  let m :=
    match Subject p with
    | Some dn => match CommonName dn with
                 | cn :: _ => <["subject_cn" := JString cn]> m
                 | [] => m
                 end
    | None => m
    end in
  let m :=
    match Issuer p with
    | Some dn => match CommonName dn with
                 | cn :: _ => <["issuer_cn" := JString cn]> m
                 | [] => m
                 end
    | None => m
    end in
  let m := setIf (negb (String.eqb (ValidityNotBefore p) "")) "valid_from"
             (JString (ValidityNotBefore p)) m in
  let m := setIf (negb (String.eqb (ValidityNotAfter p) "")) "valid_until"
             (JString (ValidityNotAfter p)) m in
  let m :=
    match SubjectAltName p with
    | Some san => setIf (0 <? Z.of_nat (length (DNSNames san))) "san_dns"
                    (JStrings (DNSNames san)) m
    | None => m
    end in
  setIf (negb (String.eqb (SignatureAlgorithm p) "")) "signature_algorithm"
    (JString (SignatureAlgorithm p)) m.

(** The tlsInfo map of extractTLSInfo. *)
Definition tlsInfo (hl : HandshakeLog) : gmap string JVal :=
  let m : gmap string JVal := ∅ in
  let m :=
    match ServerHello_ hl with
    | Some sh => <["cipher_suite" := JInt (CipherSuite sh)]>
                   (<["version" := JInt (Version sh)]> m)
    | None => m
    end in
  match ServerCertificates_ hl with
  | Some sc =>
      match Certificate_ sc with
      | Some cert =>
          let m :=
            match Parsed cert with
            | Some p => <["certificate" := JObject (certInfo p)]> m
            | None => m
            end in
          match Chain sc with
          | Some chain => <["chain_length" := JInt (Z.of_nat (length chain))]> m
          | None => m
          end
      | None => m
      end
  | None => m
  end.

(** extractTLSInfo *)
Definition extractTLSInfo (info : ServiceInfo) (tls : option TLSLog) : ServiceInfo :=
  match tls with
  | None => info
  | Some log =>
      match HandshakeLog_ log with
      | None => info
      | Some hl =>
          let m := tlsInfo hl in
          if 0 <? Z.of_nat (size m) then setFingerprint "tls" (JObject m) info
          else info
      end
  end.

Definition setFingerprintIf (cond : bool) (key : string) (v : JVal)
    (info : ServiceInfo) : ServiceInfo :=
  if cond then setFingerprint key v info else info.

Definition nonEmpty (s : string) : bool := negb (String.eqb s "").

(** The cases of parseZgrabResult for the modules whose result was decoded. *)

Definition parseHTTP (port : Z) (info : ServiceInfo) (r : HTTPResult) : ServiceInfo :=
  match Response r with
  | None => info
  | Some resp =>
      let info := withName (if (port =? 443) || (port =? 8443) then "https" else "http") info in
      let info := setFingerprintIf (0 <? StatusCode resp) "status_code"
                    (JInt (StatusCode resp)) info in
      let info := if nonEmpty (StatusLine resp)
                  then withBanner (StatusLine resp) info else info in
      let info :=
        match default ∅ (Headers resp) !! "server" with
        | Some server => withVersion server info
        | None => info
        end in
      let info :=
        match Headers resp with
        | Some h => setFingerprint "headers" (JObject (JString <$> h)) info
        | None => info
        end in
      if nonEmpty (Body resp) then
        let title := extractTitle (Body resp) in
        setFingerprintIf (nonEmpty title) "title" (JString title) info
      else info
  end.

Definition parseSMTP (t : Tools) (info : ServiceInfo) (r : SMTPResult) : ServiceInfo :=
  let info := withName "smtp" info in
  let info :=
    if nonEmpty (smtp_Banner r)
    then withVersion (extractVersion (world t) (smtp_Banner r))
           (withBanner (sanitizeBanner (smtp_Banner r)) info)
    else info in
  let info :=
    if nonEmpty (smtp_EHLO r) then
      let info := setFingerprint "ehlo" (JString (smtp_EHLO r)) info in
      let caps := parseEHLOCapabilities (smtp_EHLO r) in
      setFingerprintIf (0 <? Z.of_nat (length caps)) "capabilities" (JStrings caps) info
    else info in
  let info := setFingerprintIf (nonEmpty (smtp_StartTLS r)) "starttls" (JBool true) info in
  extractTLSInfo info (smtp_TLS r).

Definition parseFTP (t : Tools) (info : ServiceInfo) (r : FTPResult) : ServiceInfo :=
  let info := withName "ftp" info in
  let info :=
    if nonEmpty (ftp_Banner r)
    then withVersion (extractVersion (world t) (ftp_Banner r))
           (withBanner (sanitizeBanner (ftp_Banner r)) info)
    else info in
  let info := setFingerprintIf (nonEmpty (ftp_AuthTLS r)) "auth_tls" (JBool true) info in
  extractTLSInfo info (ftp_TLS r).

Definition parseSSH (info : ServiceInfo) (r : SSHResult) : ServiceInfo :=
  let info := withName "ssh" info in
  let info :=
    match ServerID r with
    | Some id =>
        let info := if nonEmpty (ssh_Raw id)
                    then withBanner (sanitizeBanner (ssh_Raw id)) info else info in
        let info := if nonEmpty (ssh_SoftwareVersion id)
                    then withVersion (ssh_SoftwareVersion id) info else info in
        setFingerprintIf (nonEmpty (ssh_Version id)) "protocol_version"
          (JString (ssh_Version id)) info
    | None => info
    end in
  match AlgorithmSelection r with
  | Some algs => setFingerprint "algorithms" (JObject algs) info
  | None => info
  end.

Definition parseMySQL (info : ServiceInfo) (r : MySQLResult) : ServiceInfo :=
  let info := withName "mysql" info in
  let info :=
    if nonEmpty (ServerVersion r)
    then withBanner ("MySQL " +:+ ServerVersion r) (withVersion (ServerVersion r) info)
    else info in
  let info := setFingerprintIf (0 <? ProtocolVersion r) "protocol_version"
                (JInt (ProtocolVersion r)) info in
  let info := setFingerprintIf (nonEmpty (AuthPluginName r)) "auth_plugin"
                (JString (AuthPluginName r)) info in
  extractTLSInfo info (mysql_TLS r).

Definition parsePostgres (info : ServiceInfo) (r : PostgresResult) : ServiceInfo :=
  let info := withName "postgresql" info in
  let info :=
    if IsSSL r
    then setFingerprint "ssl_supported" (JBool true)
           (withBanner "PostgreSQL (SSL supported)" info)
    else withBanner "PostgreSQL" info in
  let info := setFingerprintIf (nonEmpty (SupportedVersions r)) "supported_versions"
                (JString (SupportedVersions r)) info in
  extractTLSInfo info (pg_TLS r).

Definition parseRedis (info : ServiceInfo) (r : RedisResult) : ServiceInfo :=
  let info := withName "redis" info in
  let info :=
    if AuthRequired r
    then setFingerprint "auth_required" (JBool true)
           (withBanner "Redis (authentication required)" info)
    else withBanner "Redis" info in
  if nonEmpty (Info r) then
    let version := extractRedisVersion (Info r) in
    if nonEmpty version then withVersion version info else info
  else info.

Definition parseMailbox (t : Tools) (name : string) (info : ServiceInfo)
    (r : MailboxResult) : ServiceInfo :=
  let info := withName name info in
  let info :=
    if nonEmpty (mb_Banner r)
    then withVersion (extractVersion (world t) (mb_Banner r))
           (withBanner (sanitizeBanner (mb_Banner r)) info)
    else info in
  let info := setFingerprintIf (nonEmpty (mb_StartTLS r)) "starttls" (JBool true) info in
  extractTLSInfo info (mb_TLS r).

Definition parseTelnet (info : ServiceInfo) (r : TelnetResult) : ServiceInfo :=
  let info := withName "telnet" info in
  if nonEmpty (telnet_Banner r)
  then withBanner (sanitizeBanner (telnet_Banner r)) info else info.

Definition parseBanner (port : Z) (info : ServiceInfo) (r : gmap string JVal)
  : ServiceInfo :=
  match r !! "banner" with
  | Some (JString banner) =>
      if nonEmpty banner
      then withName (guessServiceFromBanner banner port)
             (withBanner (sanitizeBanner banner) info)
      else info
  | _ => info
  end.

(** [decode] then [parse]; a result that does not decode leaves [info] as
    it is. *)
Definition decoded {R} (decode : string -> option R)
    (parse : ServiceInfo -> R -> ServiceInfo) (raw : string) (info : ServiceInfo)
  : ServiceInfo :=
  match decode raw with
  | Some r => parse info r
  | None => info
  end.

(** parseZgrabResult *)
Definition parseZgrabResult (t : Tools) (result : ZgrabResult) (module : string)
    (port : Z) : ServiceInfo :=
  let info := withFingerprint (Some ∅) zeroInfo in
  match Data result !! module with
  | None => info
  | Some modResult =>
      if negb (String.eqb (Status modResult) "success") then info
      else
        let info := setFingerprint "zgrab_status" (JString (Status modResult)) info in
        let info := setFingerprint "protocol" (JString module) info in
        let raw := Result modResult in
        if String.eqb module "http" then decoded (jsonHTTP t) (parseHTTP port) raw info
        else if String.eqb module "smtp" then decoded (jsonSMTP t) (parseSMTP t) raw info
        else if String.eqb module "ftp" then decoded (jsonFTP t) (parseFTP t) raw info
        else if String.eqb module "ssh" then decoded (jsonSSH t) parseSSH raw info
        else if String.eqb module "mysql" then decoded (jsonMySQL t) parseMySQL raw info
        else if String.eqb module "postgres"
        then decoded (jsonPostgres t) parsePostgres raw info
        else if String.eqb module "redis" then decoded (jsonRedis t) parseRedis raw info
        else if String.eqb module "imap"
        then decoded (jsonIMAP t) (parseMailbox t "imap") raw info
        else if String.eqb module "pop3"
        then decoded (jsonPOP3 t) (parseMailbox t "pop3") raw info
        else if String.eqb module "telnet" then decoded (jsonTelnet t) parseTelnet raw info
        else if String.eqb module "banner"
        then decoded (jsonObject t) (parseBanner port) raw info
        else info
  end.

(** ZgrabFingerprinter.fingerprintPort *)
Definition fingerprintPort (t : Tools) (z : ZgrabFingerprinter) (ip : string)
    (port : Z) : ServiceInfo :=
  let module := getZgrabModule port in
  let args := zgrabArgs module port in
  match runZgrab t z ip args with
  | inr _ => Fingerprint.fingerprintPort (world t) (Fallback z) ip port
  | inl result =>
      let info := parseZgrabResult t result module port in
      if String.eqb (ServiceName info) ""
      then withName (getDefaultServiceName port) info else info
  end.

(** ZgrabFingerprinter.FingerprintHost *)
Definition FingerprintHost (t : Tools) (z : ZgrabFingerprinter)
    (ctxDoneAfter : list Z -> bool) (ip : string) (ports : list Z)
  : gmap Z ServiceInfo :=
  hostLoop (fingerprintPort t z ip) ctxDoneAfter ports [] ∅.




(** The flags that follow the module name and the port in the command. *)
Definition flagsOf (port : Z) : list string :=
  drop 3 (zgrabArgs (getZgrabModule port) port).

(** Tools with a zgrab2 whose output decodes to a result of the ssh module
    with the given status. *)
Definition sshModule (status : string) : ZgrabModule :=
  {| Status := status; Protocol := "ssh"; Timestamp := "";
     Result := "{}"; Error := "" |}.

Definition sshResult (status : string) : ZgrabResult :=
  {| zr_IP := "10.0.0.1"; zr_Domain := ""; Data := {["ssh" := sshModule status]} |}.

Definition sshGrab (status : string) : Tools :=
  {| world := unreachable;
     zgrab2 := fun _ _ _ => ExecOutput "{}";
     jsonZgrabResult := fun _ => Some (sshResult status);
     jsonHTTP := fun _ => None; jsonSMTP := fun _ => None; jsonFTP := fun _ => None;
     jsonSSH := fun _ =>
       Some {| ServerID := Some {| ssh_Raw := "SSH-2.0-OpenSSH_9.0";
                                   ssh_Version := "2.0";
                                   ssh_SoftwareVersion := "OpenSSH_9.0";
                                   ssh_Comment := "" |};
               AlgorithmSelection := None |};
     jsonMySQL := fun _ => None;
     jsonPostgres := fun _ => None; jsonRedis := fun _ => None;
     jsonIMAP := fun _ => None; jsonPOP3 := fun _ => None;
     jsonTelnet := fun _ => None; jsonObject := fun _ => None |}.

(** A line of an EHLO response as a server sends it: the code 250, a dash
    or a blank, the capability and a carriage return. *)
Definition cr : string := String (ascii_of_N 13) "".
Definition lf : string := String newline "".

Definition ehloLine (item : ascii * string) : string :=
  "250" +:+ String (fst item) (snd item) +:+ cr.

Definition capability (item : ascii * string) : Prop :=
  (fst item = "-"%char \/ fst item = " "%char)
  /\ stripped (bytes (snd item)) /\ snd item <> ""
  /\ HasPrefix (ToLower (snd item)) "250" = false.

End Zgrab.

(** ** What is submitted to the API (package db, as runScan fills it) *)

Module Db.




End Db.

(** ** The choice of ports and backend (main.go, zmap.go) *)

Module Main.

(** The fields of the configuration that runScan reads. *)
Record Config : Type := {
  Networks : list string;
  Ports : list Z;
  ScanAllPorts : bool;
  ScannerMode : string;
  Rate : Z;
  Timeout : Z;
  Interface : string
}.

(** CommonPorts *)
Definition CommonPorts : list Z :=
  [21; 22; 23; 25; 53; 80; 110; 143; 443; 445; 993; 995; 1433; 1521; 3306;
   3389; 5432; 5900; 6379; 8080; 8443; 27017].

(** ports := cfg.Ports; if len(ports) == 0 { ports = scanner.CommonPorts() } *)
Definition portsOf (cfg : Config) : list Z :=
  if Z.of_nat (length (Ports cfg)) =? 0 then CommonPorts else Ports cfg.

(** The scan that runScan starts. *)
Inductive Scan : Type :=
| ZmapScanAllPorts
| TCPScanAllPorts
| ZmapScanPorts (ports : list Z)
| TCPScanPortsWithCallback (ports : list Z).

Definition useZmap (cfg : Config) : bool := String.eqb (ScannerMode cfg) "zmap".

Definition scanOf (cfg : Config) : Scan :=
  if ScanAllPorts cfg then
    if useZmap cfg then ZmapScanAllPorts else TCPScanAllPorts
  else
    if useZmap cfg then ZmapScanPorts (portsOf cfg)
    else TCPScanPortsWithCallback (portsOf cfg).

(** for i := 0; i < 30; i++ { if apiClient.HealthCheck() == nil { break };
    time.Sleep(2 * time.Second) }.  [healthy i] tells whether the check
    made after [i] failed checks succeeds, and [left] is 30 - i.  The
    result is the number of checks made and whether the API was found
    ready; main goes on in both cases. *)
Fixpoint waitLoop (healthy : nat -> bool) (i left : nat) : nat * bool :=
  match left with
  | O => (i, false)
  | S left' =>
      if healthy i then (S i, true) else waitLoop healthy (S i) left'
  end.

Definition waitForAPI (healthy : nat -> bool) : nat * bool := waitLoop healthy 0 30.

(** The sleeps of two seconds: one after every failed check. *)
Definition sleeps (w : nat * bool) : nat :=
  if snd w then (fst w - 1)%nat else fst w.


Section RunScan.

Variable t : Zgrab.Tools.
Variable scanID : string.

(** Whether the context of the scan is done when the given result is
    fingerprinted. *)
Variable ctxDoneAt : ZmapResult -> bool.



(** What ScanPort of the native backend returns for a port, and whether
    the context is done when the ports of a list have been scanned. *)
Variable ScanPort : Z -> list ZmapResult * error.
Variable ctxDoneAfter : list Z -> bool.


End RunScan.

End Main.

(** * Properties *)

Section StringFacts.
Import Strings.

Lemma bytes_of_bytes l : bytes (of_bytes l) = l.
Proof. apply list_ascii_of_string_of_list_ascii. Qed.

Lemma of_bytes_bytes s : of_bytes (bytes s) = s.
Proof. apply string_of_list_ascii_of_string. Qed.

Lemma length_bytes s : length (bytes s) = String.length s.
Proof. induction s; simpl; congruence. Qed.

Lemma length_of_bytes l : String.length (of_bytes l) = length l.
Proof. induction l; simpl; congruence. Qed.

Lemma trimRunes_length s2 s3 l : (length (trimRunes s2 s3 l) <= length l)%nat.
Proof.
  remember (length l) as n eqn:Hn.
  assert (Hle : (length l <= n)%nat) by lia. clear Hn.
  revert l Hle. induction n as [|n IH]; intros l Hle.
  - destruct l; simpl in *; lia.
  - destruct l as [|c1 [|c2 [|c3 l3]]]; simpl in *; try lia.
    + destruct (asciiSpace c1); simpl; lia.
    + destruct (asciiSpace c1).
      * specialize (IH [c2]). simpl in IH. lia.
      * destruct (s2 c1 c2); simpl; lia.
    + destruct (asciiSpace c1).
      * specialize (IH (c2 :: c3 :: l3)). simpl in IH. lia.
      * destruct (s2 c1 c2).
        -- specialize (IH (c3 :: l3)). simpl in IH. lia.
        -- destruct (s3 c1 c2 c3); simpl.
           ++ specialize (IH l3). lia.
           ++ lia.
Qed.

Lemma trimSpaceBytes_length l : (length (trimSpaceBytes l) <= length l)%nat.
Proof.
  unfold trimSpaceBytes, trimRight, trimLeft.
  rewrite length_rev.
  etransitivity; [apply trimRunes_length|].
  rewrite length_rev. apply trimRunes_length.
Qed.

Lemma TrimSpace_length s : (String.length (TrimSpace s) <= String.length s)%nat.
Proof.
  unfold TrimSpace. rewrite length_of_bytes, <- length_bytes.
  apply trimSpaceBytes_length.
Qed.

End StringFacts.

Section BannerFacts.
Import Strings Banner.

Lemma truncate_length out : (length (truncate out) <= 515)%nat.
Proof.
  unfold truncate. destruct (Z.ltb_spec 512 (Z.of_nat (length out))).
  - rewrite length_app, length_firstn. change (length ellipsis) with 3%nat. lia.
  - lia.
Qed.

(** The output never exceeds 512 bytes plus the three of the ellipsis. *)
Lemma sanitizeBanner_length s : len (sanitizeBanner s) <= 512 + len "...".
Proof.
  unfold len, sanitizeBanner, sanitizeBytes.
  rewrite length_of_bytes.
  pose proof (trimSpaceBytes_length
                (truncate (writeRunes (trimSpaceBytes (bytes s))))) as H1.
  pose proof (truncate_length (writeRunes (trimSpaceBytes (bytes s)))) as H2.
  simpl. lia.
Qed.

End BannerFacts.

Section SanitizeTwice.
Import Strings Banner.

Lemma printable_not_lead c : printable c = true -> (code c <? 127)%N = true.
Proof. unfold printable. intros H. by apply andb_true_iff in H as [_ ?]. Qed.

Lemma space2_printable c1 c2 : printable c1 = true -> space2 c1 c2 = false.
Proof.
  intros H. apply printable_not_lead, N.ltb_lt in H. unfold space2.
  destruct (N.eqb_spec (code c1) 194); [lia|reflexivity].
Qed.

Lemma space3_printable c1 c2 c3 : printable c1 = true -> space3 c1 c2 c3 = false.
Proof.
  intros H. apply printable_not_lead, N.ltb_lt in H. unfold space3. cbn zeta.
  destruct (N.eqb_spec (code c1) 225); [lia|].
  destruct (N.eqb_spec (code c1) 226); [lia|].
  destruct (N.eqb_spec (code c1) 227); [lia|]. reflexivity.
Qed.

(** On printable bytes no multi-byte space is met, whichever way the bytes
    are read. *)
Lemma trimRunes_clean s2 s3 l :
  (forall a b, printable a = true -> printable b = true -> s2 a b = false) ->
  (forall a b c, printable a = true -> printable b = true -> printable c = true ->
                 s3 a b c = false) ->
  clean l -> trimRunes s2 s3 l = dropBlanks l.
Proof.
  intros H2 H3. induction l as [|c1 l1 IH]; intros Hc; [reflexivity|].
  inversion Hc as [|? ? Hc1 Hl1]; subst.
  cbn [trimRunes dropBlanks]. destruct (asciiSpace c1); [by apply IH|].
  destruct l1 as [|c2 l2]; [reflexivity|].
  inversion Hl1 as [|? ? Hc2 Hl2]; subst.
  rewrite H2 by assumption.
  destruct l2 as [|c3 l3]; [reflexivity|].
  inversion Hl2 as [|? ? Hc3 Hl3]; subst.
  by rewrite H3.
Qed.

Lemma clean_rev l : clean l -> clean (rev l).
Proof.
  unfold clean. rewrite !List.Forall_forall. intros H x Hx. apply H. by apply in_rev.
Qed.

Lemma trimSpaceBytes_clean l :
  clean l -> trimSpaceBytes l = rev (dropBlanks (rev (dropBlanks l))).
Proof.
  intros Hc. unfold trimSpaceBytes, trimRight, trimLeft.
  assert (E : trimRunes space2 space3 l = dropBlanks l).
  { apply trimRunes_clean; auto using space2_printable, space3_printable. }
  rewrite E. f_equal. apply trimRunes_clean.
  - intros a b Ha Hb. by apply space2_printable.
  - intros a b c Ha Hb Hc'. by apply space3_printable.
  - apply clean_rev. rewrite <- E.
    clear E. revert Hc. unfold clean. rewrite !List.Forall_forall. intros H x Hx.
    apply H.
    assert (Hsuf : exists pre, l = pre ++ trimRunes space2 space3 l).
    { rewrite trimRunes_clean
        by (auto using space2_printable, space3_printable;
            unfold clean; by rewrite List.Forall_forall).
      clear. induction l as [|c l IH]; [by exists []|].
      cbn [dropBlanks]. destruct (asciiSpace c); [|by exists []].
      destruct IH as [pre Hp]. exists (c :: pre). cbn. by rewrite <- Hp. }
    destruct Hsuf as [pre Hp]. rewrite Hp. apply in_or_app. by right.
Qed.

Lemma dropBlanks_suffix l : exists pre, l = pre ++ dropBlanks l.
Proof.
  induction l as [|c l IH]; [by exists []|].
  cbn [dropBlanks]. destruct (asciiSpace c); [|by exists []].
  destruct IH as [pre Hp]. exists (c :: pre). cbn. by rewrite <- Hp.
Qed.

Lemma dropBlanks_noBlankAhead l : noBlankAhead (dropBlanks l).
Proof.
  induction l as [|c l IH]; [exact I|].
  cbn [dropBlanks]. destruct (asciiSpace c) eqn:E; [exact IH|exact E].
Qed.

Lemma dropBlanks_fix l : noBlankAhead l -> dropBlanks l = l.
Proof. destruct l as [|c l]; [reflexivity|]. cbn. by intros ->. Qed.

Lemma clean_app l1 l2 : clean (l1 ++ l2) <-> clean l1 /\ clean l2.
Proof. unfold clean. apply Forall_app. Qed.

(** What TrimSpace leaves of printable bytes has no blank at either end. *)
Lemma trimSpaceBytes_stripped l : clean l -> stripped (trimSpaceBytes l).
Proof.
  intros Hc. rewrite trimSpaceBytes_clean by assumption.
  destruct (dropBlanks_suffix l) as [pre Hp].
  pose proof (dropBlanks_noBlankAhead l) as HA.
  set (A := dropBlanks l) in *.
  destruct (dropBlanks_suffix (rev A)) as [pre' Hp'].
  pose proof (dropBlanks_noBlankAhead (rev A)) as HB.
  set (B := dropBlanks (rev A)) in *.
  assert (HcA : clean A).
  { rewrite Hp in Hc. by apply clean_app in Hc as [_ ?]. }
  assert (HcB : clean B).
  { apply clean_rev in HcA. rewrite Hp' in HcA. by apply clean_app in HcA as [_ ?]. }
  assert (EA : A = rev B ++ rev pre').
  { rewrite <- (rev_involutive A), Hp', rev_app_distr. reflexivity. }
  repeat split.
  - by apply clean_rev.
  - destruct (rev B) as [|c r] eqn:Er; [exact I|].
    rewrite EA in HA. exact HA.
  - by rewrite rev_involutive.
Qed.

Lemma trimSpaceBytes_fix t : stripped t -> trimSpaceBytes t = t.
Proof.
  intros (Hc & Hh & Hl). rewrite trimSpaceBytes_clean by assumption.
  rewrite (dropBlanks_fix t Hh), (dropBlanks_fix (rev t) Hl).
  apply rev_involutive.
Qed.

(** If TrimSpace removes nothing from printable bytes, it returns them. *)
Lemma trimSpaceBytes_same_length l :
  clean l -> length (trimSpaceBytes l) = length l -> trimSpaceBytes l = l.
Proof.
  intros Hc Hlen. rewrite trimSpaceBytes_clean in * by assumption.
  destruct (dropBlanks_suffix l) as [pre Hp].
  set (A := dropBlanks l) in *.
  destruct (dropBlanks_suffix (rev A)) as [pre' Hp'].
  set (B := dropBlanks (rev A)) in *.
  assert (L1 : length l = (length pre + length A)%nat).
  { rewrite Hp at 1. apply length_app. }
  assert (L2 : length A = (length pre' + length B)%nat).
  { rewrite <- (length_rev A), Hp'. apply length_app. }
  rewrite length_rev in Hlen.
  assert (pre = []) by (destruct pre; [reflexivity|cbn in L1; lia]).
  assert (pre' = []) by (destruct pre'; [reflexivity|cbn in L2; lia]).
  subst pre pre'. cbn [app] in Hp, Hp'.
  rewrite <- Hp', rev_involutive. symmetry. exact Hp.
Qed.

Lemma keepRune_clean c : clean (keepRune c).
Proof.
  unfold keepRune. cbn zeta.
  destruct ((32 <=? code c)%N && (code c <? 127)%N) eqn:E.
  - constructor; [exact E|constructor].
  - destruct ((code c =? 10)%N || (code c =? 13)%N || (code c =? 9)%N).
    + constructor; [reflexivity|constructor].
    + constructor.
Qed.

Lemma writeRunes_clean l : clean (writeRunes l).
Proof.
  unfold writeRunes. induction l as [|c l IH]; cbn [flat_map].
  - constructor.
  - apply clean_app. split; [apply keepRune_clean|exact IH].
Qed.

Lemma writeRunes_fix l : clean l -> writeRunes l = l.
Proof.
  unfold writeRunes. induction 1 as [|c l Hc Hl IH]; cbn [flat_map]; [reflexivity|].
  rewrite IH. unfold keepRune. cbn zeta. unfold printable in Hc. rewrite Hc. reflexivity.
Qed.

Lemma truncate_clean out : clean out -> clean (truncate out).
Proof.
  intros Hc. unfold truncate. destruct (512 <? Z.of_nat (length out)); [|assumption].
  apply clean_app. split.
  - rewrite <- (firstn_skipn 512 out) in Hc. by apply clean_app in Hc as [? _].
  - repeat constructor.
Qed.

Lemma sanitizeBytes_stripped l : stripped (sanitizeBytes l).
Proof.
  unfold sanitizeBytes. apply trimSpaceBytes_stripped, truncate_clean, writeRunes_clean.
Qed.

(** Sanitizing a sanitized banner returns it, unless it has 513 or 514
    bytes. *)
Lemma sanitizeBytes_twice l :
  (length (sanitizeBytes l) <= 512)%nat \/ length (sanitizeBytes l) = 515%nat ->
  sanitizeBytes (sanitizeBytes l) = sanitizeBytes l.
Proof.
  intros Hlen.
  pose proof (sanitizeBytes_stripped l) as Hst.
  set (t := sanitizeBytes l) in *.
  unfold sanitizeBytes at 1.
  rewrite (trimSpaceBytes_fix t Hst).
  rewrite (writeRunes_fix t) by apply Hst.
  assert (Ht : truncate t = t).
  { destruct Hlen as [Hle|H515].
    - unfold truncate. destruct (Z.ltb_spec 512 (Z.of_nat (length t))); [lia|reflexivity].
    - set (out := writeRunes (trimSpaceBytes l)) in *.
      assert (Hco : clean (truncate out)) by apply truncate_clean, writeRunes_clean.
      pose proof (truncate_length out) as Hub.
      assert (Hle : (length t <= length (truncate out))%nat)
        by apply (trimSpaceBytes_length (truncate out)).
      assert (Et : t = truncate out).
      { apply trimSpaceBytes_same_length; [assumption|].
        change (length t = length (truncate out)). lia. }
      unfold truncate in Et.
      destruct (Z.ltb_spec 512 (Z.of_nat (length out))) as [Hlong|Hshort].
      + unfold truncate.
        destruct (Z.ltb_spec 512 (Z.of_nat (length t))); [|lia].
        rewrite Et at 1.
        rewrite firstn_app, firstn_firstn.
        rewrite length_firstn.
        replace (Init.Nat.min 512 512) with 512%nat by reflexivity.
        replace (512 - Init.Nat.min 512 (length out))%nat with 0%nat by lia.
        cbn [firstn]. rewrite app_nil_r. symmetry. exact Et.
      + rewrite Et in H515. lia. }
  rewrite Ht. apply trimSpaceBytes_fix, Hst.
Qed.

Lemma sanitizeBanner_twice s :
  len (sanitizeBanner s) <= 512 \/ len (sanitizeBanner s) = 515 ->
  sanitizeBanner (sanitizeBanner s) = sanitizeBanner s.
Proof.
  unfold len, sanitizeBanner. rewrite length_of_bytes. intros Hlen.
  rewrite bytes_of_bytes. f_equal. apply sanitizeBytes_twice. lia.
Qed.

End SanitizeTwice.

(** ** The address expander *)

Section ExpanderFacts.
Import Net Expander Ranges.

Lemma wf_cons b l : wf (b :: l) <-> 0 <= b < 256 /\ wf l.
Proof. unfold wf. split; [intros H; inversion H; subst; auto | intros [H1 H2]; constructor; auto]. Qed.

Lemma wf_app l1 l2 : wf (l1 ++ l2) <-> wf l1 /\ wf l2.
Proof. unfold wf. apply Forall_app. Qed.

Lemma wf_rev l : wf l -> wf (rev l).
Proof. unfold wf. rewrite !List.Forall_forall. intros H x Hx. apply H. by apply in_rev. Qed.

Lemma valLE_bound r : wf r -> 0 <= valLE r < 256 ^ Z.of_nat (length r).
Proof.
  induction r as [|b r IH]; intros H.
  - simpl. lia.
  - apply wf_cons in H as [Hb Hr]. specialize (IH Hr).
    cbn [valLE length]. rewrite Nat2Z.inj_succ, Z.pow_succ_r by lia. lia.
Qed.

Lemma valLE_app l1 l2 :
  valLE (l1 ++ l2) = valLE l1 + 256 ^ Z.of_nat (length l1) * valLE l2.
Proof.
  induction l1 as [|b r IH]; cbn [valLE length app].
  - simpl. lia.
  - rewrite IH, Nat2Z.inj_succ, Z.pow_succ_r by lia. lia.
Qed.

Lemma valLE_inj r1 r2 :
  wf r1 -> wf r2 -> length r1 = length r2 -> valLE r1 = valLE r2 -> r1 = r2.
Proof.
  revert r2. induction r1 as [|a r1 IH]; intros [|b r2] H1 H2 Hl Hv; try discriminate; auto.
  apply wf_cons in H1 as [Ha H1]. apply wf_cons in H2 as [Hb H2].
  cbn [valLE] in Hv. injection Hl as Hl.
  assert (a = b /\ valLE r1 = valLE r2) as [-> Hv'] by lia.
  f_equal. auto.
Qed.

Lemma bytesLE_length n v : length (bytesLE n v) = n.
Proof. revert v. induction n; intros; simpl; auto. Qed.

Lemma bytesLE_wf n v : wf (bytesLE n v).
Proof.
  revert v. induction n; intros; simpl.
  - constructor.
  - apply wf_cons. split; [apply Z.mod_pos_bound; lia | auto].
Qed.

Lemma valLE_bytesLE n v : valLE (bytesLE n v) = v mod 256 ^ Z.of_nat n.
Proof.
  revert v. induction n as [|n IH]; intros v.
  - simpl. by rewrite Z.mod_1_r.
  - cbn [bytesLE valLE]. rewrite IH, Nat2Z.inj_succ, Z.pow_succ_r by lia.
    rewrite Z.rem_mul_r by lia. lia.
Qed.

Lemma incFromLast_length r : length (incFromLast r) = length r.
Proof.
  induction r as [|b r IH]; simpl; auto.
  destruct (0 <? (b + 1) mod 256); simpl; auto.
Qed.

Lemma incFromLast_wf r : wf r -> wf (incFromLast r).
Proof.
  induction r as [|b r IH]; intros H; simpl; auto.
  apply wf_cons in H as [Hb Hr].
  destruct (0 <? (b + 1) mod 256); apply wf_cons; (split; [apply Z.mod_pos_bound; lia|auto]).
Qed.

Lemma valLE_incFromLast r :
  wf r -> valLE (incFromLast r) = (valLE r + 1) mod 256 ^ Z.of_nat (length r).
Proof.
  induction r as [|b r IH]; intros H.
  - simpl. by rewrite Z.mod_1_r.
  - apply wf_cons in H as [Hb Hr]. specialize (IH Hr).
    pose proof (valLE_bound r Hr) as Hbd.
    cbn [incFromLast length]. rewrite Nat2Z.inj_succ, Z.pow_succ_r by lia.
    set (P := 256 ^ Z.of_nat (length r)) in *.
    destruct (Z.eq_dec b 255) as [->|Hne].
    + change ((255 + 1) mod 256) with 0. cbn [Z.ltb Z.compare valLE].
      rewrite IH. cbn [valLE].
      rewrite Z.rem_mul_r by lia.
      replace (255 + 256 * valLE r + 1) with ((valLE r + 1) * 256) by lia.
      rewrite Z.mod_mul, Z.div_mul by lia. lia.
    + rewrite (Z.mod_small (b + 1)) by lia.
      destruct (Z.ltb_spec 0 (b + 1)); [|lia].
      cbn [valLE]. rewrite Z.mod_small; nia.
Qed.

Lemma val_cons b r : val (b :: r) = b * 256 ^ Z.of_nat (length r) + val r.
Proof.
  unfold val. cbn [rev]. rewrite valLE_app, length_rev. cbn [valLE]. lia.
Qed.

Lemma val_nil : val [] = 0.
Proof. reflexivity. Qed.

Lemma val_bound ip : wf ip -> 0 <= val ip < 256 ^ Z.of_nat (length ip).
Proof.
  intros H. unfold val. rewrite <- (length_rev ip). apply valLE_bound, wf_rev, H.
Qed.

Lemma val_inj ip1 ip2 :
  wf ip1 -> wf ip2 -> length ip1 = length ip2 -> val ip1 = val ip2 -> ip1 = ip2.
Proof.
  intros H1 H2 Hl Hv. apply rev_inj.
  apply valLE_inj; auto using wf_rev. by rewrite !length_rev.
Qed.

Lemma bytesBE_length n v : length (bytesBE n v) = n.
Proof. unfold bytesBE. by rewrite length_rev, bytesLE_length. Qed.

Lemma bytesBE_wf n v : wf (bytesBE n v).
Proof. apply wf_rev, bytesLE_wf. Qed.

Lemma val_bytesBE n v : val (bytesBE n v) = v mod 256 ^ Z.of_nat n.
Proof. unfold val, bytesBE. rewrite rev_involutive. apply valLE_bytesLE. Qed.

Lemma bytesBE_val ip : wf ip -> bytesBE (length ip) (val ip) = ip.
Proof.
  intros H. apply val_inj; auto using bytesBE_wf, bytesBE_length.
  rewrite val_bytesBE. apply Z.mod_small, val_bound, H.
Qed.

Lemma inc_length ip : length (inc ip) = length ip.
Proof. unfold inc. by rewrite length_rev, incFromLast_length, length_rev. Qed.

Lemma inc_wf ip : wf ip -> wf (inc ip).
Proof. intros H. apply wf_rev, incFromLast_wf, wf_rev, H. Qed.

(** [inc] adds one modulo 256^len. *)
Lemma val_inc ip :
  wf ip -> val (inc ip) = (val ip + 1) mod 256 ^ Z.of_nat (length ip).
Proof.
  intros H. unfold val, inc. rewrite rev_involutive.
  rewrite valLE_incFromLast by (apply wf_rev, H). by rewrite length_rev.
Qed.

Lemma land_lastMaskByte a n :
  0 <= a < 256 -> 0 <= n < 8 ->
  Z.land a (lastMaskByte n) = a / 2 ^ (8 - n) * 2 ^ (8 - n).
Proof.
  intros Ha Hn.
  assert (Hc : byteMaskCheck = true) by (vm_compute; reflexivity).
  unfold byteMaskCheck in Hc. rewrite forallb_forall in Hc.
  specialize (Hc a). rewrite forallb_forall in Hc.
  apply Z.eqb_eq, Hc.
  - apply list_elem_of_In, elem_of_seqZ. lia.
  - apply list_elem_of_In, elem_of_seqZ. lia.
Qed.

Lemma land_255 a : 0 <= a < 256 -> Z.land a 255 = a.
Proof.
  intros Ha. change 255 with (Z.ones 8). rewrite Z.land_ones by lia.
  apply Z.mod_small. lia.
Qed.

Lemma maskBytes_length l n : length (maskBytes l n) = l.
Proof.
  revert n. induction l as [|l IH]; intros n; cbn [maskBytes]; auto.
  destruct (8 <=? n); cbn [length]; by rewrite IH.
Qed.

Lemma maskBytes_0 l : maskBytes l 0 = repeat 0 l.
Proof. induction l as [|l IH]; cbn [maskBytes repeat]; auto. cbn. by rewrite IH. Qed.

Lemma sameMasked_zero nn ip : sameMasked nn ip (repeat 0 (length nn)) = true.
Proof.
  revert ip. induction nn as [|a nn IH]; intros [|b ip]; cbn; auto.
  rewrite !Z.land_0_r. cbn. apply IH.
Qed.

Lemma pow256 n : 256 ^ Z.of_nat n = 2 ^ (8 * Z.of_nat n).
Proof. change 256 with (2 ^ 8). rewrite <- Z.pow_mul_r by lia. reflexivity. Qed.

(** Two addresses agree under a CIDR mask of [n] ones exactly when they
    agree above the low [8 * L - n] bits. *)
Lemma sameMasked_spec L n ip ip' :
  length ip = L -> length ip' = L -> wf ip -> wf ip' ->
  0 <= n <= 8 * Z.of_nat L ->
  sameMasked ip ip' (maskBytes L n) = true <->
  val ip / 2 ^ (8 * Z.of_nat L - n) = val ip' / 2 ^ (8 * Z.of_nat L - n).
Proof.
  revert n ip ip'. induction L as [|L IH]; intros n ip ip' Hl Hl' Hw Hw' Hn.
  - destruct ip, ip'; try discriminate. cbn. tauto.
  - destruct ip as [|a r]; [discriminate|]. destruct ip' as [|b r']; [discriminate|].
    injection Hl as Hl. injection Hl' as Hl'.
    apply wf_cons in Hw as [Ha Hr]. apply wf_cons in Hw' as [Hb Hr'].
    pose proof (val_bound r Hr) as Br. pose proof (val_bound r' Hr') as Br'.
    rewrite Hl in Br. rewrite Hl' in Br'.
    rewrite !val_cons, Hl, Hl'.
    rewrite pow256 in *.
    set (h := 8 * Z.of_nat (S L) - n).
    cbn [maskBytes]. destruct (Z.leb_spec 8 n) as [Hge|Hlt].
    + cbn [sameMasked]. rewrite !land_255 by lia.
      assert (Hh : h = 8 * Z.of_nat L - (n - 8)) by (unfold h; lia).
      specialize (IH (n - 8) r r' Hl Hl' Hr Hr' ltac:(lia)).
      rewrite <- Hh in IH.
      assert (Hp : 2 ^ (8 * Z.of_nat L) = 2 ^ (8 * Z.of_nat L - h) * 2 ^ h).
      { rewrite <- Z.pow_add_r by lia. f_equal. lia. }
      set (Q := 2 ^ (8 * Z.of_nat L - h)) in *.
      assert (HQ : 0 < Q) by (apply Z.pow_pos_nonneg; lia).
      assert (H2h : 0 < 2 ^ h) by (apply Z.pow_pos_nonneg; lia).
      rewrite Hp, !Z.mul_assoc, !Z.div_add_l by lia.
      assert (Bq : 0 <= val r / 2 ^ h < Q).
      { split; [apply Z.div_pos; lia|]. apply Z.div_lt_upper_bound; lia. }
      assert (Bq' : 0 <= val r' / 2 ^ h < Q).
      { split; [apply Z.div_pos; lia|]. apply Z.div_lt_upper_bound; lia. }
      destruct (Z.eqb_spec a b) as [->|Hne]; cbn [negb].
      * rewrite IH. lia.
      * split; [discriminate|]. intros E. exfalso. nia.
    + cbn [sameMasked]. fold (lastMaskByte n).
      rewrite !land_lastMaskByte by lia.
      rewrite maskBytes_0. rewrite <- Hl at 1. rewrite sameMasked_zero.
      assert (Hh : h = 8 * Z.of_nat L + (8 - n)) by (unfold h; lia).
      rewrite Hh, Z.pow_add_r by lia.
      set (P := 2 ^ (8 * Z.of_nat L)) in *.
      assert (HP : 0 < P) by (apply Z.pow_pos_nonneg; lia).
      assert (H2k : 0 < 2 ^ (8 - n)) by (apply Z.pow_pos_nonneg; lia).
      rewrite <- !Z.div_div by lia.
      rewrite !Z.div_add_l by lia.
      rewrite (Z.div_small (val r)), (Z.div_small (val r')) by lia.
      rewrite !Z.add_0_r.
      destruct (Z.eqb_spec (a / 2 ^ (8 - n) * 2 ^ (8 - n)) (b / 2 ^ (8 - n) * 2 ^ (8 - n))) as [E|E]; cbn [negb].
      * split; [intros _; nia | reflexivity].
      * split; [discriminate | intros E'; congruence].
Qed.

Lemma val_app l1 l2 :
  val (l1 ++ l2) = val l1 * 256 ^ Z.of_nat (length l2) + val l2.
Proof.
  induction l1 as [|b l1 IH]; cbn [app].
  - rewrite val_nil. lia.
  - rewrite !val_cons, IH, length_app, Nat2Z.inj_add, Z.pow_add_r by lia. lia.
Qed.

Lemma sameMasked_land_l a ip m :
  sameMasked (zip_with Z.land a m) ip m = sameMasked a ip m.
Proof.
  revert ip m. induction a as [|x a IH]; intros [|y ip] [|c m]; cbn; auto.
  rewrite <- Z.land_assoc, Z.land_diag.
  destruct (Z.land x c =? Z.land y c); cbn; auto.
Qed.

Lemma masked_wf L n ip :
  length ip = L -> wf ip -> 0 <= n <= 8 * Z.of_nat L ->
  wf (zip_with Z.land ip (maskBytes L n)).
Proof.
  revert n ip. induction L as [|L IH]; intros n [|a r] Hl Hw Hn; try discriminate.
  - constructor.
  - injection Hl as Hl. apply wf_cons in Hw as [Ha Hr].
    cbn [maskBytes]. destruct (Z.leb_spec 8 n).
    + cbn [zip_with]. apply wf_cons. rewrite land_255 by lia.
      split; [lia|]. apply IH; auto; lia.
    + cbn [zip_with]. apply wf_cons. fold (lastMaskByte n).
      rewrite land_lastMaskByte by lia. split.
      * assert (0 < 2 ^ (8 - n)) by (apply Z.pow_pos_nonneg; lia).
        pose proof (Z.mul_div_le a (2 ^ (8 - n)) ltac:(lia)).
        pose proof (Z.div_pos a (2 ^ (8 - n)) ltac:(lia) ltac:(lia)). nia.
      * apply IH; auto; lia.
Qed.

Lemma masked_length L n ip :
  length ip = L -> length (zip_with Z.land ip (maskBytes L n)) = L.
Proof.
  intros Hl. rewrite length_zip_with, maskBytes_length. lia.
Qed.

Lemma zip_land_zero ip : val (zip_with Z.land ip (repeat 0 (length ip))) = 0.
Proof.
  induction ip as [|a r IH]; cbn [length repeat zip_with]; [reflexivity|].
  rewrite val_cons, IH, Z.land_0_r. lia.
Qed.

(** Masking clears the low [8 * L - n] bits. *)
Lemma val_masked L n ip :
  length ip = L -> wf ip -> 0 <= n <= 8 * Z.of_nat L ->
  val (zip_with Z.land ip (maskBytes L n))
  = val ip / 2 ^ (8 * Z.of_nat L - n) * 2 ^ (8 * Z.of_nat L - n).
Proof.
  revert n ip. induction L as [|L IH]; intros n [|a r] Hl Hw Hn; try discriminate.
  - cbn. reflexivity.
  - injection Hl as Hl. apply wf_cons in Hw as [Ha Hr].
    pose proof (val_bound r Hr) as Br. rewrite Hl in Br.
    set (h := 8 * Z.of_nat (S L) - n).
    cbn [maskBytes]. destruct (Z.leb_spec 8 n) as [Hge|Hlt].
    + cbn [zip_with]. rewrite !val_cons, land_255 by lia.
      rewrite masked_length, Hl by auto.
      rewrite IH by (auto; lia).
      assert (Hh : 8 * Z.of_nat L - (n - 8) = h) by (unfold h; lia).
      rewrite Hh, pow256.
      assert (Hp : 2 ^ (8 * Z.of_nat L) = 2 ^ (8 * Z.of_nat L - h) * 2 ^ h).
      { rewrite <- Z.pow_add_r by lia. f_equal. lia. }
      assert (H2h : 0 < 2 ^ h) by (apply Z.pow_pos_nonneg; lia).
      rewrite Hp, !Z.mul_assoc, Z.div_add_l by lia. ring.
    + cbn [zip_with]. rewrite !val_cons. fold (lastMaskByte n).
      rewrite land_lastMaskByte by lia.
      rewrite maskBytes_0.
      rewrite length_zip_with, repeat_length, Hl, Nat.min_id.
      rewrite <- Hl at 2. rewrite zip_land_zero.
      assert (Hh : h = 8 * Z.of_nat L + (8 - n)) by (unfold h; lia).
      rewrite pow256 in Br.
      rewrite Hh, pow256, (Z.pow_add_r 2 (8 * Z.of_nat L)) by lia.
      set (P := 2 ^ (8 * Z.of_nat L)) in *.
      assert (HP : 0 < P) by (apply Z.pow_pos_nonneg; lia).
      assert (H2k : 0 < 2 ^ (8 - n)) by (apply Z.pow_pos_nonneg; lia).
      rewrite <- Z.div_div by lia.
      rewrite Z.div_add_l, (Z.div_small (val r)) by lia.
      rewrite !Z.add_0_r. ring.
Qed.

Lemma maskBytes_skip k l n :
  8 * Z.of_nat k <= n -> skipn k (maskBytes (k + l) n) = maskBytes l (n - 8 * Z.of_nat k).
Proof.
  revert n. induction k as [|k IH]; intros n Hn.
  - cbn [skipn Nat.add]. replace (n - 8 * Z.of_nat 0) with n by lia. reflexivity.
  - cbn [Nat.add maskBytes]. destruct (Z.leb_spec 8 n); [|lia].
    cbn [skipn]. rewrite IH by lia.
    replace (n - 8 - 8 * Z.of_nat k) with (n - 8 * Z.of_nat (S k)) by lia. reflexivity.
Qed.

Lemma val_firstn_skipn ip k :
  val ip = val (firstn k ip) * 256 ^ Z.of_nat (length (skipn k ip)) + val (skipn k ip).
Proof. rewrite <- (firstn_skipn k ip) at 1. apply val_app. Qed.

Lemma val_split16 ip :
  length ip = 16%nat -> wf ip ->
  val ip / 2 ^ 32 = val (firstn 12 ip) /\ val ip mod 2 ^ 32 = val (skipn 12 ip).
Proof.
  intros Hl Hw.
  assert (Hs : length (skipn 12 ip) = 4%nat) by (rewrite length_skipn; lia).
  assert (Hw2 : wf (skipn 12 ip)).
  { rewrite <- (firstn_skipn 12 ip) in Hw. by apply wf_app in Hw as [_ ?]. }
  pose proof (val_bound _ Hw2) as B. rewrite Hs in B.
  rewrite (val_firstn_skipn ip 12), Hs.
  change (256 ^ Z.of_nat 4) with (2 ^ 32) in *.
  split.
  - rewrite Z.div_add_l, Z.div_small by lia. lia.
  - rewrite Z.add_comm, Z.mod_add, Z.mod_small by lia. lia.
Qed.

Lemma To4_len4 ip : length ip = 4%nat -> To4 ip = ip.
Proof. intros Hl. unfold To4. by rewrite Hl. Qed.

Lemma To4_len16 ip :
  length ip = 16%nat -> wf ip ->
  To4 ip = if mapped (val ip) then skipn 12 ip else [].
Proof.
  intros Hl Hw. unfold mapped.
  destruct (val_split16 ip Hl Hw) as [-> _].
  assert (Hw1 : wf (firstn 12 ip)).
  { rewrite <- (firstn_skipn 12 ip) in Hw. by apply wf_app in Hw as [? _]. }
  assert (Hpre : val (firstn 12 ip) = 65535 <-> firstn 12 ip = v4InV6Prefix).
  { split; [|intros ->; reflexivity]. intros E.
    apply val_inj; auto.
    - repeat constructor; lia.
    - rewrite length_firstn, Hl. reflexivity. }
  unfold To4. rewrite Hl. cbn [Nat.eqb IPv4len IPv6len andb].
  destruct ip as [|b0 [|b1 [|b2 [|b3 [|b4 [|b5 [|b6 [|b7 [|b8 [|b9 [|b10 [|b11
    [|b12 [|b13 [|b14 [|b15 [|]]]]]]]]]]]]]]]]]; try discriminate.
  cbn [firstn nth skipn isZeros forallb] in *.
  destruct (Z.eqb_spec (val [b0; b1; b2; b3; b4; b5; b6; b7; b8; b9; b10; b11]) 65535)
    as [E|E].
  - apply Hpre in E. injection E as -> -> -> -> -> -> -> -> -> -> -> ->. reflexivity.
  - repeat (match goal with
            | |- context [Z.eqb ?a ?b] => destruct (Z.eqb_spec a b); subst; cbn [andb]
            end); try reflexivity.
    exfalso. apply E. reflexivity.
Qed.

Lemma CIDRMask_32 n : 0 <= n <= 32 -> CIDRMask n 32 = maskBytes 4 n.
Proof.
  intros Hn. unfold CIDRMask. cbn [Z.eqb negb andb].
  destruct (Z.ltb_spec n 0); [lia|]. destruct (Z.ltb_spec 32 n); [lia|]. reflexivity.
Qed.

Lemma CIDRMask_128 n : 0 <= n <= 128 -> CIDRMask n 128 = maskBytes 16 n.
Proof.
  intros Hn. unfold CIDRMask. cbn [Z.eqb negb andb].
  destruct (Z.ltb_spec n 0); [lia|]. destruct (Z.ltb_spec 128 n); [lia|]. reflexivity.
Qed.

Lemma masked_bytesBE L n v :
  0 <= n <= 8 * Z.of_nat L ->
  zip_with Z.land (bytesBE L v) (maskBytes L n)
  = bytesBE L (base (8 * Z.of_nat L) n v).
Proof.
  intros Hn.
  pose proof (masked_wf L n (bytesBE L v) (bytesBE_length _ _) (bytesBE_wf _ _) Hn) as Hw.
  pose proof (masked_length L n (bytesBE L v) (bytesBE_length _ _)) as Hl.
  rewrite <- (bytesBE_val _ Hw), Hl. f_equal.
  rewrite val_masked by auto using bytesBE_length, bytesBE_wf.
  rewrite val_bytesBE, pow256. reflexivity.
Qed.

Lemma Mask_Addr4 v n :
  0 <= n <= 32 ->
  Mask (As16 (Addr4 v)) (maskBytes 4 n) = bytesBE 4 (base 32 n v).
Proof.
  intros Hn. unfold Mask, As16.
  rewrite maskBytes_length, length_app, bytesBE_length.
  change (length v4InV6Prefix) with 12%nat.
  cbn [Nat.add Nat.eqb IPv4len IPv6len andb negb].
  assert (Hp : hasV4Prefix (v4InV6Prefix ++ bytesBE 4 v) = true).
  { unfold hasV4Prefix. apply bool_decide_eq_true. reflexivity. }
  rewrite Hp.
  change (skipn 12 (v4InV6Prefix ++ bytesBE 4 v)) with (bytesBE 4 v).
  rewrite !maskBytes_length. cbn [Nat.eqb IPv4len andb].
  rewrite bytesBE_length. cbn [Nat.eqb negb].
  apply (masked_bytesBE 4 n v). lia.
Qed.

Lemma Mask_Addr6 v n :
  0 <= n <= 128 ->
  Mask (As16 (Addr6 v)) (maskBytes 16 n) = bytesBE 16 (base 128 n v).
Proof.
  intros Hn. unfold Mask, As16.
  rewrite maskBytes_length, bytesBE_length.
  cbn [Nat.eqb IPv4len IPv6len andb negb].
  rewrite !maskBytes_length. cbn [Nat.eqb IPv4len andb].
  rewrite bytesBE_length. cbn [Nat.eqb negb].
  apply (masked_bytesBE 16 n v). lia.
Qed.

Lemma ParseCIDR_Addr4 v n :
  0 <= n <= 32 -> ParseCIDR (Addr4 v) n = Some (As16 (Addr4 v), net4 v n).
Proof.
  intros Hn. unfold ParseCIDR. cbn [BitLen].
  destruct (Z.ltb_spec n 0); [lia|]. destruct (Z.ltb_spec 32 n); [lia|].
  cbn [orb]. rewrite CIDRMask_32, Mask_Addr4 by lia. reflexivity.
Qed.

Lemma ParseCIDR_Addr6 v n :
  0 <= n <= 128 -> ParseCIDR (Addr6 v) n = Some (As16 (Addr6 v), net6 v n).
Proof.
  intros Hn. unfold ParseCIDR. cbn [BitLen].
  destruct (Z.ltb_spec n 0); [lia|]. destruct (Z.ltb_spec 128 n); [lia|].
  cbn [orb]. rewrite CIDRMask_128, Mask_Addr6 by lia. reflexivity.
Qed.

Lemma ParseCIDR_invalid a n :
  n < 0 \/ BitLen a < n -> ParseCIDR a n = None.
Proof.
  intros Hn. unfold ParseCIDR.
  destruct (Z.ltb_spec n 0); [reflexivity|].
  destruct (Z.ltb_spec (BitLen a) n); [reflexivity|lia].
Qed.

Lemma base_bounds bits n v :
  0 <= n <= bits ->
  0 <= base bits n v /\ base bits n v + 2 ^ (bits - n) <= 2 ^ bits.
Proof.
  intros Hn. unfold base.
  set (h := bits - n).
  assert (H2h : 0 < 2 ^ h) by (apply Z.pow_pos_nonneg; lia).
  assert (Hb : 0 < 2 ^ bits) by (apply Z.pow_pos_nonneg; lia).
  pose proof (Z.mod_pos_bound v (2 ^ bits) Hb) as Hv.
  set (w := v mod 2 ^ bits) in *.
  assert (Hp : 2 ^ bits = 2 ^ n * 2 ^ h).
  { rewrite <- Z.pow_add_r by lia. f_equal. lia. }
  assert (Hq : 0 <= w / 2 ^ h < 2 ^ n).
  { split; [apply Z.div_pos; lia|]. apply Z.div_lt_upper_bound; lia. }
  nia.
Qed.

Lemma base_div bits n v :
  0 <= n <= bits ->
  base bits n v / 2 ^ (bits - n) = v mod 2 ^ bits / 2 ^ (bits - n).
Proof.
  intros Hn. unfold base. apply Z.div_mul.
  assert (0 < 2 ^ (bits - n)) by (apply Z.pow_pos_nonneg; lia). lia.
Qed.

(** *** IPNet.Contains, by value *)
Lemma Contains_len4 B ip m :
  length B = 4%nat -> length ip = 4%nat -> length m = 4%nat ->
  Contains {| ipnet_IP := B; ipnet_Mask := m |} ip = sameMasked B ip m.
Proof.
  intros HB Hip Hm. unfold Contains, networkNumberAndMask. cbn [ipnet_IP ipnet_Mask].
  rewrite !To4_len4 by auto.
  destruct B as [|b B]; [discriminate|].
  unfold maskFor. rewrite Hm, HB. cbn [Nat.eqb IPv4len negb].
  destruct ip as [|i ip]; [discriminate|].
  rewrite Hip, HB. reflexivity.
Qed.

Lemma Contains_len16 B ip m :
  length B = 16%nat -> wf B -> length ip = 16%nat -> wf ip -> length m = 16%nat ->
  Contains {| ipnet_IP := B; ipnet_Mask := m |} ip =
  if mapped (val B)
  then (if mapped (val ip)
        then sameMasked (skipn 12 B) (skipn 12 ip) (skipn 12 m) else false)
  else (if mapped (val ip) then false else sameMasked B ip m).
Proof.
  intros HB WB Hip Wip Hm. unfold Contains, networkNumberAndMask.
  cbn [ipnet_IP ipnet_Mask].
  rewrite (To4_len16 B), (To4_len16 ip) by auto.
  assert (HsB : length (skipn 12 B) = 4%nat) by (rewrite length_skipn; lia).
  assert (Hsip : length (skipn 12 ip) = 4%nat) by (rewrite length_skipn; lia).
  destruct (mapped (val B)).
  - destruct (skipn 12 B) as [|b B'] eqn:EB; [discriminate|].
    unfold maskFor. rewrite Hm, HsB. cbn [Nat.eqb IPv4len IPv6len negb].
    destruct (mapped (val ip)).
    + destruct (skipn 12 ip) as [|i ip'] eqn:Eip; [discriminate|].
      rewrite Hsip, HsB. reflexivity.
    + rewrite Hip, HsB. reflexivity.
  - rewrite HB. cbn [Nat.eqb IPv6len negb].
    unfold maskFor. rewrite Hm, HB. cbn [Nat.eqb IPv4len IPv6len negb].
    destruct (mapped (val ip)).
    + destruct (skipn 12 ip) as [|i ip'] eqn:Eip; [discriminate|].
      rewrite Hsip, HB. reflexivity.
    + destruct ip as [|i ip']; [discriminate|]. rewrite Hip, HB. reflexivity.
Qed.

(** An IPv4 network contains exactly the addresses that agree with its
    base above the host bits. *)
Lemma Contains_net4 v n x :
  0 <= n <= 32 ->
  Contains (net4 v n) (bytesBE 4 x) = true <->
  x mod 2 ^ 32 / 2 ^ (32 - n) = base 32 n v / 2 ^ (32 - n).
Proof.
  intros Hn. unfold net4.
  rewrite Contains_len4 by auto using bytesBE_length, maskBytes_length.
  rewrite (sameMasked_spec 4 n) by (auto using bytesBE_length, bytesBE_wf; lia).
  rewrite !val_bytesBE.
  change (256 ^ Z.of_nat 4) with (2 ^ 32). change (8 * Z.of_nat 4) with 32.
  pose proof (base_bounds 32 n v Hn).
  rewrite (Z.mod_small (base 32 n v)) by lia.
  split; congruence.
Qed.

Lemma wf_skipn k ip : wf ip -> wf (skipn k ip).
Proof.
  intros H. rewrite <- (firstn_skipn k ip) in H. by apply wf_app in H as [_ ?].
Qed.

Lemma mapped_base_host v n :
  0 <= n <= 128 -> mapped (base 128 n v) = true -> 96 <= n.
Proof.
  intros Hn Hm. unfold mapped in Hm. apply Z.eqb_eq in Hm.
  destruct (Z.le_gt_cases 96 n) as [|Hlt]; [assumption|exfalso].
  unfold base in Hm.
  set (q := v mod 2 ^ 128 / 2 ^ (128 - n)) in *.
  replace (2 ^ (128 - n)) with (2 ^ (95 - n) * 2 * 2 ^ 32) in Hm.
  2:{ change 2 with (2 ^ 1) at 2. rewrite <- !Z.pow_add_r by lia. f_equal. lia. }
  rewrite !Z.mul_assoc, Z.div_mul in Hm by lia. lia.
Qed.

Lemma div_pow_split x h k :
  0 <= h -> 0 <= k -> x / 2 ^ (h + k) = x / 2 ^ h / 2 ^ k.
Proof.
  intros Hh Hk. rewrite Z.pow_add_r by lia. symmetry.
  apply Z.div_div; try apply Z.pow_nonzero; try apply Z.pow_pos_nonneg; lia.
Qed.

(** Two IPv4-mapped addresses agree above [h <= 32] bits exactly when
    their IPv4 parts do. *)
Lemma mapped_agree x y h :
  0 <= h <= 32 -> mapped x = true -> mapped y = true ->
  (x mod 2 ^ 32 / 2 ^ h = y mod 2 ^ 32 / 2 ^ h <-> x / 2 ^ h = y / 2 ^ h).
Proof.
  intros Hh Hx Hy. unfold mapped in *.
  apply Z.eqb_eq in Hx. apply Z.eqb_eq in Hy.
  assert (H2h : 0 < 2 ^ h) by (apply Z.pow_pos_nonneg; lia).
  assert (Hp : 2 ^ 32 = 2 ^ (32 - h) * 2 ^ h).
  { rewrite <- Z.pow_add_r by lia. f_equal. lia. }
  assert (Hd : forall z, z / 2 ^ 32 = 65535 ->
            z / 2 ^ h = 65535 * 2 ^ (32 - h) + z mod 2 ^ 32 / 2 ^ h).
  { intros z Hz.
    pose proof (Z.div_mod z (2 ^ 32) ltac:(lia)) as D. rewrite Hz in D.
    transitivity ((65535 * 2 ^ (32 - h) * 2 ^ h + z mod 2 ^ 32) / 2 ^ h).
    - f_equal. nia.
    - apply Z.div_add_l. lia. }
  rewrite (Hd x Hx), (Hd y Hy). lia.
Qed.

Lemma agree_mapped x y h :
  0 <= h <= 32 -> x / 2 ^ h = y / 2 ^ h -> mapped x = mapped y.
Proof.
  intros Hh E. unfold mapped.
  replace 32 with (h + (32 - h)) by lia.
  rewrite !div_pow_split by lia. by rewrite E.
Qed.

(** An IPv6 network contains the addresses that agree with its base above
    the host bits, except that a network whose base is not IPv4-mapped
    contains no IPv4-mapped address: Contains converts such an address to
    its 4-byte form and finds the lengths different. *)
Lemma Contains_net6 v n x :
  0 <= n <= 128 ->
  Contains (net6 v n) (bytesBE 16 x) = true <->
  x mod 2 ^ 128 / 2 ^ (128 - n) = base 128 n v / 2 ^ (128 - n)
  /\ (mapped (base 128 n v) = true \/ mapped (x mod 2 ^ 128) = false).
Proof.
  intros Hn. unfold net6.
  pose proof (base_bounds 128 n v Hn) as HB.
  rewrite Contains_len16
    by auto using bytesBE_length, maskBytes_length, bytesBE_wf.
  rewrite !val_bytesBE. change (256 ^ Z.of_nat 16) with (2 ^ 128).
  rewrite (Z.mod_small (base 128 n v)) by lia.
  set (B := base 128 n v) in *. set (x' := x mod 2 ^ 128).
  assert (Hx' : val (bytesBE 16 x) = x').
  { rewrite val_bytesBE. reflexivity. }
  assert (HBv : val (bytesBE 16 B) = B).
  { rewrite val_bytesBE. apply Z.mod_small. change (256 ^ Z.of_nat 16) with (2 ^ 128). lia. }
  destruct (mapped B) eqn:EB.
  - pose proof (mapped_base_host v n Hn EB) as Hn96.
    destruct (mapped x') eqn:Ex.
    + change 16%nat with (12 + 4)%nat at 3.
      rewrite maskBytes_skip by lia.
      rewrite (sameMasked_spec 4 (n - 8 * Z.of_nat 12))
        by (rewrite ?length_skipn, ?bytesBE_length; auto using wf_skipn, bytesBE_wf; lia).
      destruct (val_split16 (bytesBE 16 B) (bytesBE_length _ _) (bytesBE_wf _ _)) as [_ <-].
      destruct (val_split16 (bytesBE 16 x) (bytesBE_length _ _) (bytesBE_wf _ _)) as [_ <-].
      rewrite Hx', HBv.
      replace (8 * Z.of_nat 4 - (n - 8 * Z.of_nat 12)) with (128 - n) by lia.
      rewrite (mapped_agree B x' (128 - n)) by (auto; lia).
      split; [intros E; split; [congruence | by left] | intros [E _]; congruence].
    + split; [discriminate|]. intros [E _].
      rewrite (agree_mapped x' B (128 - n)) in Ex by (auto; lia). congruence.
  - destruct (mapped x') eqn:Ex.
    + split; [discriminate|]. intros [_ [?|?]]; discriminate.
    + rewrite (sameMasked_spec 16 n)
        by (auto using bytesBE_length, bytesBE_wf; lia).
      rewrite Hx', HBv. change (8 * Z.of_nat 16) with 128.
      split; [intros E; split; [congruence | by right] | intros [E _]; congruence].
Qed.

(** *** The loop of expandCIDR *)
Lemma inc_bytesBE L x : inc (bytesBE L x) = bytesBE L (x + 1).
Proof.
  apply val_inj.
  - apply inc_wf, bytesBE_wf.
  - apply bytesBE_wf.
  - by rewrite inc_length, !bytesBE_length.
  - rewrite val_inc by apply bytesBE_wf.
    rewrite !val_bytesBE, bytesBE_length.
    assert (0 < 256 ^ Z.of_nat L) by (apply Z.pow_pos_nonneg; lia).
    by rewrite Z.add_mod_idemp_l by lia.
Qed.

Lemma targets_length L B k : 0 <= k -> Z.of_nat (length (targets L B k)) = k.
Proof. intros Hk. unfold targets. rewrite length_map, length_seqZ. lia. Qed.

Lemma targets_cons L B k :
  0 < k -> targets L B k = IP_String (bytesBE L B) :: targets L (B + 1) (k - 1).
Proof.
  intros Hk. unfold targets. rewrite seqZ_cons by lia. cbn [map].
  do 2 f_equal. 
Qed.

Lemma expandLoop_run ipnet L (k : nat) :
  forall B fuel acc,
  (forall x, B <= x < B + Z.of_nat k -> Contains ipnet (bytesBE L x) = true) ->
  Contains ipnet (bytesBE L (B + Z.of_nat k)) = false ->
  (k < fuel)%nat ->
  expandLoop fuel ipnet (bytesBE L B) acc = Some (acc ++ targets L B (Z.of_nat k)).
Proof.
  induction k as [|k IH]; intros B fuel acc Hin Hout Hf.
  - destruct fuel as [|fuel]; [lia|]. cbn [expandLoop].
    rewrite Z.add_0_r in Hout. rewrite Hout.
    unfold targets. cbn. by rewrite app_nil_r.
  - destruct fuel as [|fuel]; [lia|]. cbn [expandLoop].
    rewrite Hin by lia. rewrite inc_bytesBE.
    rewrite IH.
    + rewrite (targets_cons L B (Z.of_nat (S k))) by lia.
      rewrite <- app_assoc. cbn [app]. do 4 f_equal. lia.
    + intros x Hx. apply Hin. lia.
    + replace (B + 1 + Z.of_nat k) with (B + Z.of_nat (S k)) by lia. exact Hout.
    + lia.
Qed.

Lemma expandLoop_diverges ipnet L :
  (forall x, Contains ipnet (bytesBE L x) = true) ->
  forall fuel B acc, expandLoop fuel ipnet (bytesBE L B) acc = None.
Proof.
  intros Hin fuel. induction fuel as [|fuel IH]; intros B acc; cbn [expandLoop].
  - reflexivity.
  - rewrite Hin, inc_bytesBE. apply IH.
Qed.

Lemma dropEnds_targets L B k :
  2 <= k -> dropEnds (targets L B k) = targets L (B + 1) (k - 2).
Proof.
  intros Hk. unfold dropEnds.
  rewrite (targets_cons L B k) by lia. cbn [skipn length].
  unfold targets. rewrite length_map, length_seqZ.
  replace (B + 1) with (B + 1 + 0) at 2 by lia.
  replace (k - 1) with ((k - 2) + 1) at 2 by lia.
  rewrite seqZ_app by lia. rewrite map_app.
  rewrite Z.add_0_r.
  apply take_app_length'. rewrite length_map, length_seqZ. lia.
Qed.

Lemma div_block q T x : 0 < T -> q * T <= x < q * T + T -> x / T = q.
Proof.
  intros HT Hx. symmetry. apply (Z.div_unique x T q (x - q * T)); lia.
Qed.

Lemma base_block bits n v x :
  0 <= n <= bits ->
  base bits n v <= x < base bits n v + 2 ^ (bits - n) ->
  x / 2 ^ (bits - n) = base bits n v / 2 ^ (bits - n).
Proof.
  intros Hn Hx.
  assert (HT : 0 < 2 ^ (bits - n)) by (apply Z.pow_pos_nonneg; lia).
  rewrite base_div by lia. unfold base in Hx.
  apply div_block; lia.
Qed.

Lemma base_next bits n v :
  0 <= n <= bits ->
  (base bits n v + 2 ^ (bits - n)) / 2 ^ (bits - n)
  = base bits n v / 2 ^ (bits - n) + 1.
Proof.
  intros Hn.
  assert (HT : 0 < 2 ^ (bits - n)) by (apply Z.pow_pos_nonneg; lia).
  rewrite base_div by lia. unfold base.
  apply div_block; lia.
Qed.

(** *** IPv4 ranges *)
(** With no prefix bit the mask is zero and every address is inside. *)
Lemma Contains_net4_slash0 v x : Contains (net4 v 0) (bytesBE 4 x) = true.
Proof.
  apply Contains_net4; [lia|].
  change (2 ^ (32 - 0)) with (2 ^ 32).
  pose proof (base_bounds 32 0 v ltac:(lia)).
  pose proof (Z.mod_pos_bound x (2 ^ 32) ltac:(lia)).
  change (2 ^ (32 - 0)) with (2 ^ 32) in *.
  rewrite !Z.div_small; lia.
Qed.

Lemma expandLoop_net4 v n fuel :
  1 <= n <= 32 -> 2 ^ (32 - n) < Z.of_nat fuel ->
  expandLoop fuel (net4 v n) (bytesBE 4 (base 32 n v)) []
  = Some (targets 4 (base 32 n v) (2 ^ (32 - n))).
Proof.
  intros Hn Hf.
  assert (HT : 0 < 2 ^ (32 - n)) by (apply Z.pow_pos_nonneg; lia).
  pose proof (base_bounds 32 n v ltac:(lia)) as HB.
  rewrite <- (Z2Nat.id (2 ^ (32 - n))) by lia.
  rewrite (expandLoop_run (net4 v n) 4 (Z.to_nat (2 ^ (32 - n)))); [reflexivity|..].
  - intros x Hx. rewrite Z2Nat.id in Hx by lia.
    apply Contains_net4; [lia|].
    rewrite Z.mod_small by lia. apply base_block; lia.
  - rewrite Z2Nat.id by lia.
    destruct (Contains (net4 v n) _) eqn:E; [exfalso|reflexivity].
    apply Contains_net4 in E; [|lia].
    destruct (Z.eq_dec (base 32 n v + 2 ^ (32 - n)) (2 ^ 32)) as [Hw|Hw].
    + rewrite Hw, Z.mod_same in E by lia.
      rewrite Z.div_0_l in E by lia.
      assert (Hq : base 32 n v / 2 ^ (32 - n) * 2 ^ (32 - n) = base 32 n v).
      { rewrite base_div by lia. reflexivity. }
      assert (Hlt : 2 ^ (32 - n) < 2 ^ 32) by (apply Z.pow_lt_mono_r; lia).
      rewrite <- E in Hq. lia.
    + rewrite Z.mod_small in E by lia.
      rewrite base_next in E by lia. lia.
  - lia.
Qed.

Lemma mapped_range x :
  mapped x = true <-> v4MappedBase <= x < v4MappedBase + 2 ^ 32.
Proof.
  unfold mapped, v4MappedBase. rewrite Z.eqb_eq. split.
  - intros E. pose proof (Z.div_mod x (2 ^ 32) ltac:(lia)) as D.
    pose proof (Z.mod_pos_bound x (2 ^ 32) ltac:(lia)). lia.
  - intros Hx. apply div_block; lia.
Qed.

Lemma not_mapped_range x :
  mapped x = false <-> x < v4MappedBase \/ v4MappedBase + 2 ^ 32 <= x.
Proof.
  pose proof (mapped_range x) as H. destruct (mapped x).
  - split; [discriminate|]. intros Hx. assert (true = true) as E by reflexivity.
    apply H in E. lia.
  - split; [|reflexivity]. intros _.
    destruct (Z.lt_ge_cases x v4MappedBase); [by left|].
    destruct (Z.lt_ge_cases x (v4MappedBase + 2 ^ 32)); [|by right].
    assert (false = true) by (apply H; lia). discriminate.
Qed.

Lemma count6_bounds v n :
  0 <= n <= 128 -> 0 < count6 v n <= 2 ^ (128 - n).
Proof.
  intros Hn. unfold count6.
  assert (0 < 2 ^ (128 - n)) by (apply Z.pow_pos_nonneg; lia).
  destruct (mapped _); [lia|].
  destruct (Z.ltb_spec (base 128 n v) v4MappedBase); lia.
Qed.

Lemma expandLoop_net6 v n fuel :
  0 <= n <= 128 -> count6 v n < Z.of_nat fuel ->
  expandLoop fuel (net6 v n) (bytesBE 16 (base 128 n v)) []
  = Some (targets 16 (base 128 n v) (count6 v n)).
Proof.
  intros Hn Hf.
  pose proof (count6_bounds v n Hn) as Hc.
  pose proof (base_bounds 128 n v Hn) as HB.
  assert (HT : 0 < 2 ^ (128 - n)) by (apply Z.pow_pos_nonneg; lia).
  assert (H128 : 2 ^ 128 = 340282366920938463463374607431768211456) by reflexivity.
  assert (HM : v4MappedBase = 281470681743360) by reflexivity.
  assert (H32 : 2 ^ 32 = 4294967296) by reflexivity.
  rewrite <- (Z2Nat.id (count6 v n)) by lia.
  rewrite (expandLoop_run (net6 v n) 16 (Z.to_nat (count6 v n))); [reflexivity|..].
  - intros x Hx. rewrite Z2Nat.id in Hx by lia.
    apply Contains_net6; [lia|].
    rewrite Z.mod_small by lia. split; [apply base_block; lia|].
    unfold count6 in Hx.
    destruct (mapped (base 128 n v)) eqn:EB; [by left|right].
    apply not_mapped_range. apply not_mapped_range in EB.
    destruct (Z.ltb_spec (base 128 n v) v4MappedBase); lia.
  - rewrite Z2Nat.id by lia.
    destruct (Contains (net6 v n) _) eqn:E; [exfalso|reflexivity].
    apply Contains_net6 in E as [E1 E2]; [|lia].
    unfold count6 in E1, E2.
    destruct (mapped (base 128 n v)) eqn:EB.
    + pose proof (mapped_base_host v n Hn EB) as Hn96.
      apply mapped_range in EB.
      assert (2 ^ (128 - n) <= 2 ^ 32) by (apply Z.pow_le_mono_r; lia).
      rewrite Z.mod_small in E1 by lia.
      rewrite base_next in E1 by lia. lia.
    + destruct E2 as [?|E2]; [discriminate|].
      apply not_mapped_range in EB. apply not_mapped_range in E2.
      destruct (Z.ltb_spec (base 128 n v) v4MappedBase) as [Hlt|Hge].
      * replace (base 128 n v + (Z.min (base 128 n v + 2 ^ (128 - n)) v4MappedBase - base 128 n v))
          with (Z.min (base 128 n v + 2 ^ (128 - n)) v4MappedBase) in * by lia.
        destruct (Z.le_gt_cases (base 128 n v + 2 ^ (128 - n)) v4MappedBase) as [Hle|Hgt].
        -- rewrite Z.min_l in * by lia.
           rewrite Z.mod_small in E1 by lia.
           rewrite base_next in E1 by lia. lia.
        -- rewrite Z.min_r in * by lia.
           rewrite Z.mod_small in E2 by lia. lia.
      * destruct (Z.eq_dec (base 128 n v + 2 ^ (128 - n)) (2 ^ 128)) as [Hw|Hw].
        -- rewrite Hw, Z.mod_same in E1 by lia.
           rewrite Z.div_0_l in E1 by lia.
           assert (Hq : base 128 n v / 2 ^ (128 - n) * 2 ^ (128 - n) = base 128 n v).
           { rewrite base_div by lia. reflexivity. }
           rewrite <- E1 in Hq. lia.
        -- rewrite Z.mod_small in E1 by lia.
           rewrite base_next in E1 by lia. lia.
  - lia.
Qed.

Lemma trim_targets L B k :
  0 <= k ->
  (if 2 <? Z.of_nat (length (targets L B k))
   then dropEnds (targets L B k) else targets L B k) = trimmed L B k.
Proof.
  intros Hk. rewrite targets_length by lia. unfold trimmed.
  destruct (Z.ltb_spec 2 k); [apply dropEnds_targets; lia | reflexivity].
Qed.

(** An IPv4 range with at least one prefix bit: all [2 ^ (32 - n)] addresses
    of the masked range are collected in ascending order, and the first and
    the last are dropped when there are more than two. *)
Lemma expandCIDR_Addr4 v n fuel :
  1 <= n <= 32 -> 2 ^ (32 - n) < Z.of_nat fuel ->
  expandCIDR fuel (Addr4 v) n
  = Some (Ok (trimmed 4 (base 32 n v) (2 ^ (32 - n)))).
Proof.
  intros Hn Hf. unfold expandCIDR.
  rewrite ParseCIDR_Addr4 by lia.
  change (ipnet_Mask (net4 v n)) with (maskBytes 4 n).
  rewrite Mask_Addr4 by lia.
  rewrite expandLoop_net4 by lia.
  rewrite trim_targets; [reflexivity|].
  apply Z.pow_nonneg. lia.
Qed.

(** IPv4 with prefix length 0: the loop never ends. *)
Lemma expandCIDR_Addr4_slash0 v fuel : expandCIDR fuel (Addr4 v) 0 = None.
Proof.
  unfold expandCIDR. rewrite ParseCIDR_Addr4 by lia.
  change (ipnet_Mask (net4 v 0)) with (maskBytes 4 0).
  rewrite Mask_Addr4 by lia.
  rewrite (expandLoop_diverges (net4 v 0) 4); [reflexivity|].
  apply Contains_net4_slash0.
Qed.

Lemma expandCIDR_Addr6 v n fuel :
  0 <= n <= 128 -> count6 v n < Z.of_nat fuel ->
  expandCIDR fuel (Addr6 v) n
  = Some (Ok (trimmed 16 (base 128 n v) (count6 v n))).
Proof.
  intros Hn Hf. unfold expandCIDR.
  rewrite ParseCIDR_Addr6 by lia.
  change (ipnet_Mask (net6 v n)) with (maskBytes 16 n).
  rewrite Mask_Addr6 by lia.
  rewrite expandLoop_net6 by lia.
  rewrite trim_targets; [reflexivity|].
  pose proof (count6_bounds v n Hn). lia.
Qed.

End ExpanderFacts.

(** ** The concurrency guard *)

Section GuardFacts.
Import Guard.

(** The flag is set exactly while one call is scanning. *)
Lemma guard_invariant p :
  reachable p -> scanning p = if isScanning (guard p) then 1%nat else 0%nat.
Proof.
  induction 1 as [|p e p' Hr IH Hs]; [reflexivity|].
  destruct Hs as [p|p method|p|p n Hc|p now n Hn]; cbn [guard scanning]; auto.
  - unfold runScan_enter. destruct (isScanning (guard p)) eqn:E; cbn in *; rewrite ?E, ?IH; reflexivity.
  - rewrite Hn in IH. unfold runScan_exit. cbn.
    destruct (isScanning (guard p)); [lia|discriminate].
Qed.


(** C1.  In every reachable state of the process at most one call of
    runScan is scanning.  While one is, a POST to /trigger answers
    already_running and changes nothing (no runScan is started), and a call
    of runScan that reaches the critical section returns without scanning.
    When the scanning call returns, the flag is cleared, the time of
    completion is stored, and no scan is in progress. *)
Theorem C1_at_most_one_scan p :
  reachable p ->
  (scanning p <= 1)%nat
  /\ (scanning p = 1%nat ->
      forall p', step p (Trigger "POST") p' ->
                 fst (trigger "POST" (guard p)) = already_running /\ p' = p)
  /\ (scanning p = 1%nat ->
      forall p', step p Enter p' ->
                 snd (runScan_enter (guard p)) = false
                 /\ scanning p' = 1%nat /\ guard p' = guard p)
  /\ (forall now p', step p (Exit now) p' ->
                     isScanning (guard p') = false
                     /\ lastScanTime (guard p') = now
                     /\ scanning p' = 0%nat).
Proof.
  intros Hr. pose proof (guard_invariant p Hr) as Hinv.
  repeat split.
  - destruct (isScanning (guard p)); lia.
  - unfold trigger. cbn. destruct (isScanning (guard p)); [reflexivity|lia].
  - inversion H0; subst. unfold trigger. cbn.
    destruct (isScanning (guard p)); [|lia]. cbn. by destruct p.
  - unfold runScan_enter. destruct (isScanning (guard p)); [reflexivity|lia].
  - inversion H0; subst. cbn [scanning]. unfold runScan_enter.
    destruct (isScanning (guard p)); [cbn; lia|lia].
  - inversion H0; subst. cbn [guard]. unfold runScan_enter.
    destruct (isScanning (guard p)); [reflexivity|lia].
  - inversion H; subst. reflexivity.
  - inversion H; subst. reflexivity.
  - inversion H; subst. cbn [scanning].
    match goal with Hn : scanning p = S _ |- _ => rewrite Hn in Hinv end.
    destruct (isScanning (guard p)); [lia|discriminate].
Qed.

Lemma C1_at_most_one_scan_witness :
  (scanning scanningProc <= 1)%nat
  /\ (scanning scanningProc = 1%nat ->
      forall p', step scanningProc (Trigger "POST") p' ->
                 fst (trigger "POST" (guard scanningProc)) = already_running
                 /\ p' = scanningProc)
  /\ (scanning scanningProc = 1%nat ->
      forall p', step scanningProc Enter p' ->
                 snd (runScan_enter (guard scanningProc)) = false
                 /\ scanning p' = 1%nat /\ guard p' = guard scanningProc)
  /\ (forall now p', step scanningProc (Exit now) p' ->
                     isScanning (guard p') = false
                     /\ lastScanTime (guard p') = now
                     /\ scanning p' = 0%nat).
Proof.
  apply (C1_at_most_one_scan scanningProc).
  apply (reach_step {| guard := initial; called := 1; scanning := 0 |} Enter).
  - apply (reach_step boot Call); [apply reach_boot | apply step_call].
  - exact (step_enter {| guard := initial; called := 1; scanning := 0 |} 0%nat eq_refl).
Defined.

End GuardFacts.

(** ** The delegated probe backend: failure policy *)

Section ZmapFacts.
Import Zmap.

Lemma scanNetworkPort_started z run network port :
  started run ->
  scanNetworkPort z run network port =
  let results := readRows port (rows run) in
  match cmdWait run with
  | Some _ =>
      match ctxErr run with
      | Some e => (results, Some e)
      | None =>
          if (Z.of_nat (length results) =? 0) && negb (String.eqb (stderrStr run) "")
          then ([], Some (wrap "zmap failed" (stderrStr run)))
          else (results, None)
      end
  | None => (results, None)
  end.
Proof.
  intros (H1 & H2 & H3 & H4 & H5 & H6). unfold scanNetworkPort.
  by rewrite H1, H2, H3, H4, H5, H6.
Qed.

(** C5, as the code has it.  When zmap was started and exits non-zero:
    if the context is not done, the call returns an error exactly when no
    address was parsed and zmap wrote to stderr, and otherwise returns the
    parsed addresses without error; if the context is done, it returns the
    parsed addresses together with the context's error. *)
Theorem C5_failure_policy z run network port :
  started run -> cmdWait run <> None ->
  let out := scanNetworkPort z run network port in
  let parsed := readRows port (rows run) in
  (ctxErr run = None ->
     (snd out <> None <-> parsed = [] /\ stderrStr run <> "")
     /\ (snd out = None -> fst out = parsed))
  /\ (forall e, ctxErr run = Some e -> out = (parsed, Some e)).
Proof.
  intros Hs Hw out parsed. subst out.
  rewrite scanNetworkPort_started by assumption. cbn zeta. fold parsed.
  destruct (cmdWait run) as [w|]; [clear Hw|congruence].
  split.
  - intros ->.
    destruct (Z.eqb_spec (Z.of_nat (length parsed)) 0) as [El|El];
      destruct (String.eqb_spec (stderrStr run) "") as [E|E]; cbn [andb negb fst snd].
    + split; [|reflexivity]. split; [congruence|]. intros [_ ?]. congruence.
    + assert (parsed = []) by (destruct parsed; [reflexivity|cbn in El; lia]).
      split; [|discriminate]. split; [auto|discriminate].
    + assert (parsed <> []) by (intros ->; cbn in El; lia).
      split; [|reflexivity]. split; [congruence|]. intros [? _]. congruence.
    + assert (parsed <> []) by (intros ->; cbn in El; lia).
      split; [|reflexivity]. split; [congruence|]. intros [? _]. congruence.
  - intros e ->. reflexivity.
Qed.


Lemma C5_failure_policy_witness :
  let out := scanNetworkPort someZmap cancelledRun "10.0.0.0/24" 80 in
  let parsed := readRows 80 (rows cancelledRun) in
  (ctxErr cancelledRun = None ->
     (snd out <> None <-> parsed = [] /\ stderrStr cancelledRun <> "")
     /\ (snd out = None -> fst out = parsed))
  /\ (forall e, ctxErr cancelledRun = Some e -> out = (parsed, Some e)).
Proof.
  apply (C5_failure_policy someZmap cancelledRun "10.0.0.0/24" 80).
  - repeat split.
  - discriminate.
Defined.

(** The claim as the specification words it fails when the context is
    done: zmap was started and exited non-zero, an address was parsed, and
    the call still returns an error. *)
Lemma C5_counterexample :
  let out := scanNetworkPort someZmap cancelledRun "10.0.0.0/24" 80 in
  started cancelledRun /\ cmdWait cancelledRun <> None
  /\ snd out <> None
  /\ ~ (readRows 80 (rows cancelledRun) = [] /\ stderrStr cancelledRun <> "").
Proof.
  cbn. repeat split; try discriminate. intros [H _]. vm_compute in H. discriminate.
Qed.

End ZmapFacts.

(** ** The admission gate of the native probe backend *)

Section GateFacts.
Import Probe.


Lemma begin_invariant t allIPs s0 :
  begin t allIPs = Dispatching s0 -> gateInvariant t s0.
Proof.
  unfold begin. destruct (Z.of_nat (length allIPs) =? 0); [discriminate|].
  destruct (Z.ltb_spec (Rate t) 0); [discriminate|].
  intros [= <-]. split; cbn; [reflexivity|lia].
Qed.

Lemma step_invariant t port s s' :
  step t port s s' -> gateInvariant t s -> gateInvariant t s'.
Proof.
  intros Hs [Hw Hc]. unfold gateInvariant.
  destruct Hs; cbn [sem workers]; try (split; assumption).
  - rewrite length_app. cbn [length]. split; lia.
  - match goal with H : workers s = _ |- _ => rewrite H in Hw end.
    rewrite length_app in *. cbn [length] in *. split; lia.
  - match goal with H : workers s = _ |- _ => rewrite H in Hw end.
    rewrite length_app in *. cbn [length] in *. split; lia.
Qed.

Lemma reaches_invariant t port s0 s :
  reaches t port s0 s -> gateInvariant t s0 -> gateInvariant t s.
Proof.
  induction 1 as [|s1 s2 s3 Hr IH Hs]; intros Hinv; [assumption|].
  eapply step_invariant; eauto.
Qed.

Lemma countDialing_le ws : (countDialing ws <= length ws)%nat.
Proof. unfold countDialing. apply List.filter_length_le. Qed.

(** C8.  In every state that a call of ScanPort reaches, each goroutine that
    has not released holds a token of the gate (the token is sent before
    the goroutine, and so its dial, starts), the goroutines that are
    dialing are at most t.Rate, and a goroutine whose dial has returned
    can release its token whether the dial succeeded or failed. *)
Theorem C8_rate_bounds_dialing t port allIPs s0 s :
  begin t allIPs = Dispatching s0 ->
  reaches t port s0 s ->
  sem s = length (workers s)
  /\ Z.of_nat (countDialing (workers s)) <= Rate t
  /\ (forall w ok, In w (workers s) -> phase w = Dialed ok ->
        exists s', step t port s s' /\ S (sem s') = sem s
                   /\ length (workers s') = sem s').
Proof.
  intros Hb Hr.
  pose proof (reaches_invariant t port s0 s Hr (begin_invariant t allIPs s0 Hb))
    as [Hw Hc].
  split; [assumption|]. split.
  - pose proof (countDialing_le (workers s)). lia.
  - intros w ok Hin Hph.
    apply in_split in Hin as (ws1 & ws2 & Hsplit).
    assert (Hn : exists n, sem s = S n).
    { rewrite Hw, Hsplit, length_app. cbn [length]. exists (length ws1 + length ws2)%nat. lia. }
    destruct Hn as [n Hn].
    eexists. split; [eapply (step_release t port s ws1 w ws2 ok n); eassumption|].
    cbn [sem workers]. split; [congruence|].
    rewrite Hw, Hsplit, length_app in Hn. cbn [length] in Hn.
    rewrite length_app. lia.
Qed.

Lemma C8_rate_bounds_dialing_witness :
  sem oneDialing = length (workers oneDialing)
  /\ Z.of_nat (countDialing (workers oneDialing)) <= Rate twoAtATime
  /\ (forall w ok, In w (workers oneDialing) -> phase w = Dialed ok ->
        exists s', step twoAtATime 80 oneDialing s' /\ S (sem s') = sem oneDialing
                   /\ length (workers s') = sem s').
Proof.
  apply (C8_rate_bounds_dialing twoAtATime 80 ["10.0.0.1"] oneTarget oneDialing).
  - reflexivity.
  - apply (reaches_step twoAtATime 80 oneTarget oneSending oneDialing).
    + apply (reaches_step twoAtATime 80 oneTarget oneTarget oneSending).
      * apply reaches_refl.
      * apply (step_check twoAtATime 80 oneTarget "10.0.0.1" []); reflexivity.
    + apply (step_dispatch twoAtATime 80 oneSending "10.0.0.1");
        [reflexivity | cbn; lia].
Defined.

End GateFacts.

(** ** Merging results *)

Section MergeFacts.

Lemma lookup_mergeInto (a b : HostPorts) ip :
  mergeInto a b !! ip =
  match a !! ip, b !! ip with
  | Some x, Some y => Some (x ++ y)
  | Some x, None => Some x
  | None, o => o
  end.
Proof.
  unfold mergeInto. rewrite lookup_union_with.
  destruct (a !! ip), (b !! ip); reflexivity.
Qed.

Lemma mergeInto_assoc (a b c : HostPorts) :
  mergeInto (mergeInto a b) c = mergeInto a (mergeInto b c).
Proof.
  apply map_eq. intros ip. rewrite !lookup_mergeInto.
  destruct (a !! ip), (b !! ip), (c !! ip); try reflexivity.
  by rewrite app_assoc.
Qed.

Lemma mergeInto_empty_l (a : HostPorts) : mergeInto ∅ a = a.
Proof.
  apply map_eq. intros ip. rewrite lookup_mergeInto, lookup_empty. reflexivity.
Qed.

Lemma mergeInto_empty_r (a : HostPorts) : mergeInto a ∅ = a.
Proof.
  apply map_eq. intros ip. rewrite lookup_mergeInto, lookup_empty.
  by destruct (a !! ip).
Qed.

Lemma addResult_mergeInto (m : HostPorts) r :
  addResult m r = mergeInto m (addResult ∅ r).
Proof.
  apply map_eq. intros ip. unfold addResult.
  rewrite lookup_mergeInto, lookup_empty. cbn [default app].
  destruct (decide (IP r = ip)) as [->|Hne].
  - rewrite !lookup_insert_eq. by destruct (m !! ip).
  - rewrite !lookup_insert_ne, lookup_empty by assumption. by destruct (m !! ip).
Qed.

Lemma addResults_mergeInto (m : HostPorts) rs :
  addResults m rs = mergeInto m (addResults ∅ rs).
Proof.
  revert m. induction rs as [|r rs IH]; intros m; cbn [addResults fold_left].
  - by rewrite mergeInto_empty_r.
  - fold (addResults (addResult m r) rs). fold (addResults (addResult ∅ r) rs).
    rewrite (IH (addResult m r)), (IH (addResult ∅ r)).
    rewrite (addResult_mergeInto m r). apply mergeInto_assoc.
Qed.

End MergeFacts.

(** ** All ports, native backend *)

Section ProbeAllPorts.
Import Probe.

Variable ScanPort : Z -> list ZmapResult * error.
Variable ctxDoneAfter : list Z -> bool.
Hypothesis notDone : forall h, ctxDoneAfter h = false.


Lemma scanPortsLoop_shape ports : forall st h,
  scanPortsLoop ScanPort ctxDoneAfter false ports st =
  ({| hostPorts :=
        mergeInto (hostPorts st)
          (hostPorts (fst (scanPortsLoop ScanPort ctxDoneAfter false ports (start h))));
      probed := probed st ++ ports;
      calls := calls st |}, None).
Proof.
  induction ports as [|p rest IH]; intros st h.
  - cbn. rewrite mergeInto_empty_r, app_nil_r. by destruct st.
  - cbn [scanPortsLoop]. rewrite !notDone.
    destruct (ScanPort p) as [pr [e|]]; cbn [andb start hostPorts probed calls].
    + rewrite (IH _ h). cbn [hostPorts probed calls].
      rewrite (IH {| hostPorts := ∅; probed := h ++ [p]; calls := [] |} h).
      cbn [fst hostPorts]. rewrite mergeInto_empty_l, <- app_assoc. reflexivity.
    + rewrite (IH _ h). cbn [hostPorts probed calls].
      rewrite (IH {| hostPorts := addResults ∅ pr; probed := h ++ [p]; calls := [] |} h).
      cbn [fst hostPorts].
      rewrite (addResults_mergeInto (hostPorts st)), mergeInto_assoc, <- app_assoc.
      reflexivity.
Qed.

Lemma ScanPorts_shape ports h :
  ScanPorts ScanPort ctxDoneAfter ports h =
  ({| hostPorts := found ScanPort ctxDoneAfter ports;
      probed := h ++ ports; calls := [] |}, None).
Proof.
  unfold ScanPorts, ScanPortsWithCallback.
  rewrite (scanPortsLoop_shape ports (start h) []).
  cbn [start hostPorts probed calls]. by rewrite mergeInto_empty_l.
Qed.

Lemma found_app l1 l2 :
  found ScanPort ctxDoneAfter (l1 ++ l2)
  = mergeInto (found ScanPort ctxDoneAfter l1) (found ScanPort ctxDoneAfter l2).
Proof.
  unfold found, ScanPorts, ScanPortsWithCallback.
  revert l2. generalize (start []) at 1 2.
  induction l1 as [|p l1 IH]; intros st l2.
  - cbn [app scanPortsLoop fst].
    rewrite (scanPortsLoop_shape l2 st []). cbn [fst hostPorts]. reflexivity.
  - cbn [app scanPortsLoop]. rewrite notDone.
    destruct (ScanPort p) as [pr [e|]]; cbn [andb]; apply IH.
Qed.

Lemma allPortsLoop_shape fuel : forall batchStart st,
  1 <= batchStart <= totalPorts + batchSize ->
  totalPorts + batchSize - batchStart < Z.of_nat fuel * batchSize ->
  allPortsLoop ScanPort ctxDoneAfter fuel batchStart st =
  Some {| hostPorts :=
            mergeInto (hostPorts st)
              (found ScanPort ctxDoneAfter
                 (seqZ batchStart (totalPorts + 1 - batchStart)));
          probed := probed st ++ seqZ batchStart (totalPorts + 1 - batchStart);
          calls := calls st |}.
Proof.
  unfold totalPorts, batchSize.
  induction fuel as [|fuel IH]; intros b st Hb Hf; [lia|].
  cbn [allPortsLoop]. unfold totalPorts, batchSize.
  destruct (Z.leb_spec b 65535) as [Hle|Hgt].
  - rewrite ScanPorts_shape. cbn [hostPorts probed calls].
    rewrite IH by lia. cbn [hostPorts probed calls].
    unfold portRange.
    destruct (Z.ltb_spec 65535 (b + 1000 - 1)) as [Hlast|Hmore].
    + rewrite (seqZ_nil (b + 1000)) by lia.
      change (found ScanPort ctxDoneAfter []) with (∅ : HostPorts).
      rewrite mergeInto_empty_r, app_nil_r.
      replace (65535 - b + 1) with (65535 + 1 - b) by lia. reflexivity.
    + replace (b + 1000 - 1 - b + 1) with 1000 by lia.
      replace (65535 + 1 - b) with (1000 + (65535 + 1 - (b + 1000))) by lia.
      rewrite seqZ_app by lia.
      rewrite found_app, mergeInto_assoc, <- app_assoc. reflexivity.
  - rewrite seqZ_nil by lia.
    change (found ScanPort ctxDoneAfter []) with (∅ : HostPorts).
    rewrite mergeInto_empty_r, app_nil_r. by destruct st.
Qed.

(** Without cancellation ScanAllPorts returns, and its batches amount to
    one scan of the ports 1, 2, ..., 65535 in this order. *)
Lemma ScanAllPorts_flat :
  ScanAllPorts ScanPort ctxDoneAfter
  = Some (ScanPorts ScanPort ctxDoneAfter (seqZ 1 65535) []).
Proof.
  unfold ScanAllPorts.
  rewrite allPortsLoop_shape by (unfold totalPorts, batchSize; lia).
  rewrite ScanPorts_shape. cbn [start hostPorts probed calls].
  rewrite mergeInto_empty_l. reflexivity.
Qed.

End ProbeAllPorts.

(** ** All ports, delegated backend *)

Section ZmapAllPorts.
Import Zmap.

Variable z : ZmapScanner.
Variable runOf : string -> Z -> Run.
Variable ctxDoneAfter : list (string * Z) -> bool.

Lemma batchLoop_app network l1 l2 st :
  batchLoop z runOf ctxDoneAfter network (l1 ++ l2) st =
  match batchLoop z runOf ctxDoneAfter network l1 st with
  | inl st' => batchLoop z runOf ctxDoneAfter network l2 st'
  | inr ret => inr ret
  end.
Proof.
  revert st. induction l1 as [|p l1 IH]; intros st; cbn [app batchLoop].
  - reflexivity.
  - destruct (scanOnePort z runOf ctxDoneAfter network p st); [apply IH|reflexivity].
Qed.

Lemma zmap_allPortsLoop_flat network fuel : forall batchStart st,
  1 <= batchStart <= totalPorts + batchSize ->
  totalPorts + batchSize - batchStart < Z.of_nat fuel * batchSize ->
  allPortsLoop z runOf ctxDoneAfter fuel network batchStart st =
  Some match batchLoop z runOf ctxDoneAfter network
               (seqZ batchStart (totalPorts + 1 - batchStart)) st with
       | inl st' => (st', None)
       | inr ret => ret
       end.
Proof.
  unfold totalPorts, batchSize.
  induction fuel as [|fuel IH]; intros b st Hb Hf; [lia|].
  cbn [allPortsLoop]. unfold totalPorts, batchSize, portRange.
  destruct (Z.leb_spec b 65535) as [Hle|Hgt].
  - destruct (Z.ltb_spec 65535 (b + 1000 - 1)) as [Hlast|Hmore].
    + replace (65535 - b + 1) with (65535 + 1 - b) by lia.
      destruct (batchLoop _ _ _ _ _ st) as [st'|ret]; [|reflexivity].
      rewrite IH by lia. rewrite seqZ_nil by lia. reflexivity.
    + replace (b + 1000 - 1 - b + 1) with 1000 by lia.
      replace (65535 + 1 - b) with (1000 + (65535 + 1 - (b + 1000))) by lia.
      rewrite seqZ_app by lia. rewrite batchLoop_app.
      destruct (batchLoop _ _ _ _ (seqZ b 1000) st) as [st'|ret]; [|reflexivity].
      apply IH; lia.
  - rewrite seqZ_nil by lia. reflexivity.
Qed.

(** scanNetworkAllPorts returns, and its batches amount to one loop over
    the ports 1, 2, ..., 65535, also when the context is cancelled on the
    way. *)
Lemma scanNetworkAllPorts_flat network h :
  scanNetworkAllPorts z runOf ctxDoneAfter network h
  = Some (scanPortsOneByOne z runOf ctxDoneAfter network (seqZ 1 65535) h).
Proof.
  unfold scanNetworkAllPorts, scanPortsOneByOne.
  rewrite zmap_allPortsLoop_flat by (unfold totalPorts, batchSize; lia).
  reflexivity.
Qed.

Lemma batchLoop_probed network ports :
  (forall l, ctxDoneAfter l = false) ->
  forall st, exists st',
    batchLoop z runOf ctxDoneAfter network ports st = inl st'
    /\ probed st' = probed st ++ map (pair network) ports.
Proof.
  intros Hnd. induction ports as [|p ports IH]; intros st; cbn [batchLoop map].
  - exists st. by rewrite app_nil_r.
  - unfold scanOnePort. rewrite Hnd.
    destruct (scanNetworkPort z (runOf network p) network p) as [rs [e|]];
      match goal with |- context [batchLoop _ _ _ _ _ ?s] => destruct (IH s) as (st' & -> & Hp) end;
      exists st'; (split; [reflexivity|]); rewrite Hp; cbn [probed];
      by rewrite <- app_assoc.
Qed.

Lemma scanPortsOneByOne_probed network ports h :
  (forall l, ctxDoneAfter l = false) ->
  snd (scanPortsOneByOne z runOf ctxDoneAfter network ports h) = None
  /\ probed (fst (scanPortsOneByOne z runOf ctxDoneAfter network ports h))
     = h ++ map (pair network) ports.
Proof.
  intros Hnd. unfold scanPortsOneByOne.
  destruct (batchLoop_probed network ports Hnd (start h)) as (st' & -> & Hp).
  split; [reflexivity|exact Hp].
Qed.

End ZmapAllPorts.

Section AllPorts.


(** C7, as the code has it.  With the all-ports setting both backends scan
    the 65535 ports 1, 2, ..., 65535 in ascending order; port 0 is not
    scanned.  The batches of 1000 change nothing: while the context is not
    cancelled the native backend returns what a scan of the ports 1 to
    65535 one by one returns, and the delegated backend does so in every
    case. *)
Theorem C7_all_ports_batches
    (ScanPort : Z -> list ZmapResult * error) (ctx : list Z -> bool)
    (z : Zmap.ZmapScanner) (runOf : string -> Z -> Zmap.Run)
    (zctx : list (string * Z) -> bool) (network : string) (h : list (string * Z)) :
  (forall l, ctx l = false) ->
  let oneByOne := Probe.ScanPorts ScanPort ctx (seqZ 1 65535) [] in
  let zOneByOne := Zmap.scanPortsOneByOne z runOf zctx network (seqZ 1 65535) h in
  Probe.ScanAllPorts ScanPort ctx = Some oneByOne
  /\ snd oneByOne = None
  /\ Probe.probed (fst oneByOne) = seqZ 1 65535
  /\ Zmap.scanNetworkAllPorts z runOf zctx network h = Some zOneByOne
  /\ ((forall l, zctx l = false) ->
      snd zOneByOne = None
      /\ Zmap.probed (fst zOneByOne) = h ++ map (pair network) (seqZ 1 65535)).
Proof.
  intros Hnd. cbn zeta.
  split; [apply ScanAllPorts_flat, Hnd|].
  rewrite ScanPorts_shape by exact Hnd.
  split; [reflexivity|]. split; [reflexivity|].
  split; [apply scanNetworkAllPorts_flat|].
  apply scanPortsOneByOne_probed.
Qed.

Lemma C7_all_ports_batches_witness :
  let oneByOne := Probe.ScanPorts Probe.silentPort neverDone (seqZ 1 65535) [] in
  let zOneByOne :=
    Zmap.scanPortsOneByOne Zmap.someZmap (fun _ _ => Zmap.cancelledRun) neverDone
      "10.0.0.0/24" (seqZ 1 65535) [] in
  Probe.ScanAllPorts Probe.silentPort neverDone = Some oneByOne
  /\ snd oneByOne = None
  /\ Probe.probed (fst oneByOne) = seqZ 1 65535
  /\ Zmap.scanNetworkAllPorts Zmap.someZmap (fun _ _ => Zmap.cancelledRun) neverDone
       "10.0.0.0/24" [] = Some zOneByOne
  /\ ((forall l, @neverDone (string * Z) l = false) ->
      snd zOneByOne = None
      /\ Zmap.probed (fst zOneByOne)
         = [] ++ map (pair "10.0.0.0/24") (seqZ 1 65535)).
Proof.
  apply (C7_all_ports_batches Probe.silentPort neverDone Zmap.someZmap
           (fun _ _ => Zmap.cancelledRun) neverDone "10.0.0.0/24" []).
  intros l. reflexivity.
Defined.

(** The claim as the specification words it, all 65536 ports, fails: the
    native backend returns after it has handed 65535 ports to ScanPort, and
    port 0 is not among them. *)
Lemma C7_counterexample :
  exists out,
    Probe.ScanAllPorts Probe.silentPort neverDone = Some out
    /\ Z.of_nat (length (Probe.probed (fst out))) = 65535
    /\ ~ In 0 (Probe.probed (fst out))
    /\ Z.of_nat (length (Probe.probed (fst out))) <> 65536.
Proof.
  eexists. split; [apply ScanAllPorts_flat; reflexivity|].
  rewrite ScanPorts_shape by reflexivity.
  cbn [fst Probe.probed app]. rewrite length_seqZ.
  split; [lia|]. split; [|lia].
  rewrite <- list_elem_of_In, elem_of_seqZ. lia.
Qed.

(** With the all-ports setting runScan calls ScanAllPorts of the selected
    backend. *)
Lemma allPorts_selects_ScanAllPorts cfg :
  Main.ScanAllPorts cfg = true ->
  Main.scanOf cfg = if Main.useZmap cfg then Main.ZmapScanAllPorts
                    else Main.TCPScanAllPorts.
Proof. intros H. unfold Main.scanOf. by rewrite H. Qed.

End AllPorts.

(** ** Fingerprinting *)

Section FingerprintFacts.
Import Fingerprint.

(** When the dial fails, each probe returns the info it started with. *)
Lemma probeFor_dial_fails w f ip port :
  (forall useTLS, dial w useTLS (address ip port) (Timeout f) = None) ->
  probeFor w f ip port = withName (presetName port) zeroInfo.
Proof.
  intros Hd. unfold probeFor, presetName.
  repeat match goal with
         | |- context [if ?b then _ else _] => destruct b
         end;
    unfold probeFTP, probeSMTP, probeGreeting, probeSSH, probeTelnet, probeHTTP,
      probePOP3, probeIMAP, probeLine, probeMySQL, probePostgreSQL, probeRedis,
      probeMongoDB, probeGeneric;
    rewrite Hd; reflexivity.
Qed.

Lemma presetName_default port :
  ~ In port renamedPorts ->
  (if String.eqb (presetName port) "" then getDefaultServiceName port
   else presetName port) = getDefaultServiceName port.
Proof.
  intros Hn. unfold presetName.
  repeat match goal with
         | |- context [Z.eqb port ?k] =>
             destruct (Z.eqb_spec port k) as [->|?]; cbn [orb];
             [try reflexivity; exfalso; apply Hn; cbn; tauto|]
         end.
  reflexivity.
Qed.

(** C3, as the code has it.  When the dial to ip:port fails, native
    fingerprinting returns a ServiceInfo whose banner, version and
    fingerprint data are empty and whose name is the one the port's probe
    presets (the default-table entry or "unknown" when the port has no
    probe of its own); this name is the default-table entry or "unknown"
    for every port other than 465, 587, 8000, 8080, 8443 and 8888. *)
Theorem C3_dial_failure w f ip port :
  (forall useTLS, dial w useTLS (address ip port) (Timeout f) = None) ->
  let info := fingerprintPort w f ip port in
  Banner info = "" /\ ServiceVersion info = "" /\ Fingerprint info = None
  /\ ServiceName info =
       (if String.eqb (presetName port) "" then getDefaultServiceName port
        else presetName port)
  /\ (~ In port renamedPorts -> ServiceName info = getDefaultServiceName port).
Proof.
  intros Hd info. subst info. unfold fingerprintPort.
  rewrite (probeFor_dial_fails w f ip port Hd).
  change (Banner (withName (presetName port) zeroInfo)) with "".
  change (ServiceName (withName (presetName port) zeroInfo)) with (presetName port).
  change (String.eqb "" "") with true. cbn [negb]. rewrite andb_false_r.
  change (ServiceName (withName (presetName port) zeroInfo)) with (presetName port).
  destruct (String.eqb (presetName port) "") eqn:E.
  - do 4 (split; [reflexivity|]).
    intros Hn. rewrite <- (presetName_default port Hn), E. reflexivity.
  - do 4 (split; [reflexivity|]).
    intros Hn. rewrite <- (presetName_default port Hn), E. reflexivity.
Qed.

Lemma C3_dial_failure_witness :
  let info := fingerprintPort unreachable NewFingerprinter "10.0.0.9" 22 in
  Banner info = "" /\ ServiceVersion info = "" /\ Fingerprint info = None
  /\ ServiceName info =
       (if String.eqb (presetName 22) "" then getDefaultServiceName 22
        else presetName 22)
  /\ (~ In 22 renamedPorts -> ServiceName info = getDefaultServiceName 22).
Proof.
  apply (C3_dial_failure unreachable NewFingerprinter "10.0.0.9" 22).
  intros useTLS. reflexivity.
Defined.

(** The claim as the specification words it fails on port 465: nothing can
    be reached, and the name returned is "smtp", which is neither the
    entry of the default table, "smtps", nor "unknown". *)
Lemma C3_counterexample :
  let info := fingerprintPort unreachable NewFingerprinter "10.0.0.9" 465 in
  (forall useTLS,
     dial unreachable useTLS (address "10.0.0.9" 465) (Timeout NewFingerprinter) = None)
  /\ ServiceName info = "smtp"
  /\ getDefaultServiceName 465 = "smtps"
  /\ ServiceName info <> getDefaultServiceName 465
  /\ ServiceName info <> "unknown".
Proof.
  cbn zeta. split; [reflexivity|].
  assert (E : ServiceName (fingerprintPort unreachable NewFingerprinter "10.0.0.9" 465) = "smtp")
    by (vm_compute; reflexivity).
  assert (D : getDefaultServiceName 465 = "smtps") by (vm_compute; reflexivity).
  rewrite E, D. repeat split; discriminate.
Qed.

(** The end-to-end scenario of the specification: the listener's banner
    gives the name, the banner and the version. *)
Example fingerprint_ssh_listener :
  fingerprintPort sshListener NewFingerprinter "10.0.0.1" 22
  = {| ServiceName := "ssh"; ServiceVersion := "OpenSSH_9.0";
       Banner := "SSH-2.0-OpenSSH_9.0"; Fingerprint := None |}.
Proof. vm_compute. reflexivity. Qed.

(** *** FingerprintHost *)








End FingerprintFacts.

Section DelegatedFacts.
Import Fingerprint Zgrab.



(** When zgrab2 ran and its output decoded, there is no fallback, also
    when the result lacks the module or reports another status than
    "success": the ServiceInfo then has an empty fingerprint map, no banner,
    no version, and the name of the default table. *)
Lemma no_fallback_on_unsuccessful_module t z ip port result :
  runZgrab t z ip (zgrabArgs (getZgrabModule port) port) = inl result ->
  (Data result !! getZgrabModule port = None
   \/ exists m, Data result !! getZgrabModule port = Some m
                /\ Status m <> "success") ->
  Zgrab.fingerprintPort t z ip port
  = {| ServiceName := getDefaultServiceName port; ServiceVersion := "";
       Banner := ""; Fingerprint := Some ∅ |}.
Proof.
  intros Hrun Hmod. unfold Zgrab.fingerprintPort. rewrite Hrun.
  unfold parseZgrabResult.
  destruct Hmod as [-> | (m & -> & Hs)].
  - reflexivity.
  - destruct (String.eqb_spec (Status m) "success") as [E|E]; [contradiction|].
    reflexivity.
Qed.






End DelegatedFacts.

(** ** The claims about the address expander *)

Section ExpanderClaims.
Import Net Expander Ranges.

(** C2, at the range 0.0.0.0/0.  The loop of expandCIDR never ends: the
    mask is zero, every address is inside the network, and [inc] wraps
    from 255.255.255.255 to 0.0.0.0.  Whatever the number of rounds, the
    function has not returned. *)
Theorem C2_slash0_never_returns :
  forall fuel, expandCIDR fuel (ipv4 0 0 0 0) 0 = None.
Proof. intros fuel. apply expandCIDR_Addr4_slash0. Qed.

(** An IPv6 range that starts below the IPv4-mapped block and reaches into
    it is cut at ::ffff:0.0.0.0: for ::/64 the loop collects 2^48 - 2^32
    addresses instead of 2^64. *)
Lemma count6_straddle : count6 0 64 = 2 ^ 48 - 2 ^ 32.
Proof. reflexivity. Qed.

Lemma rangeSize_small a n :
  0 <= n <= BitLen a -> rangeSize a n <= 2 -> BitLen a - 1 <= n.
Proof.
  intros Hn Hs. unfold rangeSize in Hs.
  destruct (Z.le_gt_cases (BitLen a - 1) n) as [|Hlt]; [assumption|exfalso].
  assert (2 ^ 2 <= 2 ^ (BitLen a - n)) by (apply Z.pow_le_mono_r; lia).
  change (2 ^ 2) with 4 in *. lia.
Qed.

Lemma count6_small v n : 127 <= n <= 128 -> count6 v n = 2 ^ (128 - n).
Proof.
  intros Hn. unfold count6.
  destruct (mapped (base 128 n v)); [reflexivity|].
  destruct (Z.ltb_spec (base 128 n v) v4MappedBase) as [Hlt|]; [|reflexivity].
  assert (HM : v4MappedBase = 281470681743360) by reflexivity.
  assert (Hc : n = 127 \/ n = 128) by lia.
  destruct Hc as [-> | ->]; unfold base in *.
  - change (2 ^ (128 - 127)) with 2 in *. lia.
  - change (2 ^ (128 - 128)) with 1 in *. lia.
Qed.

(** C9.  A valid CIDR whose masked range has at most two addresses is
    expanded to the targets of all addresses of the range, in order, with
    none dropped; with a full-length prefix (an IPv4 /32 or an IPv6 /128)
    this is exactly one target. *)
Theorem C9_small_ranges_keep_all (a : Addr) (n : Z) (fuel : nat) :
  0 <= n <= BitLen a -> rangeSize a n <= 2 -> (3 <= fuel)%nat ->
  expandCIDR fuel a n
  = Some (Ok (targets (addrLen a) (rangeBase a n) (rangeSize a n)))
  /\ Z.of_nat (length (targets (addrLen a) (rangeBase a n) (rangeSize a n)))
     = rangeSize a n
  /\ (n = BitLen a ->
      expandCIDR fuel a n
      = Some (Ok [IP_String (bytesBE (addrLen a) (rangeBase a n))])).
Proof.
  intros Hn Hs Hf.
  pose proof (rangeSize_small a n Hn Hs) as Hlo.
  assert (Hpos : 0 < rangeSize a n) by (apply Z.pow_pos_nonneg; lia).
  assert (Hexp : expandCIDR fuel a n
                 = Some (Ok (targets (addrLen a) (rangeBase a n) (rangeSize a n)))).
  { unfold rangeBase, rangeSize in *. destruct a as [v|v]; cbn [BitLen addrLen addrVal] in *.
    - rewrite expandCIDR_Addr4 by lia. unfold trimmed.
      destruct (Z.ltb_spec 2 (2 ^ (32 - n))); [lia|reflexivity].
    - rewrite expandCIDR_Addr6 by (rewrite ?count6_small; lia).
      rewrite count6_small by lia. unfold trimmed.
      destruct (Z.ltb_spec 2 (2 ^ (128 - n))); [lia|reflexivity]. }
  split; [exact Hexp|]. split.
  - apply targets_length. lia.
  - intros ->. rewrite Hexp. unfold rangeSize.
    rewrite Z.sub_diag. change (2 ^ 0) with 1.
    rewrite targets_cons by lia. reflexivity.
Qed.

Lemma C9_small_ranges_keep_all_witness :
  expandCIDR 3 (ipv4 10 0 0 7) 31
  = Some (Ok (targets (addrLen (ipv4 10 0 0 7)) (rangeBase (ipv4 10 0 0 7) 31)
                (rangeSize (ipv4 10 0 0 7) 31)))
  /\ Z.of_nat (length (targets (addrLen (ipv4 10 0 0 7)) (rangeBase (ipv4 10 0 0 7) 31)
                         (rangeSize (ipv4 10 0 0 7) 31)))
     = rangeSize (ipv4 10 0 0 7) 31
  /\ (31 = BitLen (ipv4 10 0 0 7) ->
      expandCIDR 3 (ipv4 10 0 0 7) 31
      = Some (Ok [IP_String (bytesBE (addrLen (ipv4 10 0 0 7))
                               (rangeBase (ipv4 10 0 0 7) 31))])).
Proof.
  apply (C9_small_ranges_keep_all (ipv4 10 0 0 7) 31 3).
  - cbn. lia.
  - vm_compute. discriminate.
  - lia.
Defined.

(** The end-to-end scenario of the specification: 10.0.0.0/30 has four
    addresses and expands to the two in the middle. *)
Example expand_10_0_0_0_30 :
  expandCIDR 5 (ipv4 10 0 0 0) 30 = Some (Ok ["10.0.0.1"; "10.0.0.2"]).
Proof. vm_compute. reflexivity. Qed.

End ExpanderClaims.

(** ** The claim about banner sanitisation *)

Section BannerClaims.
Import Strings Banner.

(** C6, at a banner of a control byte, a blank and 600 letters.  The loop
    drops the control byte, the truncation keeps the blank and 511 letters
    and appends the ellipsis, and the final trim removes the blank: the
    result has 514 bytes.  Sanitizing it again truncates it to 512 bytes
    and appends a second ellipsis to the first dot of the first. *)
Theorem C6_sanitize_twice_differs :
  len (sanitizeBanner shiftedBanner) = 514
  /\ len (sanitizeBanner (sanitizeBanner shiftedBanner)) = 515
  /\ sanitizeBanner (sanitizeBanner shiftedBanner) <> sanitizeBanner shiftedBanner.
Proof.
  assert (H1 : len (sanitizeBanner shiftedBanner) = 514) by (vm_compute; reflexivity).
  assert (H2 : len (sanitizeBanner (sanitizeBanner shiftedBanner)) = 515)
    by (vm_compute; reflexivity).
  split; [exact H1|]. split; [exact H2|].
  intros E. rewrite E in H2. lia.
Qed.

End BannerClaims.

(** * Further properties of the code *)

(** ** More of package strings *)

Section MoreStringFacts.
Import Strings Fingerprint.

Lemma bytes_app s1 s2 : bytes (s1 +:+ s2) = bytes s1 ++ bytes s2.
Proof.
  induction s1 as [|c s1 IH]; [reflexivity|].
  change (String c s1 +:+ s2) with (String c (s1 +:+ s2)).
  unfold bytes in *. cbn [list_ascii_of_string app]. by rewrite IH.
Qed.

Lemma append_assoc s1 s2 s3 : (s1 +:+ s2) +:+ s3 = s1 +:+ (s2 +:+ s3).
Proof.
  induction s1 as [|c s1 IH]; [reflexivity|].
  change (String c ((s1 +:+ s2) +:+ s3) = String c (s1 +:+ (s2 +:+ s3))).
  by rewrite IH.
Qed.

Lemma of_bytes_app l1 l2 : of_bytes (l1 ++ l2) = of_bytes l1 +:+ of_bytes l2.
Proof.
  induction l1 as [|c l1 IH]; [reflexivity|].
  unfold of_bytes in *. cbn [string_of_list_ascii app]. rewrite IH. reflexivity.
Qed.

Lemma len_of_bytes l : len (of_bytes l) = Z.of_nat (length l).
Proof. unfold len. by rewrite length_of_bytes. Qed.

Lemma length_append s1 s2 :
  String.length (s1 +:+ s2) = (String.length s1 + String.length s2)%nat.
Proof. by rewrite <- !length_bytes, bytes_app, length_app. Qed.

Lemma cutByte_app c a b :
  Forall (fun x => x <> c) a -> cutByte c (a ++ c :: b) = Some (a, b).
Proof.
  induction 1 as [|x a Hx Ha IH]; cbn [app cutByte].
  - by rewrite Ascii.eqb_refl.
  - destruct (Ascii.eqb_spec x c); [contradiction|]. by rewrite IH.
Qed.

Lemma cutByte_none c a : Forall (fun x => x <> c) a -> cutByte c a = None.
Proof.
  induction 1 as [|x a Hx Ha IH]; cbn [cutByte]; [reflexivity|].
  destruct (Ascii.eqb_spec x c); [contradiction|]. by rewrite IH.
Qed.

(** A blank at the end does not change what is trimmed at the front. *)
Lemma trimRunes_snoc s2 s3 c l :
  asciiSpace c = true ->
  (forall a, s2 a c = false) -> (forall a b, s3 a b c = false) ->
  trimRunes s2 s3 (l ++ [c])
  = match trimRunes s2 s3 l with [] => [] | r => r ++ [c] end.
Proof.
  intros Hc H2 H3.
  remember (length l) as n eqn:Hn.
  assert (Hle : (length l <= n)%nat) by lia. clear Hn.
  revert l Hle. induction n as [|n IH]; intros l Hle.
  - destruct l; [|cbn in Hle; lia]. cbn. by rewrite Hc.
  - destruct l as [|c1 [|c2 [|c3 l3]]]; cbn [app trimRunes length] in *.
    + by rewrite Hc.
    + destruct (asciiSpace c1) eqn:E1.
      * by rewrite Hc.
      * rewrite H2. reflexivity.
    + destruct (asciiSpace c1) eqn:E1.
      * apply (IH [c2]). cbn. lia.
      * destruct (s2 c1 c2) eqn:E2.
        -- by rewrite Hc.
        -- rewrite H3. reflexivity.
    + destruct (asciiSpace c1) eqn:E1.
      * apply (IH (c2 :: c3 :: l3)). cbn. lia.
      * destruct (s2 c1 c2) eqn:E2.
        -- apply (IH (c3 :: l3)). cbn. lia.
        -- destruct (s3 c1 c2 c3) eqn:E3.
           ++ apply (IH l3). lia.
           ++ reflexivity.
Qed.

Lemma asciiSpace_low c : asciiSpace c = true -> (code c <? 128)%N = true.
Proof.
  unfold asciiSpace. cbn zeta. intros H. apply N.ltb_lt.
  apply orb_true_iff in H as [H|H].
  - apply andb_true_iff in H as [_ H]. apply N.leb_le in H. lia.
  - apply N.eqb_eq in H. lia.
Qed.

Lemma space2_blank a c : asciiSpace c = true -> space2 a c = false.
Proof.
  intros H. apply asciiSpace_low, N.ltb_lt in H. unfold space2.
  destruct (N.eqb_spec (code c) 133); [lia|].
  destruct (N.eqb_spec (code c) 160); [lia|]. by rewrite andb_false_r.
Qed.

Lemma space3_blank a b c : asciiSpace c = true -> space3 a b c = false.
Proof.
  intros H. apply asciiSpace_low, N.ltb_lt in H. unfold space3. cbn zeta.
  destruct (N.eqb_spec (code c) 128); [lia|].
  destruct (N.leb_spec 128 (code c)); [lia|].
  destruct (N.eqb_spec (code c) 168); [lia|].
  destruct (N.eqb_spec (code c) 169); [lia|].
  destruct (N.eqb_spec (code c) 175); [lia|].
  destruct (N.eqb_spec (code c) 159); [lia|].
  by rewrite !andb_false_r.
Qed.

Lemma trimSpaceBytes_snoc l c :
  asciiSpace c = true -> trimSpaceBytes (l ++ [c]) = trimSpaceBytes l.
Proof.
  intros Hc. unfold trimSpaceBytes, trimLeft.
  rewrite (trimRunes_snoc space2 space3 c l Hc)
    by (intros; auto using space2_blank, space3_blank).
  destruct (trimRunes space2 space3 l) as [|x r] eqn:E; [reflexivity|].
  unfold trimRight. rewrite rev_app_distr. cbn [rev app trimRunes].
  by rewrite Hc.
Qed.

(** TrimSpace of a text that ends in a blank. *)
Lemma TrimSpace_snoc s c :
  asciiSpace c = true -> TrimSpace (s +:+ String c "") = TrimSpace s.
Proof.
  intros Hc. unfold TrimSpace. rewrite bytes_app. cbn [bytes list_ascii_of_string].
  by rewrite trimSpaceBytes_snoc.
Qed.

Lemma TrimSpace_stripped s : Banner.stripped (bytes s) -> TrimSpace s = s.
Proof. intros H. unfold TrimSpace. by rewrite trimSpaceBytes_fix, of_bytes_bytes. Qed.

Lemma substring_bytes s : forall n m,
  String.substring n m s = of_bytes (take m (drop n (bytes s))).
Proof.
  induction s as [|c s IH]; intros n m.
  - destruct n, m; reflexivity.
  - destruct n as [|n].
    + destruct m as [|m]; [reflexivity|].
      cbn [String.substring bytes list_ascii_of_string drop take of_bytes string_of_list_ascii].
      f_equal. apply (IH 0%nat m).
    + cbn [String.substring bytes list_ascii_of_string drop]. apply IH.
Qed.

Lemma prefix_bytes p : forall s,
  String.prefix p s = true <-> exists r, bytes s = bytes p ++ r.
Proof.
  induction p as [|c p IH]; intros s.
  - split; [intros _; by exists (bytes s)|]. intros _. by destruct s.
  - destruct s as [|d s]; cbn [String.prefix].
    + split; [discriminate|]. intros [r Hr]. unfold bytes in Hr.
      cbn [list_ascii_of_string app] in Hr. discriminate Hr.
    + destruct (Ascii.ascii_dec c d) as [->|Hne].
      * rewrite IH. unfold bytes. cbn [list_ascii_of_string app].
        split; intros [r Hr]; exists r; [by rewrite Hr | by injection Hr].
      * split; [discriminate|]. intros [r Hr]. unfold bytes in Hr.
        cbn [list_ascii_of_string app] in Hr. congruence.
Qed.

Lemma prefix_of_bytes_app p r : String.prefix p (of_bytes (bytes p ++ r)) = true.
Proof. apply prefix_bytes. exists r. by rewrite bytes_of_bytes. Qed.

Lemma prefix_length p s :
  String.prefix p s = true -> (String.length p <= String.length s)%nat.
Proof.
  intros H. apply prefix_bytes in H as [r Hr].
  rewrite <- (length_bytes s), Hr, length_app, length_bytes. lia.
Qed.

Lemma prefix_app_long p a r :
  (String.length p <= length a)%nat ->
  String.prefix p (of_bytes (a ++ r)) = String.prefix p (of_bytes a).
Proof.
  intros Hl.
  destruct (String.prefix p (of_bytes a)) eqn:E.
  - apply prefix_bytes in E as [q Hq]. rewrite bytes_of_bytes in Hq. subst a.
    rewrite <- app_assoc. apply prefix_of_bytes_app.
  - destruct (String.prefix p (of_bytes (a ++ r))) eqn:E'; [|reflexivity].
    apply prefix_bytes in E' as [q Hq]. rewrite bytes_of_bytes in Hq.
    assert (Hp : String.prefix p (of_bytes a) = true); [|congruence].
    apply prefix_bytes. rewrite bytes_of_bytes.
    exists (drop (String.length p) a).
    rewrite <- (take_drop (String.length p) a) at 1. f_equal.
    apply (f_equal (take (String.length p))) in Hq.
    rewrite take_app_le in Hq by lia.
    rewrite <- (length_bytes p) in Hq at 2. rewrite take_app_length in Hq. exact Hq.
Qed.

Lemma HasPrefix_append p s : HasPrefix (p +:+ s) p = true.
Proof.
  unfold HasPrefix. apply prefix_bytes. exists (bytes s). apply bytes_app.
Qed.

Lemma TrimPrefix_append p s : TrimPrefix (p +:+ s) p = s.
Proof.
  unfold TrimPrefix. rewrite HasPrefix_append.
  rewrite substring_bytes, bytes_app, <- (length_bytes p), drop_app_length.
  rewrite length_append, length_bytes.
  replace (String.length p + String.length s - String.length p)%nat
    with (length (bytes s)) by (rewrite length_bytes; lia).
  by rewrite firstn_all, of_bytes_bytes.
Qed.

Lemma indexFrom_found_length sub : forall l i,
  0 <= i -> indexFrom i l sub <> -1 -> (String.length sub <= length l)%nat.
Proof.
  induction l as [|c l IH]; intros i Hi; cbn [indexFrom].
  - destruct (String.prefix sub (of_bytes [])) eqn:E; [|congruence].
    intros _. apply prefix_length in E. exact E.
  - destruct (String.prefix sub (of_bytes (c :: l))) eqn:E.
    + intros _. apply prefix_length in E. by rewrite length_of_bytes in E.
    + intros H. apply IH in H; [|lia]. cbn [length]. lia.
Qed.

(** What follows the first occurrence does not move it. *)
Lemma indexFrom_app sub r : forall l i,
  0 <= i -> indexFrom i l sub <> -1 ->
  indexFrom i (l ++ r) sub = indexFrom i l sub.
Proof.
  induction l as [|c l IH]; intros i Hi Hf.
  - pose proof (indexFrom_found_length sub [] i Hi Hf) as Hl.
    cbn [indexFrom] in Hf |- *.
    destruct (String.prefix sub (of_bytes [])) eqn:E; [|congruence].
    change ([] ++ r) with r.
    assert (Hp : String.prefix sub (of_bytes r) = true).
    { rewrite <- (prefix_app_long sub [] r Hl) in E. exact E. }
    destruct r; cbn [indexFrom]; by rewrite Hp.
  - pose proof (indexFrom_found_length sub (c :: l) i Hi Hf) as Hl.
    cbn [indexFrom app] in Hf |- *.
    change (c :: l ++ r) with ((c :: l) ++ r).
    rewrite (prefix_app_long sub (c :: l) r Hl).
    destruct (String.prefix sub (of_bytes (c :: l))); [reflexivity|].
    apply IH; [lia|exact Hf].
Qed.

Lemma Index_app s sub r :
  Index s sub <> -1 -> Index (s +:+ r) sub = Index s sub.
Proof.
  unfold Index. intros H. rewrite bytes_app. by apply indexFrom_app.
Qed.

Lemma ToLower_app s1 s2 : ToLower (s1 +:+ s2) = ToLower s1 +:+ ToLower s2.
Proof. unfold ToLower. by rewrite bytes_app, map_app, of_bytes_app. Qed.

Lemma ToLower_length s : String.length (ToLower s) = String.length s.
Proof. unfold ToLower. by rewrite length_of_bytes, length_map, length_bytes. Qed.

Lemma sliceFrom_app a b : sliceFrom (a +:+ b) (len a) = b.
Proof.
  unfold sliceFrom, len. rewrite Nat2Z.id, substring_bytes, bytes_app.
  rewrite <- (length_bytes a), drop_app_length.
  rewrite length_append, length_bytes.
  replace (String.length a + String.length b - String.length a)%nat
    with (length (bytes b)) by (rewrite length_bytes; lia).
  by rewrite firstn_all, of_bytes_bytes.
Qed.

Lemma slice_app a b c : slice (a +:+ b +:+ c) (len a) (len a + len b) = b.
Proof.
  unfold slice, len. rewrite Nat2Z.id, substring_bytes, !bytes_app.
  rewrite <- (length_bytes a), drop_app_length.
  replace (Z.to_nat (Z.of_nat (length (bytes a)) + Z.of_nat (String.length b)
                     - Z.of_nat (length (bytes a))))
    with (length (bytes b)) by (rewrite (length_bytes b); lia).
  by rewrite take_app_length, of_bytes_bytes.
Qed.

Lemma concat_cons sep x y l :
  String.concat sep (x :: y :: l) = x +:+ sep +:+ String.concat sep (y :: l).
Proof. reflexivity. Qed.

Lemma splitN_SS sep n l :
  splitN sep (S (S n)) l
  = match cutByte sep l with
    | Some (a, b) => a :: splitN sep (S n) b
    | None => [l]
    end.
Proof. reflexivity. Qed.

(** Splitting what was joined gives the parts back. *)
Lemma splitN_concat sep lines : forall line n,
  Forall (fun l => Forall (fun c => c <> sep) (bytes l)) (line :: lines) ->
  (length lines < n)%nat ->
  splitN sep n (bytes (String.concat (String sep "") (line :: lines)))
  = map bytes (line :: lines).
Proof.
  induction lines as [|q lines IH]; intros line n Hall Hn.
  - inversion Hall as [|? ? Hp _]; subst. cbn [String.concat map].
    destruct n as [|[|n]]; [cbn in Hn; lia|reflexivity|].
    rewrite splitN_SS. by rewrite cutByte_none.
  - inversion Hall as [|? ? Hp Hrest]; subst.
    rewrite concat_cons, !bytes_app.
    change (bytes (String sep "")) with [sep]. cbn [app].
    destruct n as [|[|n]]; [cbn in Hn; lia|cbn in Hn; lia|].
    rewrite splitN_SS. rewrite cutByte_app by assumption.
    change (map bytes (line :: q :: lines)) with (bytes line :: map bytes (q :: lines)).
    f_equal. apply IH; [assumption|cbn in Hn; lia].
Qed.

Lemma concat_length sep lines : forall line,
  (length lines <= String.length (String.concat (String sep "") (line :: lines)))%nat.
Proof.
  induction lines as [|q lines IH]; intros line; [cbn [length]; lia|].
  rewrite concat_cons, !length_append. specialize (IH q).
  cbn [length String.length] in *. lia.
Qed.

Lemma Split_concat sep line lines :
  Forall (fun l => Forall (fun c => c <> sep) (bytes l)) (line :: lines) ->
  Split (String.concat (String sep "") (line :: lines)) sep = line :: lines.
Proof.
  intros Hall. unfold Split, SplitN.
  rewrite splitN_concat
    by (try assumption; pose proof (concat_length sep lines line); lia).
  rewrite map_map. rewrite <- (map_id (line :: lines)) at 2.
  apply map_ext. intros l. apply of_bytes_bytes.
Qed.

End MoreStringFacts.

(** ** Service names and banners of the native prober *)

Section NameFacts.
Import Strings Banner Fingerprint.






End NameFacts.

Section BannerOfProbes.
Import Strings Banner Fingerprint.

Lemma tidy_sanitizeBanner s : tidy (sanitizeBanner s).
Proof.
  split.
  - unfold sanitizeBanner. rewrite bytes_of_bytes. apply sanitizeBytes_stripped.
  - pose proof (sanitizeBanner_length s) as H. cbn in H. exact H.
Qed.

(** A text is stripped when the three tests on its bytes succeed. *)
Lemma stripped_literal s :
  forallb printable (bytes s) = true ->
  match bytes s with [] => true | c :: _ => negb (asciiSpace c) end = true ->
  match rev (bytes s) with [] => true | c :: _ => negb (asciiSpace c) end = true ->
  stripped (bytes s).
Proof.
  intros Hp Hh Hl. split; [|split].
  - unfold clean. apply Forall_forall. intros c Hc.
    rewrite forallb_forall in Hp. apply Hp. by apply list_elem_of_In.
  - unfold noBlankAhead. destruct (bytes s); [exact I|]. by apply negb_true_iff.
  - unfold noBlankAhead. destruct (rev (bytes s)); [exact I|]. by apply negb_true_iff.
Qed.

Lemma tidy_literal s :
  forallb printable (bytes s) = true ->
  match bytes s with [] => true | c :: _ => negb (asciiSpace c) end = true ->
  match rev (bytes s) with [] => true | c :: _ => negb (asciiSpace c) end = true ->
  (String.length s <=? 515)%nat = true ->
  tidy s.
Proof.
  intros Hp Hh Hl Hn. split; [by apply stripped_literal|].
  unfold len. apply Nat.leb_le in Hn. lia.
Qed.

Lemma tidy_readBanner f c info :
  tidy (Banner info) -> tidy (Banner (readBanner f c info)).
Proof.
  intros H. unfold readBanner. destruct (connRead (MaxBanner f) c) as [data c'].
  destruct (0 <? len data); [cbn [Banner withBanner]; apply tidy_sanitizeBanner|exact H].
Qed.

Ltac tidy_step :=
  cbn [Banner withName withVersion withBanner withFingerprint setFingerprint zeroInfo];
  lazymatch goal with
  | |- tidy (sanitizeBanner _) => apply tidy_sanitizeBanner
  | |- tidy EmptyString => apply tidy_literal; reflexivity
  | |- tidy (String _ _) => apply tidy_literal; reflexivity
  | |- tidy (Banner (readBanner _ _ _)) => apply tidy_readBanner
  | |- tidy (Banner (match ?x with _ => _ end)) => destruct x eqn:?
  | |- tidy (Banner (let '(_, _) := ?x in _)) => destruct x eqn:?
  | |- tidy (Banner (if ?b then _ else _)) => destruct b eqn:?
  end.

Lemma tidy_probeGeneric w f ip port : tidy (Banner (probeGeneric w f ip port)).
Proof. unfold probeGeneric. cbn zeta. repeat tidy_step. Qed.

Lemma tidy_probeSSH w f ip port : tidy (Banner (probeSSH w f ip port)).
Proof. unfold probeSSH. cbn zeta. repeat tidy_step. Qed.

Lemma tidy_probeHTTP w f ip port useTLS : tidy (Banner (probeHTTP w f ip port useTLS)).
Proof. unfold probeHTTP. cbn zeta. repeat tidy_step. Qed.

Lemma tidy_probeGreeting w f name ip port :
  tidy (Banner (probeGreeting w f name ip port)).
Proof. unfold probeGreeting. cbn zeta. repeat tidy_step. Qed.

Lemma tidy_probeTelnet w f ip port : tidy (Banner (probeTelnet w f ip port)).
Proof. unfold probeTelnet. cbn zeta. repeat tidy_step. Qed.

Lemma tidy_probeLine w f name ip port : tidy (Banner (probeLine w f name ip port)).
Proof. unfold probeLine. cbn zeta. repeat tidy_step. Qed.

Lemma tidy_probePostgreSQL w f ip port : tidy (Banner (probePostgreSQL w f ip port)).
Proof. unfold probePostgreSQL. cbn zeta. repeat tidy_step. Qed.

Lemma tidy_probeRedis w f ip port : tidy (Banner (probeRedis w f ip port)).
Proof. unfold probeRedis. cbn zeta. repeat tidy_step. Qed.

Lemma tidy_probeMongoDB w f ip port : tidy (Banner (probeMongoDB w f ip port)).
Proof. unfold probeMongoDB. cbn zeta. repeat tidy_step. Qed.

(** X2.  For every port other than 3306 the banner that the native
    fingerprintPort returns consists of printable ASCII bytes, has no
    blank at either end and is at most 515 bytes long, as an output of
    sanitizeBanner is.  (The MySQL probe stores the version bytes of the
    handshake as they come.) *)
Theorem X2_native_banner_is_tidy w f ip port :
  port <> 3306 -> tidy (Banner (Fingerprint.fingerprintPort w f ip port)).
Proof.
  intros Hport. unfold Fingerprint.fingerprintPort. cbn zeta.
  assert (Hprobe : tidy (Banner (probeFor w f ip port))).
  { unfold probeFor, probeFTP, probeSMTP, probePOP3, probeIMAP.
    repeat match goal with
           | |- tidy (Banner (if ?b then _ else _)) => destruct b eqn:?
           end;
      auto using tidy_probeGeneric, tidy_probeSSH, tidy_probeHTTP, tidy_probeGreeting,
        tidy_probeTelnet, tidy_probeLine, tidy_probePostgreSQL, tidy_probeRedis,
        tidy_probeMongoDB.
    exfalso. apply Hport. by apply Z.eqb_eq. }
  repeat first
    [ match goal with
      | |- tidy (Banner (if ?b then _ else _)) => destruct b
      end
    | progress cbn [Banner withName] ];
    exact Hprobe.
Qed.

Lemma X2_native_banner_is_tidy_witness :
  tidy (Banner (Fingerprint.fingerprintPort sshListener NewFingerprinter "10.0.0.1" 22)).
Proof.
  apply (X2_native_banner_is_tidy sshListener NewFingerprinter "10.0.0.1" 22).
  discriminate.
Defined.

End BannerOfProbes.

Section ProbeRoundTrips.
Import Strings Banner Fingerprint.

Lemma untilNul_app v rest :
  Forall (fun c => code c <> 0%N) v -> untilNul (v ++ nul :: rest) = v.
Proof.
  induction 1 as [|c v Hc Hv IH]; cbn [app untilNul]; [reflexivity|].
  destruct (N.eqb_spec (code c) 0); [contradiction|]. by rewrite IH.
Qed.

Lemma sanitizeBanner_snoc s c :
  asciiSpace c = true -> sanitizeBanner (s +:+ String c "") = sanitizeBanner s.
Proof.
  intros Hc. unfold sanitizeBanner, sanitizeBytes. rewrite bytes_app.
  cbn [bytes list_ascii_of_string]. by rewrite trimSpaceBytes_snoc.
Qed.

(** X3.  When the listener on port 22 sends an identification line
    SSH-proto-software followed by a newline (proto without a dash,
    neither with a newline), the native fingerprintPort returns the name
    "ssh", the software part with the white space around it removed as the
    version (later dashes belong to it), and the sanitized line as the
    banner. *)
Theorem X3_probeSSH_reads_version w f ip conn proto soft rest :
  dial w false (address ip 22) (Timeout f) = Some conn ->
  String.concat "" (incoming conn)
  = "SSH-" +:+ proto +:+ "-" +:+ soft +:+ String newline rest ->
  Forall (fun c => c <> "-"%char /\ c <> newline) (bytes proto) ->
  Forall (fun c => c <> newline) (bytes soft) ->
  Fingerprint.fingerprintPort w f ip 22
  = {| ServiceName := "ssh"; ServiceVersion := TrimSpace soft;
       Banner := sanitizeBanner ("SSH-" +:+ proto +:+ "-" +:+ soft);
       Fingerprint := None |}.
Proof.
  intros Hd Hin Hp Hs.
  unfold Fingerprint.fingerprintPort, probeFor. cbn [Z.eqb Pos.eqb orb].
  unfold probeSSH. rewrite Hd. unfold readLine. rewrite Hin.
  set (line := "SSH-" +:+ proto +:+ "-" +:+ soft).
  assert (Hb : bytes ("SSH-" +:+ proto +:+ "-" +:+ soft +:+ String newline rest)
               = bytes line ++ newline :: bytes rest).
  { unfold line. rewrite !bytes_app. cbn [bytes list_ascii_of_string].
    by rewrite <- !app_assoc. }
  rewrite Hb.
  assert (Hline : Forall (fun x => x <> newline) (bytes line)).
  { unfold line. rewrite !bytes_app. repeat apply Forall_app_2.
    - repeat constructor; discriminate.
    - eapply List.Forall_impl; [|exact Hp]. cbn. tauto.
    - repeat constructor; discriminate.
    - exact Hs. }
  rewrite cutByte_app by exact Hline.
  assert (Eline : of_bytes (bytes line ++ [newline]) = line +:+ String newline "").
  { by rewrite of_bytes_app, of_bytes_bytes. }
  rewrite Eline. cbn [ServiceName withName withBanner withVersion zeroInfo].
  assert (Hpre : HasPrefix (line +:+ String newline "") "SSH-" = true).
  { unfold line. rewrite append_assoc. apply HasPrefix_append. }
  rewrite Hpre.
  assert (Hsplit : SplitN (line +:+ String newline "") "-"%char 3
                   = ["SSH"; proto; soft +:+ String newline ""]).
  { unfold SplitN, line. rewrite !bytes_app. cbn [bytes list_ascii_of_string app].
    cbn [splitN cutByte Ascii.eqb Bool.eqb].
    rewrite <- !app_assoc. cbn [app].
    rewrite cutByte_app by (eapply List.Forall_impl; [|exact Hp]; cbn; tauto).
    cbn [map of_bytes string_of_list_ascii]. rewrite of_bytes_app.
    change (string_of_list_ascii (list_ascii_of_string proto)) with (of_bytes (bytes proto)).
    by rewrite !of_bytes_bytes. }
  rewrite Hsplit. rewrite TrimSpace_snoc, sanitizeBanner_snoc by reflexivity.
  reflexivity.
Qed.

Lemma X3_probeSSH_reads_version_witness :
  Fingerprint.fingerprintPort sshListener NewFingerprinter "10.0.0.1" 22
  = {| ServiceName := "ssh";
       ServiceVersion := TrimSpace ("OpenSSH_9.0" +:+ String (ascii_of_N 13) "");
       Banner := sanitizeBanner
                   ("SSH-" +:+ "2.0" +:+ "-" +:+ "OpenSSH_9.0" +:+ String (ascii_of_N 13) "");
       Fingerprint := None |}.
Proof.
  apply (X3_probeSSH_reads_version sshListener NewFingerprinter "10.0.0.1"
           {| incoming := ["SSH-2.0-OpenSSH_9.0" +:+ crlf]; ending := EOF |}
           "2.0" ("OpenSSH_9.0" +:+ String (ascii_of_N 13) "") "").
  - reflexivity.
  - reflexivity.
  - repeat constructor; discriminate.
  - repeat constructor; discriminate.
Defined.

(** X4.  When the listener on port 3306 answers with a packet that fits
    the read buffer and holds, after its first five bytes, a non-empty
    sequence of bytes without NUL that a NUL byte ends, the native
    fingerprintPort returns the name "mysql", exactly these bytes as the
    version, and "MySQL " followed by them as the banner; the bytes are
    not sanitized. *)
Theorem X4_probeMySQL_reads_version w f ip conn hdr v rest more :
  dial w false (address ip 3306) (Timeout f) = Some conn ->
  incoming conn = of_bytes (hdr ++ v ++ nul :: rest) :: more ->
  length hdr = 5%nat -> v <> [] -> Forall (fun c => code c <> 0%N) v ->
  Z.of_nat (length (hdr ++ v ++ nul :: rest)) <= MaxBanner f ->
  Fingerprint.fingerprintPort w f ip 3306
  = {| ServiceName := "mysql"; ServiceVersion := of_bytes v;
       Banner := "MySQL " +:+ of_bytes v; Fingerprint := None |}.
Proof.
  intros Hd Hin Hh Hv Hnz Hfit.
  unfold Fingerprint.fingerprintPort, probeFor. cbn [Z.eqb Pos.eqb orb].
  unfold probeMySQL. rewrite Hd. unfold connRead. rewrite Hin.
  rewrite len_of_bytes.
  destruct (Z.leb_spec (Z.of_nat (length (hdr ++ v ++ nul :: rest))) (MaxBanner f));
    [|lia].
  rewrite len_of_bytes.
  assert (Hlen : 5 < Z.of_nat (length (hdr ++ v ++ nul :: rest))).
  { rewrite !length_app. cbn [length]. lia. }
  destruct (Z.ltb_spec 0 (Z.of_nat (length (hdr ++ v ++ nul :: rest)))); [|lia].
  destruct (Z.ltb_spec 5 (Z.of_nat (length (hdr ++ v ++ nul :: rest)))); [|lia].
  cbn [andb]. rewrite bytes_of_bytes.
  assert (Hdrop : drop 5 (hdr ++ v ++ nul :: rest) = v ++ nul :: rest)
    by (rewrite <- Hh; apply drop_app_length).
  rewrite Hdrop.
  rewrite untilNul_app by assumption.
  rewrite len_of_bytes.
  destruct (Z.ltb_spec 0 (Z.of_nat (length v)));
    [|destruct v; [contradiction|cbn in *; lia]].
  reflexivity.
Qed.

Lemma X4_probeMySQL_reads_version_witness :
  Fingerprint.fingerprintPort mysqlListener NewFingerprinter "10.0.0.1" 3306
  = {| ServiceName := "mysql"; ServiceVersion := of_bytes (bytes "8.0.36");
       Banner := "MySQL " +:+ of_bytes (bytes "8.0.36"); Fingerprint := None |}.
Proof.
  apply (X4_probeMySQL_reads_version mysqlListener NewFingerprinter "10.0.0.1"
           {| incoming := [mysqlGreeting]; ending := EOF |}
           (map ascii_of_N [74; 0; 0; 0; 10]%N) (bytes "8.0.36") (bytes "rest") []).
  - reflexivity.
  - reflexivity.
  - reflexivity.
  - discriminate.
  - repeat constructor; discriminate.
  - vm_compute. discriminate.
Defined.

End ProbeRoundTrips.

Section BannerExtras.
Import Strings Banner.

Lemma keepRune_length c : (length (keepRune c) <= 1)%nat.
Proof.
  unfold keepRune. cbn zeta.
  destruct ((32 <=? code c)%N && (code c <? 127)%N); [cbn; lia|].
  destruct ((code c =? 10)%N || (code c =? 13)%N || (code c =? 9)%N); cbn; lia.
Qed.

Lemma writeRunes_length l : (length (writeRunes l) <= length l)%nat.
Proof.
  unfold writeRunes. induction l as [|c l IH]; cbn [flat_map length]; [lia|].
  rewrite length_app. pose proof (keepRune_length c). lia.
Qed.

Lemma sanitizeBytes_short l :
  (length l <= 512)%nat -> (length (sanitizeBytes l) <= length l)%nat.
Proof.
  intros Hl. unfold sanitizeBytes.
  pose proof (trimSpaceBytes_length l) as H1.
  pose proof (writeRunes_length (trimSpaceBytes l)) as H2.
  etransitivity; [apply trimSpaceBytes_length|].
  unfold truncate.
  destruct (Z.ltb_spec 512 (Z.of_nat (length (writeRunes (trimSpaceBytes l))))); lia.
Qed.

(** X5.  The output of sanitizeBanner consists of printable ASCII bytes
    (32 to 126) only, and neither begins nor ends with a blank, whatever
    the input. *)
Theorem X5_sanitizeBanner_printable s :
  stripped (bytes (sanitizeBanner s))
  /\ Forall (fun c => (32 <= code c < 127)%N) (bytes (sanitizeBanner s)).
Proof.
  unfold sanitizeBanner. rewrite bytes_of_bytes.
  pose proof (sanitizeBytes_stripped (bytes s)) as Hst.
  split; [exact Hst|]. destruct Hst as [Hc _].
  unfold clean, printable in Hc. eapply List.Forall_impl; [|exact Hc].
  intros c Hp. cbn beta in Hp. apply andb_true_iff in Hp as [H1 H2].
  apply N.leb_le in H1. apply N.ltb_lt in H2. lia.
Qed.

(** X6.  On an input of at most 512 bytes sanitizeBanner does not lengthen
    the text and is idempotent, and it returns the input as it is when
    the input consists of printable ASCII bytes with no blank at either
    end. *)
Theorem X6_sanitizeBanner_idempotent_short s :
  len s <= 512 ->
  len (sanitizeBanner s) <= len s
  /\ sanitizeBanner (sanitizeBanner s) = sanitizeBanner s
  /\ (stripped (bytes s) -> sanitizeBanner s = s).
Proof.
  unfold len. intros Hl.
  assert (Hb : (length (sanitizeBytes (bytes s)) <= length (bytes s))%nat).
  { apply sanitizeBytes_short. rewrite length_bytes. lia. }
  rewrite length_bytes in Hb.
  assert (Hlen : (String.length (sanitizeBanner s) <= String.length s)%nat).
  { unfold sanitizeBanner. by rewrite length_of_bytes. }
  split; [lia|]. split; [apply sanitizeBanner_twice; left; unfold len; lia|].
  intros Hst. unfold sanitizeBanner, sanitizeBytes.
  rewrite (trimSpaceBytes_fix _ Hst), (writeRunes_fix _ (proj1 Hst)).
  unfold truncate. rewrite length_bytes.
  destruct (Z.ltb_spec 512 (Z.of_nat (String.length s))); [lia|].
  rewrite (trimSpaceBytes_fix _ Hst). apply of_bytes_bytes.
Qed.

Lemma X6_sanitizeBanner_idempotent_short_witness :
  len (sanitizeBanner "  220 ready  ") <= len "  220 ready  "
  /\ sanitizeBanner (sanitizeBanner "  220 ready  ") = sanitizeBanner "  220 ready  "
  /\ (stripped (bytes "  220 ready  ") -> sanitizeBanner "  220 ready  " = "  220 ready  ").
Proof.
  apply (X6_sanitizeBanner_idempotent_short "  220 ready  ").
  vm_compute. discriminate.
Defined.

End BannerExtras.

(** ** The address expander and the targets of a scan *)

Section ExpanderExtras.
Import Net Expander Ranges.

(** X7.  inc adds one to the address read as a number in network byte
    order, wrapping from all 0xFF to all zero; the slice keeps its length
    and its bytes stay bytes. *)
Theorem X7_inc_adds_one ip :
  wf ip ->
  length (inc ip) = length ip /\ wf (inc ip)
  /\ val (inc ip) = (val ip + 1) mod 256 ^ Z.of_nat (length ip).
Proof.
  intros Hwf. split; [apply inc_length|]. split; [by apply inc_wf|by apply val_inc].
Qed.

Lemma X7_inc_adds_one_witness :
  length (inc [10; 0; 255; 255]) = length [10; 0; 255; 255]
  /\ wf (inc [10; 0; 255; 255])
  /\ val (inc [10; 0; 255; 255])
     = (val [10; 0; 255; 255] + 1) mod 256 ^ Z.of_nat (length [10; 0; 255; 255]).
Proof.
  apply (X7_inc_adds_one [10; 0; 255; 255]).
  repeat constructor; lia.
Defined.

Lemma bytesBE_4 a b c x :
  0 <= a < 256 -> 0 <= b < 256 -> 0 <= c < 256 -> 0 <= x < 256 ->
  bytesBE 4 (((a * 256 + b) * 256 + c) * 256 + x) = [a; b; c; x].
Proof.
  intros Ha Hb Hc Hx. unfold bytesBE. cbn [bytesLE rev app].
  assert (E1 : (((a * 256 + b) * 256 + c) * 256 + x) mod 256 = x).
  { rewrite Z.add_comm, Z.mod_add by lia. apply Z.mod_small. lia. }
  assert (E2 : (((a * 256 + b) * 256 + c) * 256 + x) / 256 = (a * 256 + b) * 256 + c).
  { rewrite Z.add_comm, Z.div_add by lia. rewrite Z.div_small by lia. lia. }
  rewrite E1, E2.
  assert (E3 : ((a * 256 + b) * 256 + c) mod 256 = c).
  { rewrite Z.add_comm, Z.mod_add by lia. apply Z.mod_small. lia. }
  assert (E4 : ((a * 256 + b) * 256 + c) / 256 = a * 256 + b).
  { rewrite Z.add_comm, Z.div_add by lia. rewrite Z.div_small by lia. lia. }
  rewrite E3, E4.
  assert (E5 : (a * 256 + b) mod 256 = b).
  { rewrite Z.add_comm, Z.mod_add by lia. apply Z.mod_small. lia. }
  assert (E6 : (a * 256 + b) / 256 = a).
  { rewrite Z.add_comm, Z.div_add by lia. rewrite Z.div_small by lia. lia. }
  rewrite E5, E6. rewrite (Z.mod_small a) by lia. reflexivity.
Qed.

(** X8.  For an IPv4 CIDR with a prefix length from 1 to 32 expandCIDR
    returns: the targets are the addresses of the masked range in
    ascending order, all 2^(32-n) of them when these are at most two, and
    otherwise all but the first and the last, that is 2^(32-n) - 2. *)
Theorem X8_expandCIDR_ipv4 v n fuel :
  1 <= n <= 32 -> 2 ^ (32 - n) < Z.of_nat fuel ->
  expandCIDR fuel (Addr4 v) n
  = Some (Ok (trimmed 4 (base 32 n v) (2 ^ (32 - n))))
  /\ Z.of_nat (length (trimmed 4 (base 32 n v) (2 ^ (32 - n))))
     = (if 2 <? 2 ^ (32 - n) then 2 ^ (32 - n) - 2 else 2 ^ (32 - n)).
Proof.
  intros Hn Hf. split; [by apply expandCIDR_Addr4|].
  assert (0 < 2 ^ (32 - n)) by (apply Z.pow_pos_nonneg; lia).
  unfold trimmed. destruct (Z.ltb_spec 2 (2 ^ (32 - n))); apply targets_length; lia.
Qed.

Lemma X8_expandCIDR_ipv4_witness :
  expandCIDR 5 (Addr4 167772160) 30
  = Some (Ok (trimmed 4 (base 32 30 167772160) (2 ^ (32 - 30))))
  /\ Z.of_nat (length (trimmed 4 (base 32 30 167772160) (2 ^ (32 - 30))))
     = (if 2 <? 2 ^ (32 - 30) then 2 ^ (32 - 30) - 2 else 2 ^ (32 - 30)).
Proof.
  apply (X8_expandCIDR_ipv4 167772160 30 5).
  - lia.
  - cbn. lia.
Defined.

(** X9.  For a /24 network a.b.c.d/24 expandCIDR returns the 254 targets
    a.b.c.1, a.b.c.2, ..., a.b.c.254 in this order, whatever the last byte
    d of the text is: the network address a.b.c.0 and the broadcast
    address a.b.c.255 are left out. *)
Theorem X9_expandCIDR_slash24 a b c d fuel :
  0 <= a < 256 -> 0 <= b < 256 -> 0 <= c < 256 -> 0 <= d < 256 ->
  (256 < fuel)%nat ->
  expandCIDR fuel (ipv4 a b c d) 24
  = Some (Ok (map (fun x => dotted [a; b; c; x]) (seqZ 1 254))).
Proof.
  intros Ha Hb Hc Hd Hf. unfold ipv4.
  rewrite expandCIDR_Addr4 by (change (2 ^ (32 - 24)) with 256; lia).
  do 2 f_equal. change (2 ^ (32 - 24)) with 256.
  unfold trimmed. change (2 <? 256) with true. cbn match.
  assert (Hbase : base 32 24 (((a * 256 + b) * 256 + c) * 256 + d)
                  = ((a * 256 + b) * 256 + c) * 256 + 0).
  { unfold base. change (2 ^ (32 - 24)) with 256. change (2 ^ 32) with 4294967296.
    rewrite Z.mod_small by lia.
    rewrite (Z.add_comm _ d), Z.div_add by lia. rewrite Z.div_small by lia. lia. }
  rewrite Hbase. unfold targets. change (256 - 2) with 254.
  replace (((a * 256 + b) * 256 + c) * 256 + 0 + 1)
    with (((a * 256 + b) * 256 + c) * 256 + 1) by lia.
  rewrite <- (fmap_add_seqZ (((a * 256 + b) * 256 + c) * 256) 1 254).
  rewrite map_map. apply map_ext_in. intros x Hx.
  apply list_elem_of_In, elem_of_seqZ in Hx.
  rewrite bytesBE_4 by lia. reflexivity.
Qed.

Lemma X9_expandCIDR_slash24_witness :
  expandCIDR 300 (ipv4 192 168 1 77) 24
  = Some (Ok (map (fun x => dotted [192; 168; 1; x]) (seqZ 1 254))).
Proof.
  apply (X9_expandCIDR_slash24 192 168 1 77 300); lia.
Defined.

(** X10.  For an IPv6 CIDR expandCIDR returns the addresses of the masked
    range in ascending order, trimmed like an IPv4 range, but it stops in
    front of ::ffff:0.0.0.0 when the range starts below this address and
    reaches beyond it: IPNet.Contains takes an IPv4-mapped address for a
    4-byte address and finds it outside a 16-byte network.  Such a range
    gives fewer than its 2^(128-n) addresses. *)
Theorem X10_expandCIDR_ipv6 v n fuel :
  0 <= n <= 128 -> count6 v n < Z.of_nat fuel ->
  expandCIDR fuel (Addr6 v) n
  = Some (Ok (trimmed 16 (base 128 n v) (count6 v n)))
  /\ 0 < count6 v n <= 2 ^ (128 - n)
  /\ (mapped (base 128 n v) = false -> base 128 n v < v4MappedBase ->
      v4MappedBase < base 128 n v + 2 ^ (128 - n) ->
      count6 v n = v4MappedBase - base 128 n v /\ count6 v n < 2 ^ (128 - n))
  /\ (v4MappedBase <= base 128 n v \/ base 128 n v + 2 ^ (128 - n) <= v4MappedBase ->
      count6 v n = 2 ^ (128 - n)).
Proof.
  intros Hn Hf. split; [by apply expandCIDR_Addr6|].
  split; [by apply count6_bounds|]. split.
  - intros Hm Hlo Hhi. unfold count6. rewrite Hm.
    destruct (Z.ltb_spec (base 128 n v) v4MappedBase); lia.
  - intros Hout. unfold count6.
    destruct (mapped (base 128 n v)); [reflexivity|].
    destruct (Z.ltb_spec (base 128 n v) v4MappedBase); lia.
Qed.

Lemma X10_expandCIDR_ipv6_witness :
  expandCIDR 5 (Addr6 1) 126
  = Some (Ok (trimmed 16 (base 128 126 1) (count6 1 126)))
  /\ 0 < count6 1 126 <= 2 ^ (128 - 126)
  /\ (mapped (base 128 126 1) = false -> base 128 126 1 < v4MappedBase ->
      v4MappedBase < base 128 126 1 + 2 ^ (128 - 126) ->
      count6 1 126 = v4MappedBase - base 128 126 1 /\ count6 1 126 < 2 ^ (128 - 126))
  /\ (v4MappedBase <= base 128 126 1 \/ base 128 126 1 + 2 ^ (128 - 126) <= v4MappedBase ->
      count6 1 126 = 2 ^ (128 - 126)).
Proof.
  apply (X10_expandCIDR_ipv6 1 126 5).
  - lia.
  - vm_compute. reflexivity.
Defined.

End ExpanderExtras.

Section CollectFacts.
Import Probe Expander.

Lemma collectIPs_flat fuel nets : forall acc,
  Forall (fun net => expand fuel net <> None) nets ->
  collectIPs fuel nets acc = Some (acc ++ flat_map (targetsOf fuel) nets).
Proof.
  induction nets as [|net nets IH]; intros acc Hall; cbn [collectIPs flat_map].
  - by rewrite app_nil_r.
  - inversion Hall as [|? ? Hnet Hrest]; subst. unfold targetsOf at 1.
    destruct (expand fuel net) as [[ips|msg]|]; [| |contradiction].
    + rewrite IH by assumption. by rewrite app_assoc.
    + by rewrite IH.
Qed.

(** X11.  The first loop of ScanPort collects the targets of the networks
    in the order of the configuration and skips every network whose text
    does not parse; when no network gives a target (all are rejected, or
    none is configured), ScanPort returns the error "no valid IPs to
    scan" before anything is dialed. *)
Theorem X11_ScanPort_skips_invalid_networks t fuel nets :
  Forall (fun net => expand fuel net <> None) nets ->
  collectIPs fuel nets [] = Some (flat_map (targetsOf fuel) nets)
  /\ (Forall (fun net => exists msg, expand fuel net = Some (Err msg)) nets ->
      begin t (flat_map (targetsOf fuel) nets)
      = NothingToScan (Some "no valid IPs to scan")).
Proof.
  intros Hall. split; [by rewrite collectIPs_flat|].
  intros Herr.
  assert (E : flat_map (targetsOf fuel) nets = []).
  { clear Hall. induction Herr as [|net nets [msg Hm] _ IH]; [reflexivity|].
    cbn [flat_map]. unfold targetsOf at 1. by rewrite Hm, IH. }
  by rewrite E.
Qed.

Lemma X11_ScanPort_skips_invalid_networks_witness :
  collectIPs 5 [Unparsable "10.0.0.0"; CIDR (ipv4 10 0 0 0) 30; CIDR (ipv4 10 0 0 0) 33] []
  = Some (flat_map (targetsOf 5)
            [Unparsable "10.0.0.0"; CIDR (ipv4 10 0 0 0) 30; CIDR (ipv4 10 0 0 0) 33])
  /\ (Forall (fun net => exists msg, expand 5 net = Some (Err msg))
        [Unparsable "10.0.0.0"; CIDR (ipv4 10 0 0 0) 30; CIDR (ipv4 10 0 0 0) 33] ->
      begin twoAtATime
        (flat_map (targetsOf 5)
           [Unparsable "10.0.0.0"; CIDR (ipv4 10 0 0 0) 30; CIDR (ipv4 10 0 0 0) 33])
      = NothingToScan (Some "no valid IPs to scan")).
Proof.
  apply (X11_ScanPort_skips_invalid_networks twoAtATime 5
           [Unparsable "10.0.0.0"; CIDR (ipv4 10 0 0 0) 30; CIDR (ipv4 10 0 0 0) 33]).
  repeat constructor; vm_compute; discriminate.
Defined.

End CollectFacts.

(** ** The goroutines of ScanPort *)

Section ProbeResults.
Import Probe.

Lemma dialingTargets_app ws1 ws2 :
  dialingTargets (ws1 ++ ws2) = dialingTargets ws1 ++ dialingTargets ws2.
Proof. unfold dialingTargets. apply flat_map_app. Qed.

Lemma dialingTargets_cons w ws :
  dialingTargets (w :: ws)
  = match phase w with Dialing => [target w] | Dialed _ => [] end ++ dialingTargets ws.
Proof. reflexivity. Qed.

Lemma begin_accounted t port allIPs s0 :
  begin t allIPs = Dispatching s0 -> accounted port allIPs s0.
Proof.
  unfold begin. destruct (Z.of_nat (length allIPs) =? 0); [discriminate|].
  destruct (Rate t <? 0); [discriminate|]. intros [= <-].
  exists []. cbn. repeat split; try constructor; discriminate.
Qed.

Lemma step_accounted t port allIPs s s' :
  step t port s s' -> accounted port allIPs s -> accounted port allIPs s'.
Proof.
  intros Hs (passed & Hall & Hport & Hsub & Hret).
  assert (Hres : map IP (results s) ⊆+ passed).
  { etransitivity; [|exact Hsub]. apply submseteq_inserts_r. reflexivity. }
  destruct Hs as [s | s ip rest Hn Hsd Htd Hc | s ip rest Hn Hsd Htd Hc
                 | s ip Hsd Hlt | s ws1 w ws2 ok Hw Hph
                 | s ws1 w ws2 ok n Hw Hph Hsem | s Hrn Hsd Htd Hw];
    unfold accounted, atSend in *;
    cbn [todo sending workers results returned] in *.
  - exists passed. split; [assumption|]. split; [assumption|]. split; assumption.
  - exists passed. split; [by rewrite Hsd in Hall|]. split; [assumption|].
    split; [assumption|]. intros r e [= <- <-]. split; assumption.
  - exists passed. rewrite Hsd, Htd in Hall.
    split; [assumption|]. split; [assumption|]. split; assumption.
  - exists (passed ++ [ip]). rewrite Hsd in Hall.
    split; [by rewrite <- app_assoc|]. split; [assumption|]. split.
    + rewrite dialingTargets_app. cbn. rewrite app_assoc.
      apply submseteq_app; [assumption|reflexivity].
    + intros r e Hr. destruct (Hret r e Hr) as [Hp Hs]. split; [assumption|].
      etransitivity; [exact Hs|]. apply submseteq_inserts_r. reflexivity.
  - exists passed.
    rewrite Hw, dialingTargets_app, dialingTargets_cons, Hph in Hsub.
    rewrite dialingTargets_app, dialingTargets_cons. cbn [phase app].
    split; [assumption|]. split; [|split; [|assumption]].
    + destruct ok; [|assumption]. apply Forall_app. split; [assumption|].
      constructor; [reflexivity|constructor].
    + destruct ok.
      * rewrite map_app. cbn [map IP]. etransitivity; [|exact Hsub].
        apply Permutation_submseteq.
        rewrite <- !app_assoc. apply Permutation_app_head. cbn [app].
        apply Permutation_middle.
      * etransitivity; [|exact Hsub].
        apply submseteq_app; [reflexivity|].
        apply submseteq_app; [reflexivity|]. apply submseteq_cons. reflexivity.
  - exists passed.
    rewrite Hw, dialingTargets_app, dialingTargets_cons, Hph in Hsub.
    rewrite dialingTargets_app.
    split; [assumption|]. split; [assumption|]. split; assumption.
  - exists passed. rewrite Hsd in Hall.
    split; [assumption|]. split; [assumption|]. split; [assumption|].
    intros r e [= <- <-]. split; assumption.
Qed.

Lemma reaches_accounted t port allIPs s0 s :
  reaches t port s0 s -> accounted port allIPs s0 -> accounted port allIPs s.
Proof.
  induction 1 as [|s1 s2 s3 Hr IH Hs]; intros Hinv; [assumption|].
  eapply step_accounted; eauto.
Qed.

(** The scan of one target, up to the return of ScanPort. *)
Lemma reaches_oneDialing : reaches twoAtATime 80 oneTarget oneDialing.
Proof.
  apply (reaches_step twoAtATime 80 oneTarget oneSending oneDialing).
  - apply (reaches_step twoAtATime 80 oneTarget oneTarget oneSending).
    + apply reaches_refl.
    + apply (step_check twoAtATime 80 oneTarget "10.0.0.1" []); reflexivity.
  - apply (step_dispatch twoAtATime 80 oneSending "10.0.0.1");
      [reflexivity | cbn; lia].
Defined.

Lemma reaches_oneReturned : reaches twoAtATime 80 oneTarget oneReturned.
Proof.
  apply (reaches_step twoAtATime 80 oneTarget oneReleased oneReturned).
  - apply (reaches_step twoAtATime 80 oneTarget oneDialed oneReleased).
    + apply (reaches_step twoAtATime 80 oneTarget oneDialing oneDialed).
      * exact reaches_oneDialing.
      * apply (step_dial twoAtATime 80 oneDialing []
                 {| target := "10.0.0.1"; phase := Dialing |} [] true); reflexivity.
    + apply (step_release twoAtATime 80 oneDialed []
               {| target := "10.0.0.1"; phase := Dialed true |} [] true 0); reflexivity.
  - apply (step_return twoAtATime 80 oneReleased); reflexivity.
Defined.

(** X12.  In every state that a call of ScanPort reaches, and in whatever
    it returns, each result carries the port of the call, and the
    addresses of the results are among the collected targets, none more
    often than it occurs there: so there are at most as many results as
    targets. *)
Theorem X12_ScanPort_reports_targets t port allIPs s0 s :
  begin t allIPs = Dispatching s0 ->
  reaches t port s0 s ->
  (Forall (fun r => Port r = port) (results s)
   /\ map IP (results s) ⊆+ allIPs
   /\ (length (results s) <= length allIPs)%nat)
  /\ (forall r e, returned s = Some (r, e) ->
        Forall (fun x => Port x = port) r /\ map IP r ⊆+ allIPs).
Proof.
  intros Hb Hr.
  destruct (reaches_accounted t port allIPs s0 s Hr (begin_accounted t port allIPs s0 Hb))
    as (passed & Hall & Hport & Hsub & Hret).
  assert (Hp : passed ⊆+ allIPs).
  { rewrite Hall. apply submseteq_inserts_r. reflexivity. }
  assert (Hres : map IP (results s) ⊆+ allIPs).
  { etransitivity; [|exact Hp]. etransitivity; [|exact Hsub].
    apply submseteq_inserts_r. reflexivity. }
  split.
  - split; [assumption|]. split; [assumption|].
    apply submseteq_length in Hres. by rewrite length_map in Hres.
  - intros r e Hre. destruct (Hret r e Hre) as [H1 H2]. split; [assumption|].
    by etransitivity.
Qed.

Lemma X12_ScanPort_reports_targets_witness :
  (Forall (fun r => Port r = 80) (results oneReturned)
   /\ map IP (results oneReturned) ⊆+ ["10.0.0.1"]
   /\ (length (results oneReturned) <= length ["10.0.0.1"])%nat)
  /\ (forall r e, returned oneReturned = Some (r, e) ->
        Forall (fun x => Port x = 80) r /\ map IP r ⊆+ ["10.0.0.1"]).
Proof.
  apply (X12_ScanPort_reports_targets twoAtATime 80 ["10.0.0.1"] oneTarget oneReturned).
  - reflexivity.
  - exact reaches_oneReturned.
Defined.

End ProbeResults.

Section ProbeReturn.
Import Probe.

Lemma step_settled t port s s' : step t port s s' -> settled s -> settled s'.
Proof.
  intros Hs Hinv.
  destruct Hs as [s | s ip rest Hn Hsd Htd Hc | s ip rest Hn Hsd Htd Hc
                 | s ip Hsd Hlt | s ws1 w ws2 ok Hw Hph
                 | s ws1 w ws2 ok n Hw Hph Hsem | s Hrn Hsd Htd Hw];
    unfold settled in *; cbn [todo sending workers results returned] in *.
  - exact Hinv.
  - intros r [=].
  - intros r Hr. congruence.
  - intros r Hr. destruct (Hinv r Hr) as (_ & Hs & _). congruence.
  - intros r Hr. destruct (Hinv r Hr) as (_ & _ & Hws & _).
    rewrite Hws in Hw. by destruct ws1.
  - intros r Hr. destruct (Hinv r Hr) as (_ & _ & Hws & _).
    rewrite Hws in Hw. by destruct ws1.
  - intros r [= <-]. auto.
Qed.

Lemma reaches_settled t port s0 s : reaches t port s0 s -> settled s0 -> settled s.
Proof.
  induction 1 as [|s1 s2 s3 Hr IH Hs]; intros Hinv; [assumption|].
  eapply step_settled; eauto.
Qed.

(** X13.  When ScanPort has returned with a nil error, the dispatch loop
    has gone through all targets, every goroutine has finished and
    released its token, and the slice returned is the final one: no
    result is added after the return. *)
Theorem X13_ScanPort_nil_error_is_complete t port allIPs s0 s r :
  begin t allIPs = Dispatching s0 ->
  reaches t port s0 s ->
  returned s = Some (r, None) ->
  todo s = [] /\ sending s = None /\ workers s = [] /\ sem s = 0%nat
  /\ r = results s.
Proof.
  intros Hb Hr Hret.
  assert (H0 : settled s0).
  { unfold begin in Hb. destruct (Z.of_nat (length allIPs) =? 0); [discriminate|].
    destruct (Rate t <? 0); [discriminate|]. injection Hb as <-. intros r' [=]. }
  destruct (reaches_settled t port s0 s Hr H0 r Hret) as (Ht & Hs & Hw & Hres).
  destruct (reaches_invariant t port s0 s Hr (begin_invariant t allIPs s0 Hb)) as [Hsem _].
  rewrite Hw in Hsem. auto.
Qed.

Lemma X13_ScanPort_nil_error_is_complete_witness :
  todo oneReturned = [] /\ sending oneReturned = None /\ workers oneReturned = []
  /\ sem oneReturned = 0%nat
  /\ [{| IP := "10.0.0.1"; Port := 80 |}] = results oneReturned.
Proof.
  apply (X13_ScanPort_nil_error_is_complete twoAtATime 80 ["10.0.0.1"] oneTarget
           oneReturned [{| IP := "10.0.0.1"; Port := 80 |}]).
  - reflexivity.
  - exact reaches_oneReturned.
  - reflexivity.
Defined.

(** X14.  With a scanner built by NewTCPScanner the gate has at least one
    token (a rate of zero or less becomes 100), and ScanPort is never
    stuck: in every state that a call reaches and in which it has not
    returned, a step other than the cancellation of the context can be
    taken, so a send that waits for a token always has a goroutine that
    will free one. *)
Theorem X14_ScanPort_never_stuck networks rate timeoutSecs port allIPs s0 s :
  begin (NewTCPScanner networks rate timeoutSecs) allIPs = Dispatching s0 ->
  reaches (NewTCPScanner networks rate timeoutSecs) port s0 s ->
  returned s = None ->
  1 <= Rate (NewTCPScanner networks rate timeoutSecs)
  /\ exists s', step (NewTCPScanner networks rate timeoutSecs) port s s'
                /\ ctxDone s' = ctxDone s /\ s' <> s.
Proof.
  set (t := NewTCPScanner networks rate timeoutSecs).
  intros Hb Hr Hret.
  assert (HR : 1 <= Rate t).
  { unfold t, NewTCPScanner. cbn. destruct (Z.leb_spec rate 0); lia. }
  split; [exact HR|].
  destruct (reaches_invariant t port s0 s Hr (begin_invariant t allIPs s0 Hb))
    as [Hsem Hcap].
  assert (Hworker : forall w ws, workers s = w :: ws ->
            exists s', step t port s s' /\ ctxDone s' = ctxDone s /\ s' <> s).
  { intros w ws Hw. destruct (phase w) as [|ok] eqn:Hph.
    - eexists. split; [apply (step_dial t port s [] w ws false Hw Hph)|].
      split; [reflexivity|]. intros E. apply (f_equal workers) in E. cbn in E.
      rewrite Hw in E. injection E as E. apply (f_equal phase) in E. cbn in E.
      congruence.
    - assert (Hn : sem s = S (length ws)) by (rewrite Hsem, Hw; reflexivity).
      eexists. split; [apply (step_release t port s [] w ws ok _ Hw Hph Hn)|].
      split; [reflexivity|]. intros E. apply (f_equal sem) in E. cbn in E. lia. }
  destruct (sending s) as [ip|] eqn:Hsd.
  - destruct (Z.lt_ge_cases (Z.of_nat (sem s)) (Rate t)) as [Hlt|Hge].
    + eexists. split; [apply (step_dispatch t port s ip Hsd Hlt)|].
      split; [reflexivity|]. intros E. apply (f_equal sending) in E. cbn in E.
      congruence.
    + destruct (workers s) as [|w ws] eqn:Hw; [cbn in Hsem; lia|].
      by apply (Hworker w ws).
  - destruct (todo s) as [|ip rest] eqn:Htd.
    + destruct (workers s) as [|w ws] eqn:Hw.
      * eexists. split; [apply (step_return t port s Hret Hsd Htd Hw)|].
        split; [reflexivity|]. intros E. apply (f_equal returned) in E. cbn in E.
        congruence.
      * by apply (Hworker w ws).
    + destruct (ctxDone s) eqn:Hc.
      * eexists. split; [apply (step_return_cancelled t port s ip rest Hret Hsd Htd Hc)|].
        split; [exact Hc|]. intros E. apply (f_equal returned) in E. cbn in E.
        congruence.
      * eexists. split; [apply (step_check t port s ip rest Hret Hsd Htd Hc)|].
        split; [exact Hc|]. intros E. apply (f_equal sending) in E. cbn in E.
        congruence.
Qed.

Lemma X14_ScanPort_never_stuck_witness :
  1 <= Rate (NewTCPScanner [] 0 0)
  /\ exists s', step (NewTCPScanner [] 0 0) 80 oneTarget s'
                /\ ctxDone s' = ctxDone oneTarget /\ s' <> oneTarget.
Proof.
  apply (X14_ScanPort_never_stuck [] 0 0 80 ["10.0.0.1"] oneTarget oneTarget).
  - reflexivity.
  - apply reaches_refl.
  - reflexivity.
Defined.

End ProbeReturn.

(** ** ScanPortsWithCallback, ScanPorts and ScanAllPorts *)

Section ProbeScanPorts.
Import Probe.

Variable ScanPort : Z -> list ZmapResult * error.

Lemma lookup_addResult (m : HostPorts) r ip :
  addResult m r !! ip
  = if decide (IP r = ip) then Some (default [] (m !! ip) ++ [Port r]) else m !! ip.
Proof.
  unfold addResult. destruct (decide (IP r = ip)) as [->|Hne].
  - by rewrite lookup_insert_eq.
  - by rewrite lookup_insert_ne.
Qed.

Lemma lookup_addResults rs : forall (m : HostPorts) ip,
  addResults m rs !! ip
  = match portsAt ip rs with
    | [] => m !! ip
    | l => Some (default [] (m !! ip) ++ l)
    end.
Proof.
  induction rs as [|r rs IH]; intros m ip; [reflexivity|].
  cbn [addResults fold_left]. fold (addResults (addResult m r) rs).
  rewrite IH, lookup_addResult. unfold portsAt. rewrite filter_cons.
  destruct (decide (IP r = ip)) as [E|E]; cbn [map default].
  - destruct (map Port (filter (fun r => IP r = ip) rs)) as [|p l].
    + reflexivity.
    + unfold id. by rewrite <- app_assoc.
  - reflexivity.
Qed.

Lemma handled_all ctx ports :
  (forall l, ctx l = false) -> forall h, handled ctx ports h = length ports.
Proof.
  intros H. induction ports as [|p ports IH]; intros h; cbn; [reflexivity|].
  by rewrite H, IH.
Qed.

Lemma scanPortsLoop_cut ctx cb ports : forall st,
  scanPortsLoop ScanPort ctx cb ports st
  = (fst (scanPortsLoop ScanPort neverDone cb
            (take (handled ctx ports (probed st)) ports) st),
     if (handled ctx ports (probed st) <? length ports)%nat
     then ctxError else None).
Proof.
  induction ports as [|p rest IH]; intros st; [reflexivity|].
  cbn [scanPortsLoop handled].
  destruct (ctx (probed st)); [reflexivity|].
  cbn [take scanPortsLoop neverDone length].
  destruct (ScanPort p) as [pr [e|]]; rewrite IH; reflexivity.
Qed.

Lemma scanPortsLoop_calls cb ports : forall st,
  calls (fst (scanPortsLoop ScanPort neverDone cb ports st))
  = calls st ++ (if cb then flat_map (callOf ScanPort) ports else []).
Proof.
  induction ports as [|p rest IH]; intros st.
  - cbn. destruct cb; by rewrite app_nil_r.
  - cbn [scanPortsLoop neverDone flat_map]. unfold callOf at 1.
    destruct (ScanPort p) as [pr [e|]]; rewrite IH; cbn [calls app].
    + reflexivity.
    + destruct cb; cbn [andb]; [|reflexivity].
      destruct (0 <? Z.of_nat (length pr)); [by rewrite <- app_assoc|reflexivity].
Qed.

Lemma scanPortsLoop_lookup cb ports ip : forall st,
  hostPorts (fst (scanPortsLoop ScanPort neverDone cb ports st)) !! ip
  = match openPorts ScanPort ports ip with
    | [] => hostPorts st !! ip
    | l => Some (default [] (hostPorts st !! ip) ++ l)
    end.
Proof.
  induction ports as [|p rest IH]; intros st; [reflexivity|].
  cbn [scanPortsLoop neverDone openPorts flat_map].
  fold (openPorts ScanPort rest ip).
  destruct (ScanPort p) as [pr [e|]]; rewrite IH; cbn [hostPorts app].
  - reflexivity.
  - rewrite lookup_addResults.
    destruct (portsAt ip pr) as [|q l]; [reflexivity|].
    cbn [app default]. unfold id.
    destruct (openPorts ScanPort rest ip); [by rewrite app_nil_r|].
    by rewrite <- app_assoc.
Qed.

Lemma scanPortsLoop_probed cb ports : forall st,
  probed (fst (scanPortsLoop ScanPort neverDone cb ports st)) = probed st ++ ports.
Proof.
  induction ports as [|p rest IH]; intros st; [by rewrite app_nil_r|].
  cbn [scanPortsLoop neverDone].
  destruct (ScanPort p) as [pr [e|]]; rewrite IH; cbn [probed];
    by rewrite <- app_assoc.
Qed.

(** The calls of the callback, whatever the context does. *)
Lemma calls_of_scan ctx ports h :
  calls (fst (ScanPortsWithCallback ScanPort ctx true ports h))
  = flat_map (callOf ScanPort) (take (handled ctx ports h) ports).
Proof.
  unfold ScanPortsWithCallback.
  rewrite (scanPortsLoop_cut ctx true). cbn [start probed fst].
  rewrite (scanPortsLoop_calls true). reflexivity.
Qed.

(** X15.  A scan that finds the context done returns what a scan of the
    ports handled until then returns when it is not interrupted, together
    with the error of the context; the ports handled are a prefix of the
    port list, and they are the whole list, with a nil error, when the
    context is never found done. *)
Theorem X15_ScanPortsWithCallback_cancelled ctx cb ports h :
  ScanPortsWithCallback ScanPort ctx cb ports h
  = (fst (ScanPortsWithCallback ScanPort neverDone cb
            (take (handled ctx ports h) ports) h),
     if (handled ctx ports h <? length ports)%nat then ctxError else None)
  /\ probed (fst (ScanPortsWithCallback ScanPort ctx cb ports h))
     = h ++ take (handled ctx ports h) ports
  /\ ((forall l, ctx l = false) ->
      snd (ScanPortsWithCallback ScanPort ctx cb ports h) = None
      /\ probed (fst (ScanPortsWithCallback ScanPort ctx cb ports h)) = h ++ ports).
Proof.
  unfold ScanPortsWithCallback.
  rewrite scanPortsLoop_cut. cbn [start probed fst snd].
  split; [reflexivity|]. rewrite scanPortsLoop_probed. cbn [probed].
  split; [reflexivity|]. intros Hnd.
  rewrite (handled_all ctx ports Hnd h), Nat.ltb_irrefl, firstn_all. auto.
Qed.

(** X16.  The callback is called once for every handled port whose
    ScanPort returned no error and at least one result, in the order of
    the ports and with exactly the results of that port; it is never
    called with an empty slice or for a port whose scan failed, and
    ScanPorts, which passes no callback, calls nothing. *)
Theorem X16_ScanPortsWithCallback_calls ctx ports h :
  calls (fst (ScanPortsWithCallback ScanPort ctx true ports h))
  = flat_map (callOf ScanPort) (take (handled ctx ports h) ports)
  /\ calls (fst (ScanPorts ScanPort ctx ports h)) = []
  /\ Forall (fun c => snd (ScanPort (fst c)) = None
                      /\ snd c = fst (ScanPort (fst c)) /\ snd c <> [])
       (calls (fst (ScanPortsWithCallback ScanPort ctx true ports h))).
Proof.
  split; [apply calls_of_scan|]. split.
  - unfold ScanPorts, ScanPortsWithCallback.
    rewrite (scanPortsLoop_cut ctx false). cbn [start probed fst].
    rewrite (scanPortsLoop_calls false). reflexivity.
  - rewrite calls_of_scan.
    apply Forall_flat_map, Forall_forall. intros p _. unfold callOf.
    destruct (ScanPort p) as [pr [e|]] eqn:E; [constructor|].
    destruct pr as [|r pr]; [constructor|].
    destruct (Z.ltb_spec 0 (Z.of_nat (length (r :: pr)))); [|constructor].
    constructor; [|constructor]. cbn [fst snd]. rewrite E. cbn [fst snd].
    split; [reflexivity|]. split; [reflexivity|discriminate].
Qed.

(** X17.  In the map that a scan returns, the entry of an address is the
    list of the ports, in the order of the scan, for which a result of a
    handled port without error names this address; an address that no
    such result names has no entry, so no entry is an empty list. *)
Theorem X17_ScanPorts_lookup ctx cb ports h ip :
  hostPorts (fst (ScanPortsWithCallback ScanPort ctx cb ports h)) !! ip
  = match openPorts ScanPort (take (handled ctx ports h) ports) ip with
    | [] => None
    | l => Some l
    end.
Proof.
  unfold ScanPortsWithCallback.
  rewrite scanPortsLoop_cut. cbn [start probed fst].
  rewrite scanPortsLoop_lookup. cbn [start hostPorts]. rewrite lookup_empty.
  reflexivity.
Qed.

End ProbeScanPorts.

Section AllPortsReturn.




End AllPortsReturn.

(** ** The delegated fingerprint strategy *)

Section ArgsFacts.
Import Strings Fingerprint Zgrab.

(** X19.  The zgrab2 command of fingerprintPort starts with the module of
    the port, "-p" and the port in decimal.  Among the flags after them,
    --use-https is passed exactly for the ports 443 and 8443, --smtps for
    465, --imaps for 993, --pop3s for 995, and --starttls exactly for the
    mail ports without implicit TLS: 25, 587, 110 and 143. *)
Theorem X19_zgrabArgs_tls_flags port :
  take 3 (zgrabArgs (getZgrabModule port) port) = [getZgrabModule port; "-p"; pretty port]
  /\ (In "--use-https" (flagsOf port) <-> port = 443 \/ port = 8443)
  /\ (In "--smtps" (flagsOf port) <-> port = 465)
  /\ (In "--imaps" (flagsOf port) <-> port = 993)
  /\ (In "--pop3s" (flagsOf port) <-> port = 995)
  /\ (In "--starttls" (flagsOf port)
      <-> port = 25 \/ port = 587 \/ port = 110 \/ port = 143).
Proof.
  unfold flagsOf, getZgrabModule.
  repeat match goal with
         | |- context [Z.eqb port ?k] =>
             destruct (Z.eqb_spec port k) as [->|?];
             [cbn [Z.eqb Pos.eqb orb]|cbn [orb]]
         end;
    (split; [reflexivity|]); cbn; repeat split; intros H;
    repeat (destruct H as [H|H]; [try discriminate H|]);
    try contradiction; try discriminate; try lia; tauto.
Qed.

End ArgsFacts.

Section ZgrabExtras.
Import Strings Banner Fingerprint Zgrab.












(** X21.  When zgrab2 ran and its output decoded, but the result lacks the
    module of the port or the module reports another status than
    "success", the delegated fingerprintPort does not fall back to the
    native prober: it returns the name of the default table (or
    "unknown"), no version, no banner, and an empty map of fingerprint
    data that is not nil. *)
Theorem X21_zgrab_no_fallback_without_success t z ip port result :
  runZgrab t z ip (zgrabArgs (getZgrabModule port) port) = inl result ->
  (Data result !! getZgrabModule port = None
   \/ exists m, Data result !! getZgrabModule port = Some m
                /\ Status m <> "success") ->
  Zgrab.fingerprintPort t z ip port
  = {| ServiceName := getDefaultServiceName port; ServiceVersion := "";
       Banner := ""; Fingerprint := Some ∅ |}.
Proof. apply no_fallback_on_unsuccessful_module. Qed.

Lemma X21_zgrab_no_fallback_without_success_witness :
  Zgrab.fingerprintPort (sshGrab "connection-timeout") NewZgrabFingerprinter "10.0.0.1" 22
  = {| ServiceName := getDefaultServiceName 22; ServiceVersion := "";
       Banner := ""; Fingerprint := Some ∅ |}.
Proof.
  apply (X21_zgrab_no_fallback_without_success (sshGrab "connection-timeout")
           NewZgrabFingerprinter "10.0.0.1" 22 (sshResult "connection-timeout")).
  - reflexivity.
  - right. exists (sshModule "connection-timeout"). split; [reflexivity|discriminate].
Defined.

End ZgrabExtras.

Section TitleFacts.
Import Strings Fingerprint Zgrab.

(** X22.  In an ASCII document pre open t close post, where open and
    close are the tags <title> and </title> in any mix of letter cases,
    no <title> begins before the end of pre and no </title> begins inside
    t, extractTitle returns t with the white space around it removed. *)
Theorem X22_extractTitle_finds_title pre open t close post :
  isASCII (pre +:+ open +:+ t +:+ close +:+ post) ->
  ToLower open = "<title>" -> ToLower close = "</title>" ->
  Index (ToLower pre +:+ "<title>") "<title>" = len pre ->
  Index (ToLower t +:+ "</title>") "</title>" = len t ->
  extractTitle (pre +:+ open +:+ t +:+ close +:+ post) = TrimSpace t.
Proof.
  intros _ Ho Hc Hpre Ht. unfold extractTitle. cbn zeta.
  rewrite !ToLower_app, Ho, Hc.
  assert (Hlo : len open = 7).
  { unfold len. rewrite <- (ToLower_length open), Ho. reflexivity. }
  assert (Hnn : forall s, 0 <= len s) by (intros s; unfold len; lia).
  assert (E1 : Index (ToLower pre +:+ "<title>" +:+ ToLower t +:+ "</title>"
                        +:+ ToLower post) "<title>" = len pre).
  { rewrite <- append_assoc. rewrite Index_app; [exact Hpre|].
    rewrite Hpre. specialize (Hnn pre). lia. }
  rewrite E1.
  destruct (Z.eqb_spec (len pre) (-1)) as [E|_]; [specialize (Hnn pre); lia|].
  assert (E2 : sliceFrom (ToLower pre +:+ "<title>" +:+ ToLower t +:+ "</title>"
                            +:+ ToLower post) (len pre + 7)
               = ToLower t +:+ "</title>" +:+ ToLower post).
  { rewrite <- append_assoc.
    replace (len pre + 7) with (len (ToLower pre +:+ "<title>"))
      by (unfold len; rewrite length_append, ToLower_length; cbn; lia).
    apply sliceFrom_app. }
  rewrite E2.
  assert (E3 : Index (ToLower t +:+ "</title>" +:+ ToLower post) "</title>" = len t).
  { rewrite <- append_assoc. rewrite Index_app; [exact Ht|].
    rewrite Ht. specialize (Hnn t). lia. }
  rewrite E3.
  destruct (Z.eqb_spec (len t) (-1)) as [E|_]; [specialize (Hnn t); lia|].
  f_equal.
  rewrite <- (append_assoc pre open).
  replace (len pre + 7) with (len (pre +:+ open))
    by (unfold len in *; rewrite length_append; lia).
  apply slice_app.
Qed.

Lemma X22_extractTitle_finds_title_witness :
  extractTitle ("<html><head>" +:+ "<TITLE>" +:+ " Router login " +:+ "</Title>"
                  +:+ "</head></html>")
  = TrimSpace " Router login ".
Proof.
  apply (X22_extractTitle_finds_title "<html><head>" "<TITLE>" " Router login "
           "</Title>" "</head></html>").
  - unfold isASCII. apply Forall_forall. intros c Hc.
    apply list_elem_of_In in Hc. vm_compute in Hc.
    repeat (destruct Hc as [<-|Hc]; [reflexivity|]). destruct Hc.
  - reflexivity.
  - reflexivity.
  - reflexivity.
  - reflexivity.
Defined.

End TitleFacts.

Section EhloFacts.
Import Strings Banner Fingerprint Zgrab.

Lemma clean_no_newline l : clean l -> Forall (fun c => c <> newline) l.
Proof.
  intros H. eapply List.Forall_impl; [|exact H]. cbn. intros c Hc ->. discriminate Hc.
Qed.

Lemma ehloCapability_line item :
  capability item -> ehloCapability (ehloLine item) = [snd item].
Proof.
  destruct item as [c cap]. intros (Hc & Hst & Hne & H250). cbn [fst snd] in *.
  unfold ehloCapability, ehloLine. cbn [fst snd].
  rewrite <- append_assoc. unfold cr. rewrite TrimSpace_snoc by reflexivity.
  assert (Hpc : printable c = true) by (destruct Hc as [-> | ->]; reflexivity).
  assert (HX : stripped (bytes ("250" +:+ String c cap))).
  { destruct Hst as (Hcl & Hh & Hl).
    change (bytes ("250" +:+ String c cap))
      with ("2"%char :: "5"%char :: "0"%char :: c :: bytes cap).
    split; [|split].
    - repeat (constructor; [reflexivity|]). constructor; assumption.
    - reflexivity.
    - cbn [rev]. destruct (rev (bytes cap)) as [|x r] eqn:Er.
      + exfalso. apply Hne. apply (f_equal (@rev ascii)) in Er.
        rewrite rev_involutive in Er. cbn in Er.
        rewrite <- (of_bytes_bytes cap), Er. reflexivity.
      + cbn [app]. exact Hl. }
  rewrite (TrimSpace_stripped _ HX).
  assert (Hlen : len ("250" +:+ String c cap) = 4 + len cap).
  { unfold len.
    change ("250" +:+ String c cap)
      with (String "2" (String "5" (String "0" (String c cap)))).
    cbn [String.length]. lia. }
  rewrite Hlen.
  assert (Hcap : 0 < len cap).
  { unfold len. destruct cap; [contradiction|cbn [String.length]; lia]. }
  destruct (Z.ltb_spec 4 (4 + len cap)); [|lia].
  assert (Hb : ((byteAt ("250" +:+ String c cap) 3 =? 45)%N
               || (byteAt ("250" +:+ String c cap) 3 =? 32)%N) = true).
  { change (byteAt ("250" +:+ String c cap) 3) with (code c).
    destruct Hc as [-> | ->]; reflexivity. }
  rewrite Hb. cbn [andb].
  assert (Hs : sliceFrom ("250" +:+ String c cap) 4 = cap).
  { change ("250" +:+ String c cap) with (("250" +:+ String c "") +:+ cap).
    apply (sliceFrom_app ("250" +:+ String c "") cap). }
  rewrite Hs, (TrimSpace_stripped _ Hst), H250.
  destruct (String.eqb_spec cap ""); [contradiction|]. reflexivity.
Qed.

(** X23.  From an EHLO response whose lines are 250, a dash or a blank, a
    capability and CR, each ended by LF, parseEHLOCapabilities returns
    the capabilities in the order of the lines, when each of them is a
    non-empty printable text without a blank at either end that does not
    start with 250.  The first line, which carries the name of the
    server, is returned like the others. *)
Theorem X23_parseEHLOCapabilities_lines items :
  Forall capability items ->
  parseEHLOCapabilities (String.concat lf (map ehloLine items ++ [""]))
  = map snd items.
Proof.
  intros Hall. unfold parseEHLOCapabilities.
  assert (Hnl : Forall (fun l => Forall (fun c => c <> newline) (bytes l))
                  (map ehloLine items ++ [""])).
  { apply Forall_app. split; [|repeat constructor].
    apply Forall_map. eapply List.Forall_impl; [|exact Hall].
    intros [c cap] (Hc & (Hcl & _) & _). cbn [fst snd] in *.
    unfold ehloLine. cbn [fst snd].
    change (bytes ("250" +:+ String c cap +:+ cr))
      with ("2"%char :: "5"%char :: "0"%char :: c :: bytes (cap +:+ cr)).
    repeat (constructor; [discriminate|]).
    constructor; [destruct Hc as [-> | ->]; discriminate|].
    rewrite bytes_app. apply Forall_app. split; [by apply clean_no_newline|].
    repeat constructor; discriminate. }
  destruct (map ehloLine items ++ [""]) as [|line lines] eqn:E.
  { by destruct (map ehloLine items). }
  unfold lf.
  rewrite Split_concat by exact Hnl. rewrite <- E. clear E Hnl line lines.
  rewrite flat_map_app. cbn [flat_map].
  change (ehloCapability "") with (@nil string). rewrite !app_nil_r.
  induction Hall as [|item items Hi _ IH]; [reflexivity|].
  cbn [map flat_map]. rewrite (ehloCapability_line item Hi), IH. reflexivity.
Qed.

Lemma X23_parseEHLOCapabilities_lines_witness :
  parseEHLOCapabilities
    (String.concat lf
       (map ehloLine [("-"%char, "mail.example.com"); ("-"%char, "PIPELINING");
                      (" "%char, "SIZE 10240000")] ++ [""]))
  = map snd [("-"%char, "mail.example.com"); ("-"%char, "PIPELINING");
             (" "%char, "SIZE 10240000")].
Proof.
  apply (X23_parseEHLOCapabilities_lines
           [("-"%char, "mail.example.com"); ("-"%char, "PIPELINING");
            (" "%char, "SIZE 10240000")]).
  constructor; [|constructor; [|constructor; [|constructor]]].
  - split; [left; reflexivity|]. split; [apply stripped_literal; reflexivity|].
    split; [discriminate|reflexivity].
  - split; [left; reflexivity|]. split; [apply stripped_literal; reflexivity|].
    split; [discriminate|reflexivity].
  - split; [right; reflexivity|]. split; [apply stripped_literal; reflexivity|].
    split; [discriminate|reflexivity].
Defined.

End EhloFacts.

Section RedisFacts.
Import Strings Fingerprint Zgrab.

(** X24.  extractRedisVersion returns what follows "redis_version:" on the
    first line of the INFO text that starts with it, up to the line
    feed: nothing is trimmed, so a carriage return in front of the line
    feed stays in the version. *)
Theorem X24_extractRedisVersion_first_line before v after :
  Forall (fun l => Forall (fun c => c <> newline) (bytes l)
                   /\ HasPrefix l "redis_version:" = false) before ->
  Forall (fun c => c <> newline) (bytes v) ->
  Forall (fun l => Forall (fun c => c <> newline) (bytes l)) after ->
  extractRedisVersion
    (String.concat lf (before ++ ("redis_version:" +:+ v) :: after))
  = v.
Proof.
  intros Hb Hv Ha. unfold extractRedisVersion.
  assert (Hall : Forall (fun l => Forall (fun c => c <> newline) (bytes l))
                   (before ++ ("redis_version:" +:+ v) :: after)).
  { apply Forall_app. split.
    - eapply List.Forall_impl; [|exact Hb]. cbn. tauto.
    - constructor; [|exact Ha]. rewrite bytes_app. apply Forall_app. split; [|exact Hv].
      repeat constructor; discriminate. }
  destruct (before ++ ("redis_version:" +:+ v) :: after) as [|line lines] eqn:E.
  { by destruct before. }
  unfold lf.
  rewrite Split_concat by exact Hall. rewrite <- E. clear E Hall line lines.
  induction Hb as [|l before [_ Hl] Hb IH]; cbn [app firstRedisVersion].
  - by rewrite HasPrefix_append, TrimPrefix_append.
  - rewrite Hl. exact IH.
Qed.

Lemma X24_extractRedisVersion_first_line_witness :
  extractRedisVersion
    (String.concat lf
       (["# Server" +:+ cr] ++ ("redis_version:" +:+ ("7.2.4" +:+ cr))
          :: ["redis_mode:standalone" +:+ cr; ""]))
  = "7.2.4" +:+ cr.
Proof.
  apply (X24_extractRedisVersion_first_line ["# Server" +:+ cr] ("7.2.4" +:+ cr)
           ["redis_mode:standalone" +:+ cr; ""]).
  - repeat constructor; discriminate.
  - repeat constructor; discriminate.
  - repeat constructor; discriminate.
Defined.

End RedisFacts.

(** ** The delegated probe backend *)

Section ZmapExtras.
Import Zmap.

Variable z : ZmapScanner.
Variable runOf : string -> Z -> Run.

Lemma readRows_port port rs : forall acc,
  Forall (fun r => Port r = port) acc ->
  Forall (fun r => Port r = port) (fold_left (readRow port) rs acc).
Proof.
  induction rs as [|r rs IH]; intros acc Hacc; [exact Hacc|].
  cbn [fold_left]. apply IH. unfold readRow.
  destruct r as [record|]; [|exact Hacc].
  destruct record as [|field rest]; [exact Hacc|].
  destruct (negb (String.eqb field "")); [|exact Hacc].
  apply Forall_app. split; [exact Hacc|]. repeat constructor.
Qed.

Lemma scanNetworkPort_port run network port :
  Forall (fun r => Port r = port) (fst (scanNetworkPort z run network port)).
Proof.
  unfold scanNetworkPort.
  repeat match goal with
         | |- context [match ?x with Some _ => _ | None => _ end] => destruct x
         | |- context [if ?b then _ else _] => destruct b
         end; cbn [fst]; try constructor;
    apply readRows_port; constructor.
Qed.

Lemma scanPortLoop_flat port networks : forall acc,
  scanPortLoop z runOf port networks acc
  = acc ++ flat_map (networkResults z runOf port) networks.
Proof.
  induction networks as [|network rest IH]; intros acc; cbn [scanPortLoop flat_map].
  - by rewrite app_nil_r.
  - unfold networkResults at 1.
    destruct (scanNetworkPort z (runOf network port) network port) as [rs [e|]];
      rewrite IH; [reflexivity|by rewrite app_assoc].
Qed.

Lemma zmap_ScanPort_flat port :
  Zmap.ScanPort z runOf port
  = (flat_map (networkResults z runOf port) (Networks z), None).
Proof. unfold Zmap.ScanPort. by rewrite scanPortLoop_flat. Qed.

(** X25.  ScanPort of the delegated backend never returns an error: a
    network whose scan fails is logged and skipped, and the result is
    the concatenation, in the order of the networks, of what the scans
    that succeeded returned.  Every result carries the port of the
    call. *)
Theorem X25_zmap_ScanPort_never_fails port :
  Zmap.ScanPort z runOf port
  = (flat_map (networkResults z runOf port) (Networks z), None)
  /\ Forall (fun r => Port r = port) (fst (Zmap.ScanPort z runOf port)).
Proof.
  rewrite zmap_ScanPort_flat. cbn [fst]. split; [reflexivity|].
  apply Forall_flat_map, Forall_forall. intros network _. unfold networkResults.
  pose proof (scanNetworkPort_port (runOf network port) network port) as H.
  destruct (scanNetworkPort z (runOf network port) network port) as [rs [e|]];
    [constructor|exact H].
Qed.

Lemma zmap_scanPortsLoop_cut ctx ports : forall st,
  Zmap.scanPortsLoop z runOf ctx ports st
  = (fst (Zmap.scanPortsLoop z runOf neverDone
            (take (handled z ctx ports (probed st)) ports) st),
     if (handled z ctx ports (probed st) <? length ports)%nat
     then ctxError else None).
Proof.
  induction ports as [|p rest IH]; intros st; [reflexivity|].
  cbn [Zmap.scanPortsLoop handled].
  destruct (ctx (probed st)); [reflexivity|].
  cbn [take Zmap.scanPortsLoop neverDone length].
  unfold Zmap.ScanPort. cbn iota beta. rewrite IH. reflexivity.
Qed.

Lemma zmap_scanPortsLoop_probed ports : forall st,
  probed (fst (Zmap.scanPortsLoop z runOf neverDone ports st))
  = probed st ++ flat_map (pairsOf z) ports.
Proof.
  induction ports as [|p rest IH]; intros st; [by rewrite app_nil_r|].
  cbn [Zmap.scanPortsLoop neverDone flat_map]. unfold Zmap.ScanPort. cbn iota beta.
  rewrite IH. cbn [probed]. unfold pairsOf. by rewrite <- app_assoc.
Qed.

Lemma zmap_scanPortsLoop_hostPorts ports : forall st,
  hostPorts (fst (Zmap.scanPortsLoop z runOf neverDone ports st))
  = addResults (hostPorts st)
      (flat_map (fun port => fst (Zmap.ScanPort z runOf port)) ports).
Proof.
  induction ports as [|p rest IH]; intros st; [reflexivity|].
  cbn [Zmap.scanPortsLoop neverDone flat_map]. unfold Zmap.ScanPort at 1. cbn iota beta.
  rewrite IH. cbn [hostPorts]. unfold addResults. rewrite fold_left_app. reflexivity.
Qed.

(** X26.  ScanPorts of the delegated backend returns an error exactly
    when it finds the context done in front of a port, and the error is
    the one of the context.  It has then probed every network for the
    ports before that one, port by port, and its map holds the results
    of the scans of these ports that succeeded, added in this order;
    when the context is never found done, these are all ports. *)
Theorem X26_zmap_ScanPorts_cancelled ctx ports :
  snd (Zmap.ScanPorts z runOf ctx ports)
  = (if (handled z ctx ports [] <? length ports)%nat then ctxError else None)
  /\ probed (fst (Zmap.ScanPorts z runOf ctx ports))
     = flat_map (pairsOf z) (take (handled z ctx ports []) ports)
  /\ hostPorts (fst (Zmap.ScanPorts z runOf ctx ports))
     = addResults ∅
         (flat_map (fun port => flat_map (networkResults z runOf port) (Networks z))
            (take (handled z ctx ports []) ports))
  /\ ((forall l, ctx l = false) -> handled z ctx ports [] = length ports).
Proof.
  unfold Zmap.ScanPorts. rewrite zmap_scanPortsLoop_cut.
  cbn [start probed fst snd]. split; [reflexivity|].
  rewrite zmap_scanPortsLoop_probed, zmap_scanPortsLoop_hostPorts.
  cbn [start probed hostPorts app]. split; [reflexivity|]. split.
  - f_equal. apply flat_map_ext. intros port. by rewrite zmap_ScanPort_flat.
  - intros Hnd. generalize (@nil (string * Z)).
    induction ports as [|p rest IH]; intros h; cbn [handled length]; [reflexivity|].
    by rewrite Hnd, IH.
Qed.

End ZmapExtras.

Section ModuleTables.

(** X27.  GetModuleForPort of zmap.go and getZgrabModule of zgrab.go name
    the same zgrab2 module for every port except 23, 443, 8443, 993 and
    995, for which they differ. *)
Theorem X27_GetModuleForPort_disagrees port :
  Zmap.GetModuleForPort port = Zgrab.getZgrabModule port
  <-> ~ In port [23; 443; 8443; 993; 995].
Proof.
  unfold Zmap.GetModuleForPort, Zgrab.getZgrabModule.
  repeat match goal with
         | |- context [Z.eqb port ?k] =>
             destruct (Z.eqb_spec port k) as [->|?];
             [cbn [Z.eqb Pos.eqb orb]|cbn [orb]]
         end;
    cbn [In]; split; intros H; try discriminate H; try reflexivity;
    try (intros H'; repeat (destruct H' as [H'|H']; [lia|]); exact H');
    try (exfalso; apply H; lia); try tauto.
Qed.

End ModuleTables.

(** ** The orchestration of a scan (main.go) *)

Section MainExtras.
Import Fingerprint Main.

Lemma waitLoop_spec healthy left : forall i,
  (i <= fst (waitLoop healthy i left) <= i + left)%nat
  /\ (snd (waitLoop healthy i left) = true ->
      (i < fst (waitLoop healthy i left))%nat
      /\ healthy (fst (waitLoop healthy i left) - 1)%nat = true
      /\ forall j, (i <= j < fst (waitLoop healthy i left) - 1)%nat -> healthy j = false)
  /\ (snd (waitLoop healthy i left) = false ->
      fst (waitLoop healthy i left) = (i + left)%nat
      /\ forall j, (i <= j < i + left)%nat -> healthy j = false).
Proof.
  induction left as [|left IH]; intros i; cbn [waitLoop].
  - cbn. split; [lia|]. split; [discriminate|]. intros _. split; [lia|].
    intros j Hj. lia.
  - destruct (healthy i) eqn:E.
    + cbn [fst snd]. split; [lia|]. split; [|discriminate]. intros _.
      split; [lia|]. replace (S i - 1)%nat with i by lia. split; [exact E|].
      intros j Hj. lia.
    + specialize (IH (S i)). destruct IH as (H1 & H2 & H3).
      split; [lia|]. split.
      * intros Hs. destruct (H2 Hs) as (Ha & Hb & Hc). split; [lia|].
        split; [exact Hb|].
        intros j Hj. destruct (decide (j = i)) as [->|Hne]; [exact E|]. apply Hc. lia.
      * intros Hs. destruct (H3 Hs) as (Ha & Hb). split; [lia|].
        intros j Hj. destruct (decide (j = i)) as [->|Hne]; [exact E|]. apply Hb. lia.
Qed.

(** X28.  The wait for the API at start-up makes at most 30 health checks
    and sleeps at most 30 times two seconds.  It stops at the first check
    that succeeds, having slept once after every failed check before it;
    when none of the 30 checks succeeds, it has slept 30 times and main
    goes on to scan all the same. *)
Theorem X28_waitForAPI_bounded healthy :
  (fst (waitForAPI healthy) <= 30)%nat
  /\ (sleeps (waitForAPI healthy) <= 30)%nat
  /\ (snd (waitForAPI healthy) = true <->
      exists i, (i < 30)%nat /\ healthy i = true)
  /\ (snd (waitForAPI healthy) = true ->
      healthy (fst (waitForAPI healthy) - 1)%nat = true
      /\ sleeps (waitForAPI healthy) = (fst (waitForAPI healthy) - 1)%nat
      /\ forall j, (j < fst (waitForAPI healthy) - 1)%nat -> healthy j = false)
  /\ (snd (waitForAPI healthy) = false ->
      fst (waitForAPI healthy) = 30%nat /\ sleeps (waitForAPI healthy) = 30%nat).
Proof.
  unfold waitForAPI, sleeps.
  pose proof (waitLoop_spec healthy 30 0) as H.
  destruct H as (H1 & H2 & H3).
  destruct (waitLoop healthy 0 30) as [n ready]. cbn [fst snd] in *.
  split; [lia|]. split; [destruct ready; lia|]. split; [|split].
  - split.
    + intros Hr. destruct (H2 Hr) as (Ha & Hb & _). exists (n - 1)%nat.
      split; [lia|exact Hb].
    + intros (i & Hi & Hh). destruct ready; [reflexivity|].
      destruct (H3 eq_refl) as [_ Hall]. rewrite Hall in Hh by lia. discriminate.
  - intros Hr. destruct (H2 Hr) as (Ha & Hb & Hc). rewrite Hr. split; [exact Hb|].
    split; [reflexivity|]. intros j Hj. apply Hc. lia.
  - intros Hr. destruct (H3 Hr) as [Ha _]. rewrite Hr. lia.
Qed.

Section Submit.

Variable t : Zgrab.Tools.
Variable scanID : string.
Variable ctxDoneAt : ZmapResult -> bool.



End Submit.

Section Run.

Variable t : Zgrab.Tools.
Variable scanID : string.
Variable ctxDoneAt : ZmapResult -> bool.
Variable ScanPort : Z -> list ZmapResult * error.
Variable ctxDoneAfter : list Z -> bool.


End Run.

End MainExtras.
